(** * Coag-Sense Tracker: device synchronisation engine, reading store and
      range statistics

    A shallow embedding of the Electron main process
    ([electron-app/src], the [handleConnection], [parseObservationsXml],
    [finalizeTransfer], [loadData], [saveData] and [import-data] code) and of
    the mobile application ([mobile-app/src/services/bluetooth.ts],
    [services/storage.ts], [services/pdf.ts] and the dashboard screen),
    followed by the properties of the device synchronisation engine that the
    specification states about them and by further properties of the
    handlers, the stores, the device scan and the statistics.

    Conventions of the embedding.
    - A JavaScript string is a [string]: a sequence of code units below 256
      (the POCT1-A wire format is ASCII XML).
    - A JavaScript number is a [JS.number]: [NaN], an infinity, or an exact
      rational; the type also holds [null], which is what a number that
      JSON cannot write comes back as.  Rounding of binary64 arithmetic is
      not modelled; every concrete evaluation below uses values that
      binary64 represents exactly.
    - Closures over mutable variables become records that are passed and
      returned; everything the code sends, shows or logs is appended to a
      trace, oldest entry first.
    - The clock, the file system's answer to a write, the file dialog and the
      identifier generator are inputs of the functions that use them. *)

From Equations Require Import Equations.
From Stdlib Require Import ZArith QArith Qround Qminmax List String Ascii Bool Lia.
From Stdlib Require Import Sorted Permutation.
Import ListNotations.
Close Scope Q_scope.
Local Open Scope string_scope.

(* ================================================================== *)
(** * The platform: strings, numbers, collation, sorting *)
(* ================================================================== *)

Module JS.

(** The double quote character, written by its code. *)
Definition dquote : ascii := "034"%char.

(** [quoted v] is [v] between double quotes. *)
Definition quoted (v : string) : string :=
  String dquote (v ++ String dquote "").

Fixpoint drop (n : nat) (s : string) : string :=
  match n, s with
  | S n', String _ s' => drop n' s'
  | _, _ => s
  end.

Fixpoint take (n : nat) (s : string) : string :=
  match n, s with
  | S n', String c s' => String c (take n' s')
  | _, _ => ""
  end.

(** [s.substring(a, b)], for [a <= b] as at every call site. *)
Definition substring (s : string) (a b : nat) : string :=
  take (b - a) (drop a s).

(** [s.substring(a)]. *)
Definition substringFrom (s : string) (a : nat) : string := drop a s.

(** [s.indexOf(pat)]; [None] stands for [-1]. *)
Fixpoint indexOf (s pat : string) : option nat :=
  if prefix pat s then Some 0
  else match s with
       | "" => None
       | String _ s' => option_map S (indexOf s' pat)
       end.

(** [pat] does not occur in [s]. *)
Definition absent (pat s : string) : Prop :=
  forall k, prefix pat (drop k s) = false.

(** [message] is the text of [s] up to and including the first occurrence
    of [tag], and [rest] is the text after it. *)
Definition first_message (tag s message rest : string) : Prop :=
  s = message ++ rest
  /\ exists before,
       message = before ++ tag
       /\ forall k, k < String.length before -> prefix tag (drop k s) = false.

(** [s.includes(pat)]. *)
Definition includes (s pat : string) : bool :=
  match indexOf s pat with Some _ => true | None => false end.

(** [s.toUpperCase()] as far as the ASCII letters go: a-z are mapped, and
    no other code unit below 256 maps to an ASCII letter. *)
Definition upper_char (c : ascii) : ascii :=
  let n := N_of_ascii c in
  if ((97 <=? n) && (n <=? 122))%N then ascii_of_N (n - 32) else c.

Fixpoint toUpperCase (s : string) : string :=
  match s with
  | "" => ""
  | String c s' => String (upper_char c) (toUpperCase s')
  end.

(** ** Numbers *)

(** [null] is not a number: it is what [JSON.parse] gives where
    [JSON.stringify] met [NaN] or an infinity.  Where the code compares it
    or computes with it, it converts to 0. *)
Inductive number : Type :=
| NaN
| Infinity (negative : bool)
| Num (q : Q)
| null.

Definition isNaN (x : number) : bool :=
  match x with NaN => true | _ => false end.

(** Truthiness: every number but [0] and [NaN]; [null] is falsy. *)
Definition truthy (x : number) : bool :=
  match x with
  | NaN => false
  | Infinity _ => true
  | Num q => negb (Qeq_bool q 0)
  | null => false
  end.

(** The relational comparison of two numbers; [None] when one is [NaN]. *)
Definition compare (x y : number) : option comparison :=
  match x, y with
  | NaN, _ | _, NaN => None
  | Num a, Num b => Some (a ?= b)%Q
  | null, Num b => Some (0 ?= b)%Q
  | Num a, null => Some (a ?= 0)%Q
  | null, null => Some Eq
  | Infinity true, Infinity true => Some Eq
  | Infinity false, Infinity false => Some Eq
  | Infinity true, _ => Some Lt
  | _, Infinity true => Some Gt
  | Infinity false, _ => Some Gt
  | _, Infinity false => Some Lt
  end.

(** [x > y], [x >= y], [x <= y]. *)
Definition gt (x y : number) : bool :=
  match compare x y with Some Gt => true | _ => false end.
Definition ge (x y : number) : bool :=
  match compare x y with Some Gt | Some Eq => true | _ => false end.
Definition le (x y : number) : bool :=
  match compare x y with Some Lt | Some Eq => true | _ => false end.

Definition zero : number := Num 0.

(** [x + y] and [x / n] for a count [n]. *)
Definition add (x y : number) : number :=
  match x, y with
  | NaN, _ | _, NaN => NaN
  | Num a, Num b => Num (a + b)%Q
  | null, Num q | Num q, null => Num q
  | null, null => Num 0
  | Infinity n1, Infinity n2 => if Bool.eqb n1 n2 then Infinity n1 else NaN
  | Infinity n, _ | _, Infinity n => Infinity n
  end.

Definition div_count (x : number) (n : nat) : number :=
  match x, n with
  | NaN, _ => NaN
  | Num q, O =>
      match (q ?= 0)%Q with
      | Eq => NaN
      | Lt => Infinity true
      | Gt => Infinity false
      end
  | Num q, S _ => Num (q / inject_Z (Z.of_nat n))%Q
  | Infinity neg, _ => Infinity neg
  | null, O => NaN
  | null, S _ => Num 0
  end.

(** A number after [JSON.parse(JSON.stringify(x))]: [JSON.stringify] writes
    [NaN] and the infinities as [null]. *)
Definition JSON_number (x : number) : number :=
  match x with
  | NaN | Infinity _ => null
  | Num _ | null => x
  end.

(** [Math.round]: the nearest integer, halves rounded up. *)
Definition Math_round (q : Q) : Z := Qfloor (q + (1 # 2))%Q.

(** ** Collation

    [String.prototype.localeCompare] is the platform's collation.  Its result
    is negative, zero or positive; ECMA-402 makes it a consistent comparison,
    which is all the code relies on. *)
Class Collator : Type := {
  localeCompare : string -> string -> Z;
  localeCompare_antisym :
    forall a b, Z.sgn (localeCompare b a) = (- Z.sgn (localeCompare a b))%Z;
  localeCompare_trans :
    forall a b c,
      (localeCompare a b <= 0)%Z -> (localeCompare b c <= 0)%Z ->
      (localeCompare a c <= 0)%Z
}.

(** Code-unit order, the collation used when a concrete one is needed. *)
Definition codeUnitCompare (a b : string) : Z :=
  match String.compare a b with
  | Lt => (-1)%Z
  | Eq => 0%Z
  | Gt => 1%Z
  end.

(** ** [Array.prototype.sort]

    The sort is stable (ECMAScript 2019).  With a consistent comparator every
    stable sort computes the same array, here by insertion from the right. *)
Section ArraySort.
Context {A : Type} (compareFn : A -> A -> Z).

Fixpoint insert (x : A) (l : list A) : list A :=
  match l with
  | [] => [x]
  | y :: l' =>
      if (compareFn x y <=? 0)%Z then x :: l else y :: insert x l'
  end.

Fixpoint sort (l : list A) : list A :=
  match l with
  | [] => []
  | x :: l' => insert x (sort l')
  end.

End ArraySort.

(** The order a comparator sorts into: [a] may stand before [b]. *)
Definition ascending {A : Type} (compareFn : A -> A -> Z) (a b : A) : Prop :=
  (compareFn a b <= 0)%Z.

(** ** Scanning helpers *)

(** The rest of [s] after the literal [lit], when [s] starts with it. *)
Fixpoint strip_prefix (lit s : string) : option string :=
  match lit, s with
  | "", _ => Some s
  | String a lit', String b s' =>
      if Ascii.eqb a b then strip_prefix lit' s' else None
  | String _ _, "" => None
  end.

(** The longest prefix of [s] whose characters satisfy [p], and the rest. *)
Fixpoint span (p : ascii -> bool) (s : string) : string * string :=
  match s with
  | "" => ("", "")
  | String c s' =>
      if p c then let (a, b) := span p s' in (String c a, b) else ("", s)
  end.

Definition is_digit (c : ascii) : bool :=
  let n := N_of_ascii c in ((48 <=? n) && (n <=? 57))%N.

(** The class [\s] below code unit 256. *)
Definition is_space (c : ascii) : bool :=
  let n := N_of_ascii c in
  (((9 <=? n) && (n <=? 13)) || (n =? 32) || (n =? 160))%N.

(** [parseInt] on a string of decimal digits, the only argument the code
    gives it (the capture of [(\d+)]). *)
Definition digit_value (c : ascii) : Z := (Z.of_N (N_of_ascii c) - 48)%Z.

Fixpoint parseInt_from (acc : Z) (s : string) : Z :=
  match s with
  | "" => acc
  | String c s' => parseInt_from (10 * acc + digit_value c)%Z s'
  end.

Definition parseInt (s : string) : Z := parseInt_from 0 s.

(** ** A decimal [parseFloat]

    [parseFloat] is a builtin; the extractor below takes it as an argument.
    This is the builtin on decimal literals (leading white space, a sign,
    [Infinity], digits with a fraction and an exponent), with the exact
    rational value; it is the instance used for concrete evaluation. *)
Definition scale10 (m e : Z) : Q :=
  if (0 <=? e)%Z then inject_Z (m * 10 ^ e)
  else (m # Z.to_pos (10 ^ (- e)))%Q.

Definition exponent_part (r : string) : Z :=
  match r with
  | String c r1 =>
      if (Ascii.eqb c "e" || Ascii.eqb c "E")%bool then
        let '(sign, r2) :=
          match r1 with
          | String "+"%char r' => (1%Z, r')
          | String "-"%char r' => ((-1)%Z, r')
          | _ => (1%Z, r1)
          end in
        match fst (span is_digit r2) with
        | "" => 0%Z
        | ds => (sign * parseInt ds)%Z
        end
      else 0%Z
  | "" => 0%Z
  end.

Definition unsigned_decimal (s : string) : option Q :=
  let (ip, r) := span is_digit s in
  match r with
  | String "."%char r1 =>
      let (fp, r2) := span is_digit r1 in
      match ip, fp with
      | "", "" => None
      | _, _ =>
          Some (scale10 (parseInt (ip ++ fp))
                        (exponent_part r2 - Z.of_nat (String.length fp)))
      end
  | _ =>
      match ip with
      | "" => None
      | _ => Some (scale10 (parseInt ip) (exponent_part r))
      end
  end.

Definition decimalParseFloat (s : string) : number :=
  let t := snd (span is_space s) in
  let '(neg, u) :=
    match t with
    | String "-"%char u => (true, u)
    | String "+"%char u => (false, u)
    | _ => (false, t)
    end in
  if prefix "Infinity" u then Infinity neg
  else match unsigned_decimal u with
       | Some q => Num (if neg then (- q)%Q else q)
       | None => NaN
       end.

(** [new Set(l).has(x)] on strings. *)
Definition Set_has (l : list string) (x : string) : bool :=
  existsb (String.eqb x) l.

(** [Boolean(s)] on a string. *)
Definition Boolean (s : string) : bool :=
  match s with "" => false | _ => true end.

(** [x - y], and [x < y] as [below x y]. *)
Definition sub (x y : number) : number :=
  match x, y with
  | NaN, _ | _, NaN => NaN
  | Num a, Num b => Num (a - b)%Q
  | Num a, null => Num a
  | null, Num b => Num (- b)%Q
  | null, null => Num 0
  | Infinity n1, Infinity n2 => if Bool.eqb n1 n2 then NaN else Infinity n1
  | Infinity n, _ => Infinity n
  | _, Infinity n => Infinity (negb n)
  end.

Definition below (x y : number) : bool :=
  match compare x y with Some Lt => true | _ => false end.

(** [s.toLowerCase()] on code units below 256: the ASCII capitals and the
    Latin-1 capitals (192 to 222 but the multiplication sign) move up by
    32. *)
Definition lower_char (c : ascii) : ascii :=
  let n := N_of_ascii c in
  if (((65 <=? n) && (n <=? 90))
      || ((192 <=? n) && (n <=? 222) && negb (n =? 215)))%N
  then ascii_of_N (n + 32) else c.

Fixpoint toLowerCase (s : string) : string :=
  match s with
  | "" => ""
  | String c s' => String (lower_char c) (toLowerCase s')
  end.

End JS.

(* ================================================================== *)
(** * Code-unit order is a collation *)
(* ================================================================== *)

(** The instance of [Collator] at which the development evaluates the code,
    with the two laws it owes. *)
Module CodeUnitOrder.
Import JS.

Lemma ascii_compare_trans_lt (a b c : ascii) :
  Ascii.compare a b = Lt -> Ascii.compare b c = Lt -> Ascii.compare a c = Lt.
Proof.
  unfold Ascii.compare. rewrite !N.compare_lt_iff. lia.
Qed.

Lemma string_compare_trans_le (a b c : string) :
  String.compare a b <> Gt -> String.compare b c <> Gt ->
  String.compare a c <> Gt.
Proof.
  revert b c. induction a as [|x a IH]; intros [|y b] [|z c]; simpl;
    try congruence.
  destruct (Ascii.compare x y) eqn:Exy; try congruence.
  - apply Ascii.compare_eq_iff in Exy. subst y.
    destruct (Ascii.compare x z) eqn:Exz; try congruence.
    intros; now apply (IH b c).
  - intros _. destruct (Ascii.compare y z) eqn:Eyz; try congruence.
    + apply Ascii.compare_eq_iff in Eyz. subst z. rewrite Exy. congruence.
    + rewrite (ascii_compare_trans_lt _ _ _ Exy Eyz). congruence.
Qed.

#[export] Instance codeUnitCollator : Collator.
Proof.
  refine {| localeCompare := codeUnitCompare |}.
  - intros a b. unfold codeUnitCompare.
    rewrite (String.compare_antisym a b).
    now destruct (String.compare b a).
  - intros a b c. unfold codeUnitCompare.
    pose proof (string_compare_trans_le a b c) as T.
    destruct (String.compare a b), (String.compare b c),
      (String.compare a c); intros; try lia;
      exfalso; apply T; congruence.
Defined.

End CodeUnitOrder.

(* ================================================================== *)
(** * The regular expressions of the source *)
(* ================================================================== *)

Module Regex.
Import JS.

(** The leftmost position of [s] at which the matcher [m] succeeds: a
    regular expression without the [g] flag returns its leftmost match. *)
Fixpoint first_match {A : Type} (m : string -> option A) (s : string)
  : option A :=
  match m s with
  | Some a => Some a
  | None =>
      match s with
      | "" => None
      | String _ s' => first_match m s'
      end
  end.

Definition not_quote (c : ascii) : bool := negb (Ascii.eqb c dquote).
Definition not_slash (c : ascii) : bool := negb (Ascii.eqb c "/").

(** In the patterns quoted in this module, [Q] stands for the double quote
    character.

    The pattern [([class]+)Q] at the head of [s]: the greedy run of the class
    must be non-empty and end at a double quote (a shorter run ends before a
    character of the class, never before the quote). *)
Definition capture (p : ascii -> bool) (s : string) : option string :=
  let (v, r) := span p s in
  match v, r with
  | String _ _, String c _ => if Ascii.eqb c dquote then Some v else None
  | _, _ => None
  end.

(** [/NAME V=Q([^Q]+)Q/]: the capture of the first match. *)
Definition attr_value (name s : string) : option string :=
  first_match
    (fun t =>
       match strip_prefix (name ++ " V=" ++ String dquote "") t with
       | Some r => capture not_quote r
       | None => None
       end) s.

(** [/NAME V=Q(\d+)Q/]. *)
Definition attr_digits (name s : string) : option string :=
  first_match
    (fun t =>
       match strip_prefix (name ++ " V=" ++ String dquote "") t with
       | Some r => capture is_digit r
       | None => None
       end) s.

(** [/<OBS\.observation_id V=QCODEQ[^/]*\/>\s*<OBS\.value V=Q([^Q]+)Q/]:
    after the identifier, the greedy run of non-slash characters must stop at
    the two characters that close the element, and the greedy run of white
    space at the opening of the value element. *)
Definition obs_value_at (code t : string) : option string :=
  match strip_prefix ("<OBS.observation_id V=" ++ quoted code) t with
  | None => None
  | Some r1 =>
      match strip_prefix "/>" (snd (span not_slash r1)) with
      | None => None
      | Some r2 =>
          match strip_prefix ("<OBS.value V=" ++ String dquote "")
                             (snd (span is_space r2)) with
          | None => None
          | Some r3 => capture not_quote r3
          end
      end
  end.

Definition obs_value (code s : string) : option string :=
  first_match (obs_value_at code) s.

(** The text before and after the first occurrence of [pat] in [s]. *)
Fixpoint find_split (pat s : string) : option (string * string) :=
  match strip_prefix pat s with
  | Some r => Some ("", r)
  | None =>
      match s with
      | "" => None
      | String c s' =>
          match find_split pat s' with
          | Some (b, a) => Some (String c b, a)
          | None => None
          end
      end
  end.

Lemma strip_prefix_length (lit s r : string) :
  strip_prefix lit s = Some r ->
  String.length s = String.length lit + String.length r.
Proof.
  revert s; induction lit as [|a lit IH]; intros s; simpl.
  - intros E; now inversion E.
  - destruct s as [|b s]; [discriminate|].
    destruct (Ascii.eqb a b); [|discriminate].
    intros E; simpl; now rewrite (IH _ E).
Qed.

Lemma find_split_length (pat s b a : string) :
  find_split pat s = Some (b, a) ->
  String.length s = String.length b + String.length pat + String.length a.
Proof.
  revert b; induction s as [|c s IH]; intros b; simpl.
  - destruct (strip_prefix pat "") eqn:E; [|discriminate].
    intros H; inversion H; subst. now apply strip_prefix_length in E.
  - destruct (strip_prefix pat (String c s)) eqn:E.
    + intros H; inversion H; subst. now apply strip_prefix_length in E.
    + destruct (find_split pat s) as [[b' a']|]; [|discriminate].
      intros H; inversion H; subst. simpl. now rewrite (IH b' eq_refl).
Qed.

Definition inspect {A : Type} (a : A) : {b : A | a = b} := exist _ a eq_refl.

(** The loop [while ((match = svcPattern.exec(xml)) !== null)] with
    [svcPattern = /<SVC>([\s\S]*?)<\/SVC>/g]: the captures of the successive
    matches.  Each match starts at the first opening tag at or after the end
    of the previous match and ends at the first closing tag after it. *)
Equations? svc_groups (xml : string) : list string
  by wf (String.length xml) lt :=
  svc_groups xml with inspect (find_split "<SVC>" xml) := {
    | exist _ None _ := [];
    | exist _ (Some (_, r)) e1 with inspect (find_split "</SVC>" r) := {
        | exist _ None _ := [];
        | exist _ (Some (svc, r')) e2 := svc :: svc_groups r' } }.
Proof.
  apply find_split_length in e1, e2. simpl in e1, e2. lia.
Qed.

(** [(message.match(/<SVC>/g) || []).length]. *)
Equations? svc_count (message : string) : nat
  by wf (String.length message) lt :=
  svc_count message with inspect (find_split "<SVC>" message) := {
    | exist _ None _ := 0;
    | exist _ (Some (_, r)) e1 := S (svc_count r) }.
Proof.
  apply find_split_length in e1. simpl in e1. lia.
Qed.

End Regex.

(* ================================================================== *)
(** * The Electron main process *)
(* ================================================================== *)

Module Electron.
Import JS Regex.

(** ** Data *)

(** [state.deviceInfo] once a Hello message was seen. *)
Record DeviceInfo : Type := {
  serial : string;
  model : string
}.

(** The object [obs] while [parseObservationsXml] fills it in: every
    property may still be missing. *)
Record Obs : Type := {
  obs_timestamp : option string;
  obs_sequence : option Z;
  obs_status : option string;
  obs_inr : option number;
  obs_pt_seconds : option number
}.

(** An element of [readings]: an [obs] that passed the validity test, so its
    [timestamp], [inr] and [pt_seconds] are present. *)
Record Reading : Type := {
  timestamp : string;
  sequence : option Z;
  status : option string;
  inr : number;
  pt_seconds : number
}.

(** The content of the data file.  [readings] is [None] when the property is
    missing or is not an array. *)
Record Data : Type := {
  device : option DeviceInfo;
  lastSync : option string;
  totalReadings : option nat;
  readings : option (list Reading)
}.

(** The data file on disk: absent, unreadable (the read or [JSON.parse]
    throws), or holding the JSON text of a value. *)
Inductive DataFile : Type :=
| Missing
| Unreadable
| Stored (data : Data).

(** What [fs.writeFileSync] does: it writes the file, or it throws and
    leaves some file behind. *)
Inductive WriteResult : Type :=
| Written
| WriteThrows (left_on_disk : DataFile).

Inductive AckCode : Type := AA | AR.

(** The two messages the engine writes to the socket.  The header's
    creation time is the wall clock and is left out. *)
Inductive Outbound : Type :=
| ACK_R01 (control_id : Z) (type_cd : AckCode)
| REQ_R01 (control_id : Z).

(** The channels of [sendToRenderer] with their payloads (the window is
    taken to be open, so that every event is sent). *)
Inductive RendererEvent : Type :=
| device_connected
| device_info (device : DeviceInfo)
| status_report (total : Z)
| requesting
| progress (received : nat) (total : Z)
| transfer_complete (newReadings totalReadings : nat)
                    (readings : list Reading)
| error_signal (message : string).

Inductive Effect : Type :=
| socket_write (m : Outbound)
| to_renderer (e : RendererEvent)
| console_log (text : string)
| console_error (text : string).

(** ** Observation extractor *)

Section Extractor.
Variable parseFloat : string -> number.

(** The value found for a LOINC code: [parseFloat] of the capture, kept
    unless it is [NaN]. *)
Definition observed_value (code svc : string) : option number :=
  match obs_value code svc with
  | Some v => let val := parseFloat v in
              if isNaN val then None else Some val
  | None => None
  end.

(** The body of the loop up to the validity test. *)
Definition observation (svc : string) : Obs :=
  {| obs_timestamp := attr_value "<SVC.observation_dttm" svc;
     obs_sequence := option_map parseInt (attr_digits "<SVC.sequence_nbr" svc);
     obs_status := attr_value "<SVC.status_cd" svc;
     obs_inr := observed_value "34714-6" svc;
     obs_pt_seconds := observed_value "5902-2" svc |}.

(** [obs.timestamp && obs.inr && obs.inr > 0 && obs.pt_seconds &&
    obs.pt_seconds > 0]; a missing property is falsy. *)
Definition valid (o : Obs) : bool :=
  match obs_timestamp o, obs_inr o, obs_pt_seconds o with
  | Some ts, Some i, Some pt =>
      Boolean ts && truthy i && gt i zero && truthy pt && gt pt zero
  | _, _, _ => false
  end.

(** The reading that a valid [obs] is. *)
Definition reading_of (o : Obs) : option Reading :=
  match obs_timestamp o, obs_inr o, obs_pt_seconds o with
  | Some ts, Some i, Some pt =>
      Some {| timestamp := ts; sequence := obs_sequence o;
              status := obs_status o; inr := i; pt_seconds := pt |}
  | _, _, _ => None
  end.

(** One turn of the loop: push the observation when it is valid. *)
Definition push_if_valid (observations : list Reading) (svc : string)
  : list Reading :=
  let obs := observation svc in
  if valid obs then
    match reading_of obs with
    | Some r => observations ++ [r]
    | None => observations
    end
  else observations.

Definition parseObservationsXml (xml : string) : list Reading :=
  fold_left push_if_valid (svc_groups xml) [].

End Extractor.

(** ** Connection handler *)

(** The variables of one [handleConnection] closure, the fields
    [observationsReceived] and [deviceInfo] of the shared [state] (its
    connection flags are left out), and the trace of the effects. *)
Record Connection : Type := {
  buffer : string;
  controlId : Z;
  totalAvailable : Z;
  sentRequest : bool;
  rawObservations : list string;
  observationsReceived : nat;
  deviceInfo : option DeviceInfo;
  trace : list Effect
}.

Definition set_buffer (b : string) (c : Connection) : Connection :=
  {| buffer := b; controlId := controlId c;
     totalAvailable := totalAvailable c; sentRequest := sentRequest c;
     rawObservations := rawObservations c;
     observationsReceived := observationsReceived c;
     deviceInfo := deviceInfo c; trace := trace c |}.

Definition emit (e : Effect) (c : Connection) : Connection :=
  {| buffer := buffer c; controlId := controlId c;
     totalAvailable := totalAvailable c; sentRequest := sentRequest c;
     rawObservations := rawObservations c;
     observationsReceived := observationsReceived c;
     deviceInfo := deviceInfo c; trace := trace c ++ [e] |}.

Definition sendToRenderer (e : RendererEvent) (c : Connection) : Connection :=
  emit (to_renderer e) c.

(** [nextControlId] increments the counter and returns it. *)
Definition nextControlId (c : Connection) : Z * Connection :=
  let n := (controlId c + 1)%Z in
  (n, {| buffer := buffer c; controlId := n;
         totalAvailable := totalAvailable c; sentRequest := sentRequest c;
         rawObservations := rawObservations c;
         observationsReceived := observationsReceived c;
         deviceInfo := deviceInfo c; trace := trace c |}).

Definition sendAck (accept : bool) (c : Connection) : Connection :=
  let ackCode := if accept then AA else AR in
  let (n, c) := nextControlId c in
  emit (socket_write (ACK_R01 n ackCode)) c.

Definition sendRequestObservations (c : Connection) : Connection :=
  let (n, c) := nextControlId c in
  emit (socket_write (REQ_R01 n)) c.

(** The five blocks of [processMessages].  In each, [indexOf] finding the
    end tag stands for both the [includes] test and the [indexOf] call. *)

Definition hello (c : Connection) : Connection :=
  match indexOf (buffer c) "</HEL.R01>" with
  | None => c
  | Some i =>
      let endIdx := i + 10 in
      let message := substring (buffer c) 0 endIdx in
      let c := set_buffer (substringFrom (buffer c) endIdx) c in
      let c := emit (console_log "Received HEL.R01 (Hello)") c in
      let info :=
        {| serial := match attr_value "DEV.serial_id" message with
                     | Some v => v
                     | None => "Unknown"
                     end;
           model := match attr_value "DEV.model_id" message with
                    | Some v => v
                    | None => "Coag-Sense PT/INR"
                    end |} in
      let c :=
        {| buffer := buffer c; controlId := controlId c;
           totalAvailable := totalAvailable c; sentRequest := sentRequest c;
           rawObservations := rawObservations c;
           observationsReceived := observationsReceived c;
           deviceInfo := Some info; trace := trace c |} in
      let c := sendToRenderer (device_info info) c in
      sendAck true c
  end.

Definition deviceStatus (c : Connection) : Connection :=
  match indexOf (buffer c) "</DST.R01>" with
  | None => c
  | Some i =>
      let endIdx := i + 10 in
      let message := substring (buffer c) 0 endIdx in
      let c := set_buffer (substringFrom (buffer c) endIdx) c in
      let c := emit (console_log "Received DST.R01 (Device Status)") c in
      let total := match attr_digits "new_observations_qty" message with
                   | Some d => parseInt d
                   | None => 0%Z
                   end in
      let c :=
        {| buffer := buffer c; controlId := controlId c;
           totalAvailable := total; sentRequest := sentRequest c;
           rawObservations := rawObservations c;
           observationsReceived := observationsReceived c;
           deviceInfo := deviceInfo c; trace := trace c |} in
      let c := sendToRenderer (status_report total) c in
      let c := sendAck true c in
      if negb (sentRequest c) then
        let c :=
          {| buffer := buffer c; controlId := controlId c;
             totalAvailable := totalAvailable c; sentRequest := true;
             rawObservations := rawObservations c;
             observationsReceived := observationsReceived c;
             deviceInfo := deviceInfo c; trace := trace c |} in
        let c := sendToRenderer requesting c in
        sendRequestObservations c
      else c
  end.

Definition observations (acceptObservations : bool) (c : Connection)
  : Connection :=
  match indexOf (buffer c) "</OBS.R01>" with
  | None => c
  | Some i =>
      let endIdx := i + 10 in
      let message := substring (buffer c) 0 endIdx in
      let c := set_buffer (substringFrom (buffer c) endIdx) c in
      let svcCount := svc_count message in
      let c :=
        {| buffer := buffer c; controlId := controlId c;
           totalAvailable := totalAvailable c; sentRequest := sentRequest c;
           rawObservations := rawObservations c ++ [message];
           observationsReceived := observationsReceived c + svcCount;
           deviceInfo := deviceInfo c;
           trace := trace c ++ [console_log "Received OBS.R01"] |} in
      let c := sendToRenderer
                 (progress (observationsReceived c) (totalAvailable c)) c in
      sendAck acceptObservations c
  end.

Definition endOfTopic (c : Connection) : Connection :=
  match indexOf (buffer c) "</EOT.R01>" with
  | None => c
  | Some i =>
      let endIdx := i + 10 in
      let c := set_buffer (substringFrom (buffer c) endIdx) c in
      let c := emit (console_log "Received EOT.R01 (End of Topic)") c in
      sendAck true c
  end.

Definition escapeOrError (c : Connection) : Connection :=
  if includes (buffer c) "</ESC.R01>" || includes (buffer c) "<ERR" then
    let c := emit (console_log "Received escape or error") c in
    sendToRenderer (error_signal "Device sent escape/error signal") c
  else c.

Definition processMessages (acceptObservations : bool) (c : Connection)
  : Connection :=
  let c := hello c in
  let c := deviceStatus c in
  let c := observations acceptObservations c in
  let c := endOfTopic c in
  escapeOrError c.

(** [socket.on('data', ...)]: append the chunk, then one processing pass. *)
Definition onData (acceptObservations : bool) (data : string)
  (c : Connection) : Connection :=
  processMessages acceptObservations
    (set_buffer (buffer c ++ data) c).

(** The state at the start of [handleConnection]; [info] is what
    [state.deviceInfo] held before. *)
Definition handleConnection (info : option DeviceInfo) : Connection :=
  {| buffer := ""; controlId := 20000; totalAvailable := 0;
     sentRequest := false; rawObservations := [];
     observationsReceived := 0; deviceInfo := info;
     trace := [to_renderer device_connected] |}.

(** A session: the chunks delivered by the socket, in order. *)
Definition session (acceptObservations : bool) (chunks : list string)
  (c : Connection) : Connection :=
  fold_left (fun c data => onData acceptObservations data c) chunks c.

(** What was written to the socket, in order. *)
Definition written (t : list Effect) : list Outbound :=
  flat_map (fun e => match e with socket_write m => [m] | _ => [] end) t.

Definition is_request (m : Outbound) : bool :=
  match m with REQ_R01 _ => true | ACK_R01 _ _ => false end.

(** No request was written. *)
Definition never_requested (w : list Outbound) : Prop :=
  filter is_request w = [].

(** Exactly one request was written, directly after an accepting
    acknowledgment and with the next control identifier. *)
Definition requested_once (w : list Outbound) : Prop :=
  exists before after n,
    w = (before ++ ACK_R01 n AA :: REQ_R01 (n + 1) :: after)%list
    /\ filter is_request before = []
    /\ filter is_request after = [].

(** The request bookkeeping of a connection: the flag is set exactly when
    the one request was written. *)
Definition request_invariant (c : Connection) : Prop :=
  if sentRequest c then requested_once (written (trace c))
  else never_requested (written (trace c)).

(** [c'] continues [c] with acknowledgments only. *)
Definition only_acks (c c' : Connection) : Prop :=
  sentRequest c' = sentRequest c
  /\ exists acks,
       written (trace c') = (written (trace c) ++ acks)%list
       /\ filter is_request acks = [].

(** Some request stands before some accepting acknowledgment. *)
Definition request_before_ack (w : list Outbound) : Prop :=
  exists l1 l2 l3 n m,
    w = (l1 ++ REQ_R01 n :: l2 ++ ACK_R01 m AA :: l3)%list.

(** ** Data persistence *)

(** The data file holds JSON text: [Stored data] is the file whose text is
    [JSON.stringify(data)].  JSON keeps the strings, the integers and the
    rationals of the data as they are and writes a number that is [NaN] or
    an infinity as [null]. *)
Definition JSON_reading (r : Reading) : Reading :=
  {| timestamp := timestamp r; sequence := sequence r; status := status r;
     inr := JSON_number (inr r);
     pt_seconds := JSON_number (pt_seconds r) |}.

(** [JSON.parse(JSON.stringify(data))]. *)
Definition JSON_data (data : Data) : Data :=
  {| device := device data; lastSync := lastSync data;
     totalReadings := totalReadings data;
     readings := option_map (map JSON_reading) (readings data) |}.

(** [{ readings: [] }]. *)
Definition noData : Data :=
  {| device := None; lastSync := None; totalReadings := None;
     readings := Some [] |}.

(** [loadData] returns what [JSON.parse] gives of the text of the file. *)
Definition loadData (file : DataFile) : Data * list Effect :=
  match file with
  | Stored data => (JSON_data data, [])
  | Unreadable => (noData, [console_error "Error loading data:"])
  | Missing => (noData, [])
  end.

(** [saveData] writes [JSON.stringify(data)], so that the file holds what
    JSON keeps of the data; it catches what the write throws and logs it. *)
Definition saveData (w : WriteResult) (data : Data)
  : DataFile * list Effect :=
  match w with
  | Written => (Stored (JSON_data data), [])
  | WriteThrows left_on_disk =>
      (left_on_disk, [console_error "Error saving data:"])
  end.

(** ** Reconciliation: the merge inside [finalizeTransfer] *)

Section Reconciliation.
Context {collator : Collator}.

(** The comparator given to [sort]. *)
Definition byTimestamp (a b : Reading) : Z :=
  localeCompare (timestamp a) (timestamp b).

(** [new Set(existingReadings.map(r => r.timestamp).filter(Boolean))]. *)
Definition existingTimestamps (existingReadings : list Reading)
  : list string :=
  filter Boolean (map timestamp existingReadings).

Definition uniqueNew (existingReadings newReadings : list Reading)
  : list Reading :=
  filter (fun r => negb (Set_has (existingTimestamps existingReadings)
                                 (timestamp r)))
         newReadings.

Definition set_sequence (n : Z) (r : Reading) : Reading :=
  {| timestamp := timestamp r; sequence := Some n; status := status r;
     inr := inr r; pt_seconds := pt_seconds r |}.

(** [l.forEach((r, i) => r.sequence = i + 1)], with [i] counted from
    [start]. *)
Fixpoint renumber_from (start : nat) (l : list Reading) : list Reading :=
  match l with
  | [] => []
  | r :: l' =>
      set_sequence (Z.of_nat start + 1) r :: renumber_from (S start) l'
  end.

Definition renumber (l : list Reading) : list Reading := renumber_from 0 l.

(** [allReadings] after the merge, the sort and the renumbering. *)
Definition allReadings (existingReadings newReadings : list Reading)
  : list Reading :=
  renumber (sort byTimestamp
              (existingReadings ++ uniqueNew existingReadings newReadings)).

Section Finalize.
Variable parseFloat : string -> number.

(** The readings parsed from the raw observation messages of a session. *)
Definition parsedReadings (rawObservations : list string) : list Reading :=
  flat_map (parseObservationsXml parseFloat) rawObservations.

(** [existingData.readings || []]. *)
Definition readings_or_empty (data : Data) : list Reading :=
  match readings data with
  | Some l => l
  | None => []
  end.

(** [finalizeTransfer]: [now] is the clock, [w] the answer of the file
    system to the write, [info] the current [state.deviceInfo]. *)
Definition finalizeTransfer (now : string) (w : WriteResult)
  (info : option DeviceInfo) (rawObservations : list string)
  (file : DataFile) : DataFile * list Effect :=
  let newReadings := parsedReadings rawObservations in
  let (existingData, loaded) := loadData file in
  let existingReadings := readings_or_empty existingData in
  let fresh := uniqueNew existingReadings newReadings in
  let all := allReadings existingReadings newReadings in
  let data :=
    {| device := info; lastSync := Some now;
       totalReadings := Some (List.length all); readings := Some all |} in
  let (file', saved) := saveData w data in
  (file',
   ([console_log "Transfer complete, parsing observations..."]
      ++ loaded ++ saved
      ++ [console_log "Saved total readings";
          to_renderer
            (transfer_complete (List.length fresh) (List.length all) all)])
   %list).

(** [socket.on('close', ...)]. *)
Definition onClose (now : string) (w : WriteResult) (c : Connection)
  (file : DataFile) : DataFile * list Effect :=
  let (file', effects) :=
    finalizeTransfer now w (deviceInfo c) (rawObservations c) file in
  (file', (trace c ++ [console_log "Device disconnected"] ++ effects)%list).

End Finalize.
End Reconciliation.

(** What the renderer was sent, in order. *)
Definition shown (t : list Effect) : list RendererEvent :=
  flat_map (fun e => match e with to_renderer ev => [ev] | _ => [] end) t.

(** The readings that the next [loadData] finds in the data file. *)
Definition stored_readings (file : DataFile) : list Reading :=
  match readings (fst (loadData file)) with
  | Some l => l
  | None => []
  end.

(** ** The import-data handler *)

(** [fs.readFileSync] followed by [JSON.parse]: one of them throws, or the
    content parses to a value. *)
Inductive FileRead : Type :=
| ReadThrows (message : string)
| Parsed (data : Data).

(** [dialog.showOpenDialog]. *)
Inductive OpenDialog : Type :=
| Canceled
| Chosen (content : FileRead).

(** The object the handler returns: [success] with the number of readings,
    or failure with an optional [error]. *)
Inductive ImportResponse : Type :=
| import_success (readings : nat)
| import_failure (error : option string).

Definition import_data (dlg : OpenDialog) (w : WriteResult)
  (file : DataFile) : ImportResponse * DataFile * list Effect :=
  match dlg with
  | Canceled => (import_failure None, file, [])
  | Chosen (ReadThrows message) => (import_failure (Some message), file, [])
  | Chosen (Parsed data) =>
      match readings data with
      | Some l =>
          let (file', saved) := saveData w data in
          (import_success (List.length l), file', saved)
      | None => (import_failure (Some "Invalid data format"), file, [])
      end
  end.

(** ** The clear-data handler *)

(** [response] is the index of the button chosen in the message box; 1 is
    the button that deletes.  The result tells whether the data was
    cleared. *)
Definition clear_data (response : nat) (w : WriteResult) (file : DataFile)
  : bool * DataFile * list Effect :=
  if (response =? 1)%nat then
    let (file', saved) := saveData w noData in
    (true, file', saved)
  else (false, file, []).

(** ** What a pass adds to the socket *)

Definition control_id_of (m : Outbound) : Z :=
  match m with
  | ACK_R01 n _ => n
  | REQ_R01 n => n
  end.

(** An acknowledgment that rejects. *)
Definition is_reject (m : Outbound) : bool :=
  match m with ACK_R01 _ AR => true | _ => false end.

(** The messages [out] carry the control identifiers that follow
    [start]. *)
Definition numbered (start : Z) (out : list Outbound) : Prop :=
  map control_id_of out
  = map (fun k => (start + Z.of_nat k)%Z) (seq 1 (List.length out)).

(** [c'] is [c] after some steps of the handler: what they wrote, how the
    counter moved, and how many batches they rejected. *)
Definition continues (accept : bool) (c c' : Connection) : Prop :=
  exists out,
    written (trace c') = (written (trace c) ++ out)%list
    /\ controlId c' = (controlId c + Z.of_nat (List.length out))%Z
    /\ numbered (controlId c) out
    /\ List.length (rawObservations c) <= List.length (rawObservations c')
    /\ List.length (filter is_reject out)
       = if accept then 0
         else List.length (rawObservations c')
              - List.length (rawObservations c).

(** The end tags that [processMessages] looks for. *)
Definition end_tags : list string :=
  ["</HEL.R01>"; "</DST.R01>"; "</OBS.R01>"; "</EOT.R01>"].

(** The text [b] holds no complete message and no escape or error
    marker. *)
Definition incomplete (b : string) : bool :=
  forallb (fun tag => negb (includes b tag)) end_tags
  && negb (includes b "</ESC.R01>" || includes b "<ERR").

(** The groups counted in the raw observation messages. *)
Definition counted (raw : list string) : nat :=
  list_sum (map svc_count raw).

(** ** The local address ([getLocalIp]) *)

(** An entry of [os.networkInterfaces()]. *)
Record Iface : Type := {
  family : string;
  internal : bool;
  address : string
}.

(** The inner loop: the first address of the family IPv4 that is not
    internal. *)
Fixpoint firstExternal (ifaces : list Iface) : option string :=
  match ifaces with
  | [] => None
  | iface :: rest =>
      if String.eqb (family iface) "IPv4" && negb (internal iface)
      then Some (address iface)
      else firstExternal rest
  end.

(** [getLocalIp] over the interfaces by name, in the order of
    [Object.keys]. *)
Fixpoint getLocalIp (interfaces : list (string * list Iface)) : string :=
  match interfaces with
  | [] => "127.0.0.1"
  | (_, ifaces) :: rest =>
      match firstExternal ifaces with
      | Some a => a
      | None => getLocalIp rest
      end
  end.

End Electron.

(* ================================================================== *)
(** * The mobile application *)
(* ================================================================== *)

Module Mobile.
Import JS Regex.

(** ** Data ([types/index.ts]) *)

Inductive Status : Type := NRM | HI | LO | ERR.

Record INRReading : Type := {
  id : string;
  timestamp : string;
  inr : number;
  pt_seconds : number;
  status : Status;
  notes : option string;
  syncedToHealth : option bool
}.

Record DeviceInfo : Type := {
  device_id : string;
  name : string;
  serial : option string;
  model : option string;
  isConnected : bool
}.

Record Settings : Type := {
  targetRangeMin : number;
  targetRangeMax : number;
  syncToHealthKit : bool;
  autoConnect : bool;
  lastDeviceId : option string
}.

Definition DEFAULT_SETTINGS : Settings :=
  {| targetRangeMin := Num 2; targetRangeMax := Num 3;
     syncToHealthKit := true; autoConnect := true; lastDeviceId := None |}.

Record AppData : Type := {
  readings : list INRReading;
  device : option DeviceInfo;
  lastSync : option string;
  settings : Settings
}.

(** ** Observation extractor ([services/bluetooth.ts]) *)

(** The object [reading] while it is filled in. *)
Record PartialReading : Type := {
  p_id : string;
  p_status : Status;
  p_timestamp : option string;
  p_inr : option number;
  p_pt_seconds : option number
}.

Definition known_status (s : string) : option Status :=
  if String.eqb s "NRM" then Some NRM
  else if String.eqb s "HI" then Some HI
  else if String.eqb s "LO" then Some LO
  else if String.eqb s "ERR" then Some ERR
  else None.

Section Extractor.
Variable parseFloat : string -> number.
(** The identifier generated for the [k]-th group (time and random
    number). *)
Variable freshId : nat -> string.

Definition observed_value (code svc : string) : option number :=
  match obs_value code svc with
  | Some v => let val := parseFloat v in
              if isNaN val then None else Some val
  | None => None
  end.

Definition partial_reading (k : nat) (svc : string) : PartialReading :=
  {| p_id := freshId k;
     p_status :=
       match attr_value "<SVC.status_cd" svc with
       | Some v =>
           match known_status (toUpperCase v) with
           | Some st => st
           | None => NRM
           end
       | None => NRM
       end;
     p_timestamp := attr_value "<SVC.observation_dttm" svc;
     p_inr := observed_value "34714-6" svc;
     p_pt_seconds := observed_value "5902-2" svc |}.

Definition valid (p : PartialReading) : bool :=
  match p_timestamp p, p_inr p, p_pt_seconds p with
  | Some ts, Some i, Some pt =>
      Boolean ts && truthy i && gt i zero && truthy pt && gt pt zero
  | _, _, _ => false
  end.

Definition reading_of (p : PartialReading) : option INRReading :=
  match p_timestamp p, p_inr p, p_pt_seconds p with
  | Some ts, Some i, Some pt =>
      Some {| id := p_id p; timestamp := ts; inr := i; pt_seconds := pt;
              status := p_status p; notes := None; syncedToHealth := None |}
  | _, _, _ => None
  end.

(** One turn of the loop; the state is the number of groups seen and the
    observations pushed so far. *)
Definition push_if_valid (acc : nat * list INRReading) (svc : string)
  : nat * list INRReading :=
  let (k, observations) := acc in
  let reading := partial_reading k svc in
  (S k,
   if valid reading then
     match reading_of reading with
     | Some r => (observations ++ [r])%list
     | None => observations
     end
   else observations).

Definition parseObservationsXml (xml : string) : list INRReading :=
  snd (fold_left push_if_valid (svc_groups xml) (0, [])).

End Extractor.

(** ** Message processing ([services/bluetooth.ts]) *)

Inductive AckCode : Type := AA | AR.

Inductive Outbound : Type :=
| ACK_R01 (control_id : Z) (type_cd : AckCode)
| REQ_R01 (control_id : Z)
| RAW (bytes : list Z).

Inductive Effect : Type :=
| sendData (m : Outbound)
| onStatusReport (total : Z)
| onProgress (received : nat)
| console_log (text : string).

(** The fields of the service that a sync uses, the [readings] array of
    [syncData], and the trace of effects. *)
Record Sync : Type := {
  dataBuffer : string;
  controlId : Z;
  collected : list INRReading;
  trace : list Effect
}.

Definition sendAck (accept : bool) (s : Sync) : Sync :=
  let ackCode := if accept then AA else AR in
  let n := (controlId s + 1)%Z in
  {| dataBuffer := dataBuffer s; controlId := n; collected := collected s;
     trace := trace s ++ [sendData (ACK_R01 n ackCode)] |}.

Definition sendRequestObservations (s : Sync) : Sync :=
  let n := (controlId s + 1)%Z in
  {| dataBuffer := dataBuffer s; controlId := n; collected := collected s;
     trace := trace s ++ [sendData (REQ_R01 n)] |}.

Definition sendRawBytes (bytes : list Z) (s : Sync) : Sync :=
  {| dataBuffer := dataBuffer s; controlId := controlId s;
     collected := collected s;
     trace := trace s ++ [sendData (RAW bytes)] |}.

Definition consume (endIdx : nat) (text : string) (s : Sync) : Sync :=
  {| dataBuffer := substringFrom (dataBuffer s) endIdx;
     controlId := controlId s; collected := collected s;
     trace := trace s ++ [console_log text] |}.

Section Processing.
Variable parseFloat : string -> number.
Variable freshId : nat -> string.

Definition hello (s : Sync) : Sync :=
  match indexOf (dataBuffer s) "</HEL.R01>" with
  | None => s
  | Some i => sendAck true (consume (i + 10) "Received HEL.R01 (Hello)" s)
  end.

Definition deviceStatus (s : Sync) : Sync :=
  match indexOf (dataBuffer s) "</DST.R01>" with
  | None => s
  | Some i =>
      let endIdx := i + 10 in
      let message := substring (dataBuffer s) 0 endIdx in
      let s := consume endIdx "Received DST.R01 (Device Status)" s in
      let total := match attr_digits "new_observations_qty" message with
                   | Some d => parseInt d
                   | None => 0%Z
                   end in
      let s := {| dataBuffer := dataBuffer s; controlId := controlId s;
                  collected := collected s;
                  trace := trace s ++ [onStatusReport total] |} in
      sendAck true s
  end.

Definition observations (s : Sync) : Sync :=
  match indexOf (dataBuffer s) "</OBS.R01>" with
  | None => s
  | Some i =>
      let endIdx := i + 10 in
      let message := substring (dataBuffer s) 0 endIdx in
      let s := consume endIdx "Received OBS.R01 (Observations)" s in
      let parsed := parseObservationsXml parseFloat freshId message in
      let readings := (collected s ++ parsed)%list in
      let s := {| dataBuffer := dataBuffer s; controlId := controlId s;
                  collected := readings;
                  trace := trace s ++ [onProgress (List.length readings)] |} in
      sendAck false s
  end.

Definition endOfTopic (s : Sync) : Sync :=
  match indexOf (dataBuffer s) "</EOT.R01>" with
  | None => s
  | Some i =>
      sendAck true (consume (i + 10) "Received EOT.R01 (End of Topic)" s)
  end.

Definition processMessages (s : Sync) : Sync :=
  endOfTopic (observations (deviceStatus (hello s))).

(** The notification handler of [syncData]: append the decoded data, then
    one processing pass. *)
Definition handleData (data : string) (s : Sync) : Sync :=
  processMessages
    {| dataBuffer := dataBuffer s ++ data; controlId := controlId s;
       collected := collected s; trace := trace s |}.

(** The notifications of a stretch of time, in order. *)
Definition feed (chunks : list string) (s : Sync) : Sync :=
  fold_left (fun s data => handleData data s) chunks s.

(** The start of [syncData]; [n] is the service's control identifier, which
    starts at 20000 and is kept from one sync to the next. *)
Definition syncStart (n : Z) : Sync :=
  {| dataBuffer := ""; controlId := n; collected := []; trace := [] |}.

(** [syncData] up to the point where it resolves.  The notifications are
    given by the wait during which they arrive: [early] in the first three
    seconds, [after1] and [after2] in the two seconds after each raw
    command, [late] in the last fifteen seconds.  The commands and the
    request are sent only when no reading has arrived in the first wait. *)
Definition syncData (n : Z) (early after1 after2 late : list string) : Sync :=
  let s := feed early (syncStart n) in
  if (List.length (collected s) =? 0)%nat then
    let s := feed after1 (sendRawBytes [1%Z] s) in
    let s := feed after2 (sendRawBytes [82%Z] s) in
    feed late (sendRequestObservations s)
  else feed (after1 ++ after2 ++ late)%list s.

End Processing.

Definition sent (t : list Effect) : list Outbound :=
  flat_map (fun e => match e with sendData m => [m] | _ => [] end) t.

Definition is_request (m : Outbound) : bool :=
  match m with REQ_R01 _ => true | _ => false end.

(** The requests a sync has sent. *)
Definition requests (s : Sync) : list Outbound :=
  filter is_request (sent (trace s)).

(** ** Storage ([services/storage.ts]) *)

Section Storage.
Context {collator : Collator}.

Definition byTimestamp (a b : INRReading) : Z :=
  localeCompare (timestamp a) (timestamp b).

Definition uniqueNew (existing newReadings : list INRReading)
  : list INRReading :=
  filter (fun r => negb (Set_has (map timestamp existing) (timestamp r)))
         newReadings.

(** [data.readings] after [addReadings] merged and sorted. *)
Definition mergedReadings (existing newReadings : list INRReading)
  : list INRReading :=
  sort byTimestamp (existing ++ uniqueNew existing newReadings).

(** [AsyncStorage.setItem] resolves, or rejects and leaves some content. *)
Inductive SetItem : Type :=
| Resolved
| Rejected (left_in_storage : option AppData).

Definition emptyData : AppData :=
  {| readings := []; device := None; lastSync := None;
     settings := DEFAULT_SETTINGS |}.

(** The storage holds JSON text: [Some data] is the storage whose text is
    [JSON.stringify(data)].  JSON writes a number that is [NaN] or an
    infinity as [null] and keeps everything else of the data. *)
Definition JSON_reading (r : INRReading) : INRReading :=
  {| id := id r; timestamp := timestamp r;
     inr := JSON_number (inr r);
     pt_seconds := JSON_number (pt_seconds r);
     status := status r; notes := notes r;
     syncedToHealth := syncedToHealth r |}.

Definition JSON_settings (s : Settings) : Settings :=
  {| targetRangeMin := JSON_number (targetRangeMin s);
     targetRangeMax := JSON_number (targetRangeMax s);
     syncToHealthKit := syncToHealthKit s;
     autoConnect := autoConnect s;
     lastDeviceId := lastDeviceId s |}.

(** [JSON.parse(JSON.stringify(data))]. *)
Definition JSON_data (data : AppData) : AppData :=
  {| readings := map JSON_reading (readings data);
     device := device data; lastSync := lastSync data;
     settings := JSON_settings (settings data) |}.

(** [loadData] returns what [JSON.parse] gives of the stored text; the
    merge of the stored settings over the defaults is the identity on a
    record that has every setting. *)
Definition loadData (storage : option AppData) : AppData :=
  match storage with
  | Some data => JSON_data data
  | None => emptyData
  end.

(** [saveData] stores [JSON.stringify(data)]: the new storage, which holds
    what JSON keeps of the data, and whether an error was logged. *)
Definition saveData (w : SetItem) (data : AppData)
  : option AppData * bool :=
  match w with
  | Resolved => (Some (JSON_data data), false)
  | Rejected left_in_storage => (left_in_storage, true)
  end.

(** [addReadings]: the data returned to the caller, the storage afterwards
    and whether the save logged an error. *)
Definition addReadings (now : string) (w : SetItem)
  (newReadings : list INRReading) (storage : option AppData)
  : AppData * option AppData * bool :=
  let data := loadData storage in
  let data :=
    {| readings := mergedReadings (readings data) newReadings;
       device := device data; lastSync := Some now;
       settings := settings data |} in
  let (storage', logged) := saveData w data in
  (data, storage', logged).

End Storage.

(** ** Statistics of the report ([services/pdf.ts]) and of the dashboard *)

Definition inRange (settings : Settings) (r : INRReading) : bool :=
  ge (inr r) (targetRangeMin settings) && le (inr r) (targetRangeMax settings).

(** [Math.round((count / total) * 100)]. *)
Definition percent (count total : nat) : Z :=
  Math_round
    ((inject_Z (Z.of_nat count) / inject_Z (Z.of_nat total)) * 100)%Q.

(** The value shown as Time in Range in the report: [ttr] of
    [generateReportHTML]. *)
Definition ttr (readings : list INRReading) (settings : Settings) : Z :=
  let inRangeCount := List.length (filter (inRange settings) readings) in
  if (0 <? List.length readings)%nat
  then percent inRangeCount (List.length readings)
  else 0%Z.

(** [avgINR] of [generateReportHTML] before [toFixed(2)]; [None] is the
    text of two dashes shown when no value is available. *)
Definition avgINR (readings : list INRReading) : option number :=
  let inrValues := filter (fun v => gt v zero) (map inr readings) in
  if (0 <? List.length inrValues)%nat
  then Some (div_count (fold_left add inrValues zero)
                       (List.length inrValues))
  else None.

(** [inRangePercent] of [DashboardScreen]. *)
Definition inRangePercent (readings : list INRReading) (settings : Settings)
  : Z :=
  let totalReadings := List.length readings in
  let inRangeCount := List.length (filter (inRange settings) readings) in
  if (0 <? totalReadings)%nat then percent inRangeCount totalReadings else 0%Z.

(** ** Control identifiers of a sync *)

Definition control_id_of (m : Outbound) : option Z :=
  match m with
  | ACK_R01 n _ => Some n
  | REQ_R01 n => Some n
  | RAW _ => None
  end.

(** The control identifiers sent, in order (raw commands carry none). *)
Definition control_ids (t : list Effect) : list Z :=
  flat_map (fun m => match control_id_of m with Some n => [n] | None => [] end)
           (sent t).

(** [s'] is [s] after some steps of a sync: the identifiers they sent
    follow the counter of [s], and the counter moved by their number. *)
Definition continues (s s' : Sync) : Prop :=
  exists ids,
    control_ids (trace s') = (control_ids (trace s) ++ ids)%list
    /\ controlId s' = (controlId s + Z.of_nat (List.length ids))%Z
    /\ ids = map (fun k => (controlId s + Z.of_nat k)%Z)
                 (seq 1 (List.length ids)).

(** An acknowledgment that accepts an observation batch would be the
    [ACK_R01] with [AA] sent by the observations step; [is_reject] tells the
    rejecting ones. *)
Definition is_reject (m : Outbound) : bool :=
  match m with ACK_R01 _ AR => true | _ => false end.

(** The values given to the progress callback, one per observation batch
    processed. *)
Definition progressed (t : list Effect) : list nat :=
  flat_map (fun e => match e with onProgress n => [n] | _ => [] end) t.

(** As many rejecting acknowledgments were sent as batches were
    processed. *)
Definition rejects_every_batch (s : Sync) : Prop :=
  List.length (filter is_reject (sent (trace s)))
  = List.length (progressed (trace s)).

(** A reading as the validity test of the extractor leaves it: the
    timestamp is not empty, the value and the clotting time are above
    zero. *)
Definition extracted (r : INRReading) : Prop :=
  Boolean (timestamp r) = true
  /\ gt (inr r) zero = true
  /\ gt (pt_seconds r) zero = true.

(** ** Import and clearing ([services/storage.ts]) *)

(** [Partial<Settings>]: the settings an object carries. *)
Record PartialSettings : Type := {
  has_targetRangeMin : option number;
  has_targetRangeMax : option number;
  has_syncToHealthKit : option bool;
  has_autoConnect : option bool;
  has_lastDeviceId : option string
}.

Definition or_else {A : Type} (o : option A) (d : A) : A :=
  match o with Some a => a | None => d end.

(** The object spread of [base] and then [over]. *)
Definition spread (base : Settings) (over : PartialSettings) : Settings :=
  {| targetRangeMin := or_else (has_targetRangeMin over) (targetRangeMin base);
     targetRangeMax := or_else (has_targetRangeMax over) (targetRangeMax base);
     syncToHealthKit :=
       or_else (has_syncToHealthKit over) (syncToHealthKit base);
     autoConnect := or_else (has_autoConnect over) (autoConnect base);
     lastDeviceId :=
       match has_lastDeviceId over with
       | Some d => Some d
       | None => lastDeviceId base
       end |}.

(** What [JSON.parse(json)] gives [importData]: it throws (as does reading
    a property of what it returns when that is [null]), or it is a value
    whose [readings] is an array ([Some]) or not, with the settings it
    carries (none when it has no [settings]). *)
Record Imported : Type := {
  imported_readings : option (list INRReading);
  imported_settings : PartialSettings
}.

Inductive Json : Type :=
| Malformed (message : string)
| Value (imported : Imported).

(** The outcome of an asynchronous storage function: the promise is
    rejected with an error, or resolved. *)
Inductive Outcome (A : Type) : Type :=
| Throws (message : string)
| Returns (a : A).
Arguments Throws {A} message.
Arguments Returns {A} a.

Section MoreStorage.
Context {collator : Collator}.

(** [importData]: the data returned and the storage afterwards. *)
Definition importData (json : Json) (w : SetItem)
  (storage : option AppData) : Outcome AppData * option AppData :=
  match json with
  | Malformed message => (Throws message, storage)
  | Value imported =>
      match imported_readings imported with
      | None => (Throws "Invalid data format", storage)
      | Some readings' =>
          let data := loadData storage in
          let data :=
            {| readings := mergedReadings (readings data) readings';
               device := device data; lastSync := lastSync data;
               settings := spread (settings data)
                                  (imported_settings imported) |} in
          (Returns data, fst (saveData w data))
      end
  end.

(** [clearReadings]: the storage afterwards. *)
Definition clearReadings (w : SetItem) (storage : option AppData)
  : option AppData :=
  let data := loadData storage in
  fst (saveData w {| readings := []; device := device data;
                     lastSync := None; settings := settings data |}).

(** [updateSettings]: the settings returned and the storage afterwards. *)
Definition updateSettings (over : PartialSettings) (w : SetItem)
  (storage : option AppData) : Settings * option AppData :=
  let data := loadData storage in
  let data :=
    {| readings := readings data; device := device data;
       lastSync := lastSync data; settings := spread (settings data) over |} in
  (settings data, fst (saveData w data)).

(** The rows of the report: [sortedReadings], newest first. *)
Definition newestFirst (a b : INRReading) : Z :=
  localeCompare (timestamp b) (timestamp a).

Definition sortedReadings (readings : list INRReading) : list INRReading :=
  sort newestFirst readings.

End MoreStorage.

(** ** Saving the target range ([handleSaveRange] of the settings screen) *)

(** [{ targetRangeMin: min, targetRangeMax: max }]. *)
Definition range_only (min max : number) : PartialSettings :=
  {| has_targetRangeMin := Some min; has_targetRangeMax := Some max;
     has_syncToHealthKit := None; has_autoConnect := None;
     has_lastDeviceId := None |}.

(** [tempMin] and [tempMax] are the texts typed, [prev] the settings the
    screen holds.  The result is the settings the screen holds afterwards
    ([None]: the alert was shown and the editor stays open) and the
    storage. *)
Definition handleSaveRange (parseFloat : string -> number)
  (tempMin tempMax : string) (w : SetItem) (prev : Settings)
  (storage : option AppData) : option Settings * option AppData :=
  let min := parseFloat tempMin in
  let max := parseFloat tempMax in
  if isNaN min || isNaN max || le min zero || le max zero || ge min max
  then (None, storage)
  else
    let (_, storage') := updateSettings (range_only min max) w storage in
    (Some (spread prev (range_only min max)), storage').

(** ** Scanning for devices ([scanForDevices]) *)

Definition DEVICE_NAME_PATTERNS : list string :=
  ["Coag"; "PT2"; "PT-2"; "CoagSense"; "Coag-Sense"; "INR"].

(** [DEVICE_NAME_PATTERNS.some(pattern =>
    name.toLowerCase().includes(pattern.toLowerCase()))]. *)
Definition nameMatches (name : string) : bool :=
  existsb (fun pattern => includes (toLowerCase name) (toLowerCase pattern))
          DEVICE_NAME_PATTERNS.

(** What the scan callback receives: an error, or a device with its
    identifier and its name if it has one. *)
Inductive ScanEvent : Type :=
| scan_error (message : string)
| scan_device (device_id : string) (name : option string).

(** The scan over the callbacks that arrive before the timeout: the devices
    handed to [onDeviceFound], in order, and the error that rejected the
    scan if one arrived ([None]: the timeout resolved it).  [found] is the
    set of identifiers already reported. *)
Fixpoint scanFrom (found : list string) (events : list ScanEvent)
  : list (string * string) * option string :=
  match events with
  | [] => ([], None)
  | scan_error message :: _ => ([], Some message)
  | scan_device i name :: rest =>
      match name with
      | Some n =>
          if Boolean n && negb (Set_has found i) && nameMatches n
          then let (reported, err) := scanFrom (i :: found) rest in
               ((i, n) :: reported, err)
          else scanFrom found rest
      | None => scanFrom found rest
      end
  end.

Definition scanForDevices (events : list ScanEvent)
  : list (string * string) * option string :=
  scanFrom [] events.

(** ** Colours of a reading *)

(** [getColor] of the report. *)
Definition getColor (settings : Settings) (inr : number) : string :=
  if ge inr (targetRangeMin settings) && le inr (targetRangeMax settings)
  then "#22c55e"
  else if below inr (sub (targetRangeMin settings) (Num (3 # 10)))
          || gt inr (add (targetRangeMax settings) (Num (3 # 10)))
       then "#ef4444"
       else "#f59e0b".

(** [getINRColor] of the dashboard. *)
Definition getINRColor (settings : Settings) (inr : number) : string :=
  if ge inr (targetRangeMin settings) && le inr (targetRangeMax settings)
  then "#4ade80"
  else if ge inr (sub (targetRangeMin settings) (Num (3 # 10)))
          && le inr (add (targetRangeMax settings) (Num (3 # 10)))
       then "#fbbf24"
       else "#f87171".

(** The colour each value stands for, as the comments beside the values
    name them. *)
Inductive Colour : Type := green | yellow | red.

Definition reportColour (hex : string) : option Colour :=
  if String.eqb hex "#22c55e" then Some green
  else if String.eqb hex "#f59e0b" then Some yellow
  else if String.eqb hex "#ef4444" then Some red
  else None.

Definition dashboardColour (hex : string) : option Colour :=
  if String.eqb hex "#4ade80" then Some green
  else if String.eqb hex "#fbbf24" then Some yellow
  else if String.eqb hex "#f87171" then Some red
  else None.

(** [latestReading] of the dashboard: [readings[readings.length - 1]]. *)
Definition latestReading (readings : list INRReading) : option INRReading :=
  nth_error readings (List.length readings - 1).

End Mobile.

(* ================================================================== *)
(** * The specification's range estimator *)
(* ================================================================== *)

(** Time in Therapeutic Range after the words of the specification
    (section 4.5, the Rosendaal method), over exact rationals: the readings
    are (time, value) pairs in chronological order.  It is the value the
    statistics of the code are compared with. *)
Module Rosendaal.

(** The share of an interval whose linearly interpolated value lies in
    [[lo, hi]], for the values [v1] and [v2] at its two ends. *)
Definition in_range_share (lo hi v1 v2 : Q) : Q :=
  if Qeq_bool v1 v2 then
    (if Qle_bool lo v1 && Qle_bool v1 hi then 1 else 0)%Q
  else
    let a := Qmin v1 v2 in
    let b := Qmax v1 v2 in
    let l := Qmax a lo in
    let h := Qmin b hi in
    if Qle_bool l h then ((h - l) / (b - a))%Q else 0%Q.

Fixpoint in_range_time (lo hi : Q) (l : list (Q * Q)) : Q :=
  match l with
  | (t1, v1) :: (((t2, v2) :: _) as rest) =>
      ((t2 - t1) * in_range_share lo hi v1 v2 + in_range_time lo hi rest)%Q
  | _ => 0%Q
  end.

Fixpoint observed_time (l : list (Q * Q)) : Q :=
  match l with
  | (t1, _) :: (((t2, _) :: _) as rest) => ((t2 - t1) + observed_time rest)%Q
  | _ => 0%Q
  end.

(** The metric; [None] is unavailable (fewer than two readings, or no time
    observed). *)
Definition ttr (lo hi : Q) (l : list (Q * Q)) : option Q :=
  match l with
  | [] | [_] => None
  | _ =>
      if Qeq_bool (observed_time l) 0 then None
      else Some (in_range_time lo hi l / observed_time l * 100)%Q
  end.

End Rosendaal.

(* ================================================================== *)
(** * The specification's acceptance conditions *)
(* ================================================================== *)

(** The observation groups of the specification (section 4.3) and the three
    conditions under which it accepts one.  Nothing here refers to the code:
    a group is the data the specification names, and the conditions are
    stated on that data. *)
Module Acceptance.
Import JS.

(** An observation group: its timestamp attribute, its status attribute, the
    value given for the primary assay (code 34714-6) and the value given for
    the secondary duration (code 5902-2).  Each may be missing. *)
Record Group : Type := {
  timestamp_attribute : option string;
  status_attribute : option string;
  primary_value : option string;
  secondary_value : option string
}.

(** A number strictly greater than zero. *)
Definition positive (x : number) : Prop :=
  match x with
  | Num q => (0 < q)%Q
  | Infinity negative => negative = false
  | NaN | null => False
  end.






End Acceptance.

(* ================================================================== *)
(** * Concrete messages and readings *)
(* ================================================================== *)

(** The inputs at which the development evaluates the code. *)
Module Fixtures.
Import JS.

(** An element [NAME V=...] with its value between double quotes. *)
Definition element (name v : string) : string :=
  "<" ++ name ++ " V=" ++ quoted v ++ "/>".

(** An observation group with a timestamp, a status and the two values. *)
Definition group (dttm inr pt : string) : string :=
  "<SVC>" ++ element "SVC.observation_dttm" dttm
          ++ element "SVC.status_cd" "NRM"
          ++ "<OBS>" ++ element "OBS.observation_id" "34714-6"
                     ++ element "OBS.value" inr ++ "</OBS>"
          ++ "<OBS>" ++ element "OBS.observation_id" "5902-2"
                     ++ element "OBS.value" pt ++ "</OBS>"
          ++ "</SVC>".

(** A group without the primary value. *)
Definition group_without_inr (dttm pt : string) : string :=
  "<SVC>" ++ element "SVC.observation_dttm" dttm
          ++ "<OBS>" ++ element "OBS.observation_id" "5902-2"
                     ++ element "OBS.value" pt ++ "</OBS>"
          ++ "</SVC>".

Definition HEL (serial model : string) : string :=
  "<HEL.R01><DEV>" ++ element "DEV.serial_id" serial
                   ++ element "DEV.model_id" model ++ "</DEV></HEL.R01>".

Definition DST (qty : string) : string :=
  "<DST.R01><DST>" ++ element "DST.new_observations_qty" qty
                   ++ "</DST></DST.R01>".

Definition OBS (groups : string) : string :=
  "<OBS.R01>" ++ groups ++ "</OBS.R01>".

Definition EOT : string := "<EOT.R01></EOT.R01>".

Definition jan1 : string := "2026-01-01T08:00:00".
Definition jan2 : string := "2026-01-02T08:00:00".
Definition jan3 : string := "2026-01-03T08:00:00".

Definition batchA : string := Eval cbv in OBS (group jan1 "2.5" "30").
Definition batchB : string := Eval cbv in OBS (group jan2 "2.8" "33").

(** A batch of two valid groups and a malformed one. *)
Definition batchMixed : string :=
  Eval cbv in
    OBS (group jan2 "2.8" "33" ++ group_without_inr jan3 "31"
           ++ group jan1 "2.5" "30").

Definition reading (dttm : string) (inr : Q) : Electron.Reading :=
  {| Electron.timestamp := dttm; Electron.sequence := None;
     Electron.status := Some "NRM"; Electron.inr := Num inr;
     Electron.pt_seconds := Num 30 |}.

Definition mobileReading (dttm : string) (inr : Q) : Mobile.INRReading :=
  {| Mobile.id := "reading_" ++ dttm; Mobile.timestamp := dttm;
     Mobile.inr := Num inr; Mobile.pt_seconds := Num 30;
     Mobile.status := Mobile.NRM; Mobile.notes := None;
     Mobile.syncedToHealth := None |}.

End Fixtures.

(* ================================================================== *)
(** * Observation batches on the wire *)
(* ================================================================== *)

(** The text in which a device sends the groups of the specification: each
    group between its tags, each attribute and each coded value an element
    with the value between double quotes, a missing one left out. *)
Module Wire.
Import JS Acceptance.

Definition attribute (name : string) (value : option string) : string :=
  match value with
  | Some v => Fixtures.element name v
  | None => ""
  end.

Definition observation (code : string) (value : option string) : string :=
  match value with
  | Some v =>
      "<OBS>" ++ Fixtures.element "OBS.observation_id" code
              ++ Fixtures.element "OBS.value" v ++ "</OBS>"
  | None => ""
  end.

(** The text between the tags of a group. *)
Definition body (g : Group) : string :=
  attribute "SVC.observation_dttm" (timestamp_attribute g)
  ++ attribute "SVC.status_cd" (status_attribute g)
  ++ observation "34714-6" (primary_value g)
  ++ observation "5902-2" (secondary_value g).

Definition group (g : Group) : string := "<SVC>" ++ body g ++ "</SVC>".

Definition groups (gs : list Group) : string :=
  fold_right (fun g rest => group g ++ rest) "" gs.


(** Every character of [s] satisfies [p]. *)
Fixpoint all (p : ascii -> bool) (s : string) : bool :=
  match s with
  | "" => true
  | String c s' => p c && all p s'
  end.









(** ** Where a pattern cannot match *)




End Wire.

(* ================================================================== *)
(** * Facts about the platform model *)
(* ================================================================== *)

Import JS Regex CodeUnitOrder.

Lemma Set_has_In (l : list string) (x : string) :
  Set_has l x = true <-> In x l.
Proof.
  unfold Set_has. rewrite existsb_exists. split.
  - intros (y & Hy & E). apply String.eqb_eq in E. now subst.
  - intros H. exists x. split; [assumption | apply String.eqb_refl].
Qed.

Section SortFacts.
Context {A : Type} (compareFn : A -> A -> Z).
Hypothesis compareFn_total :
  forall a b, (0 < compareFn a b)%Z -> (compareFn b a <= 0)%Z.

Lemma insert_perm (x : A) (l : list A) :
  Permutation (insert compareFn x l) (x :: l).
Proof.
  induction l as [|y l IH]; simpl.
  - apply Permutation_refl.
  - destruct (compareFn x y <=? 0)%Z.
    + apply Permutation_refl.
    + eapply perm_trans; [apply perm_skip, IH | apply perm_swap].
Qed.

Lemma sort_perm (l : list A) : Permutation (sort compareFn l) l.
Proof.
  induction l as [|x l IH]; simpl.
  - constructor.
  - eapply perm_trans; [apply insert_perm | now apply perm_skip].
Qed.

Lemma insert_hd (x a : A) (l : list A) :
  ascending compareFn a x ->
  HdRel (ascending compareFn) a l ->
  HdRel (ascending compareFn) a (insert compareFn x l).
Proof.
  intros Hax Hal. destruct l as [|y l]; simpl.
  - now constructor.
  - destruct (compareFn x y <=? 0)%Z; constructor; trivial.
    now inversion Hal.
Qed.

Lemma insert_sorted (x : A) (l : list A) :
  Sorted (ascending compareFn) l ->
  Sorted (ascending compareFn) (insert compareFn x l).
Proof.
  induction 1 as [|y l Hl IH Hy]; simpl.
  - repeat constructor.
  - destruct (compareFn x y <=? 0)%Z eqn:E.
    + constructor; [now constructor|].
      constructor. unfold ascending. now apply Z.leb_le.
    + constructor; [assumption|].
      apply insert_hd; [|assumption].
      apply compareFn_total. apply Z.leb_gt in E. lia.
Qed.

Lemma sort_sorted (l : list A) :
  Sorted (ascending compareFn) (sort compareFn l).
Proof.
  induction l as [|x l IH]; simpl.
  - constructor.
  - now apply insert_sorted.
Qed.

(** Sorting an array that is in order leaves it as it is. *)
Lemma sort_of_sorted (l : list A) :
  Sorted (ascending compareFn) l -> sort compareFn l = l.
Proof.
  induction 1 as [|x l Hl IH Hx]; simpl; [reflexivity|].
  rewrite IH. destruct Hx as [|y l' Hxy]; simpl; [reflexivity|].
  unfold ascending in Hxy. apply Z.leb_le in Hxy. now rewrite Hxy.
Qed.

End SortFacts.

(** A collation orders any two strings one way or the other. *)
Lemma localeCompare_total {collator : Collator} (a b : string) :
  (0 < localeCompare a b)%Z -> (localeCompare b a <= 0)%Z.
Proof.
  intros H. pose proof (localeCompare_antisym a b) as E.
  rewrite (Z.sgn_pos _ H) in E.
  destruct (localeCompare b a); simpl in E; lia.
Qed.

(* ================================================================== *)
(** * Reconciliation store *)
(* ================================================================== *)

Section ReconciliationFacts.
Context {collator : Collator}.
Import Electron.

Lemma timestamp_set_sequence (n : Z) (r : Reading) :
  timestamp (set_sequence n r) = timestamp r.
Proof. reflexivity. Qed.

Lemma renumber_from_timestamps (k : nat) (l : list Reading) :
  map timestamp (renumber_from k l) = map timestamp l.
Proof.
  revert k; induction l as [|r l IH]; intros k; simpl; [reflexivity|].
  now rewrite IH.
Qed.

Lemma renumber_from_length (k : nat) (l : list Reading) :
  List.length (renumber_from k l) = List.length l.
Proof.
  revert k; induction l as [|r l IH]; intros k; simpl; [reflexivity|].
  now rewrite IH.
Qed.

Lemma renumber_from_idem (k : nat) (l : list Reading) :
  renumber_from k (renumber_from k l) = renumber_from k l.
Proof.
  revert k; induction l as [|r l IH]; intros k; simpl; [reflexivity|].
  now rewrite IH.
Qed.

Lemma renumber_from_sequence (k : nat) (l : list Reading) :
  map sequence (renumber_from k l)
  = map (fun i => Some (Z.of_nat i)) (seq (S k) (List.length l)).
Proof.
  revert k; induction l as [|r l IH]; intros k; simpl; [reflexivity|].
  rewrite IH. f_equal. f_equal. lia.
Qed.

Lemma renumber_from_In (k : nat) (l : list Reading) (r : Reading) :
  In r l -> exists n, In (set_sequence n r) (renumber_from k l).
Proof.
  revert k; induction l as [|x l IH]; intros k; simpl; [tauto|].
  intros [->|H].
  - eexists. left. reflexivity.
  - destruct (IH (S k) H) as (n & Hn). exists n. now right.
Qed.

Lemma renumber_from_hd (k : nat) (a : Reading) (n : Z) (l : list Reading) :
  HdRel (ascending byTimestamp) a l ->
  HdRel (ascending byTimestamp) (set_sequence n a) (renumber_from k l).
Proof.
  intros [|b l' Hab]; simpl; constructor. exact Hab.
Qed.

Lemma renumber_from_sorted (k : nat) (l : list Reading) :
  Sorted (ascending byTimestamp) l ->
  Sorted (ascending byTimestamp) (renumber_from k l).
Proof.
  intros H; revert k. induction H as [|a l Hl IH Ha]; intros k; simpl.
  - constructor.
  - constructor; [apply IH | now apply renumber_from_hd].
Qed.

Lemma byTimestamp_total (a b : Reading) :
  (0 < byTimestamp a b)%Z -> (byTimestamp b a <= 0)%Z.
Proof. apply localeCompare_total. Qed.

Lemma byTimestamp_trans :
  Relations_1.Transitive (ascending byTimestamp).
Proof.
  intros a b c. unfold ascending, byTimestamp. apply localeCompare_trans.
Qed.

Lemma allReadings_sorted (R C : list Reading) :
  Sorted (ascending byTimestamp) (allReadings R C).
Proof.
  apply renumber_from_sorted, sort_sorted, byTimestamp_total.
Qed.

Lemma allReadings_timestamps (R C : list Reading) :
  Permutation (map timestamp (allReadings R C))
              (map timestamp (R ++ uniqueNew R C)).
Proof.
  unfold allReadings, renumber. rewrite renumber_from_timestamps.
  apply Permutation_map, sort_perm.
Qed.

Lemma existingTimestamps_In (l : list Reading) (ts : string) :
  In ts (existingTimestamps l) <->
  Boolean ts = true /\ In ts (map timestamp l).
Proof.
  unfold existingTimestamps. rewrite filter_In. tauto.
Qed.

(** A candidate with a truthy timestamp is known to the store once the
    candidates were merged. *)
Lemma merged_knows_candidate (R C : list Reading) (r : Reading) :
  In r C -> Boolean (timestamp r) = true ->
  Set_has (existingTimestamps (allReadings R C)) (timestamp r) = true.
Proof.
  intros Hr Hb. apply Set_has_In, existingTimestamps_In. split; [exact Hb|].
  apply (Permutation_in _ (Permutation_sym (allReadings_timestamps R C))).
  rewrite map_app, in_app_iff.
  destruct (Set_has (existingTimestamps R) (timestamp r)) eqn:E.
  - left. apply Set_has_In, existingTimestamps_In in E. tauto.
  - right. apply in_map. unfold uniqueNew. apply filter_In.
    split; [exact Hr|]. now rewrite E.
Qed.

Lemma filter_none {X : Type} (f : X -> bool) (l : list X) :
  (forall x, In x l -> f x = false) -> filter f l = [].
Proof.
  induction l as [|x l IH]; simpl; intros H; [reflexivity|].
  rewrite (H x (or_introl eq_refl)). apply IH. intros y Hy. apply H. now right.
Qed.

Lemma allReadings_idem (R C : list Reading) :
  Forall (fun r => Boolean (timestamp r) = true) C ->
  allReadings (allReadings R C) C = allReadings R C.
Proof.
  intros HC. rewrite Forall_forall in HC.
  assert (E : uniqueNew (allReadings R C) C = []).
  { apply filter_none. intros r Hr.
    now rewrite (merged_knows_candidate R C r Hr (HC r Hr)). }
  unfold allReadings at 1. rewrite E, app_nil_r.
  rewrite (sort_of_sorted _ _ (allReadings_sorted R C)).
  unfold allReadings, renumber. apply renumber_from_idem.
Qed.

(** Every reading that the extractor returns has a truthy timestamp. *)
Lemma push_if_valid_truthy (parseFloat : string -> number)
  (acc : list Reading) (svc : string) :
  Forall (fun r => Boolean (timestamp r) = true) acc ->
  Forall (fun r => Boolean (timestamp r) = true)
         (push_if_valid parseFloat acc svc).
Proof.
  intros H. unfold push_if_valid.
  destruct (valid (observation parseFloat svc)) eqn:V; [|exact H].
  unfold valid, reading_of in *.
  destruct (obs_timestamp _) as [ts|]; [|exact H].
  destruct (obs_inr _) as [i|]; [|exact H].
  destruct (obs_pt_seconds _) as [pt|]; [|exact H].
  apply Forall_app. split; [exact H|]. constructor; [|constructor].
  simpl. repeat (apply andb_prop in V; destruct V as [V ?]). exact V.
Qed.

Lemma parseObservationsXml_truthy (parseFloat : string -> number)
  (xml : string) :
  Forall (fun r => Boolean (timestamp r) = true)
         (parseObservationsXml parseFloat xml).
Proof.
  unfold parseObservationsXml.
  assert (G : forall groups acc,
             Forall (fun r => Boolean (timestamp r) = true) acc ->
             Forall (fun r => Boolean (timestamp r) = true)
                    (fold_left (push_if_valid parseFloat) groups acc)).
  { induction groups as [|svc groups IH]; intros acc H; simpl; [exact H|].
    apply IH. now apply push_if_valid_truthy. }
  apply G. constructor.
Qed.

Lemma parsedReadings_truthy (parseFloat : string -> number)
  (raw : list string) :
  Forall (fun r => Boolean (timestamp r) = true)
         (parsedReadings parseFloat raw).
Proof.
  unfold parsedReadings. induction raw as [|xml raw IH]; simpl.
  - constructor.
  - apply Forall_app. split; [apply parseObservationsXml_truthy | exact IH].
Qed.

(** The mobile merge. *)

Lemma mobile_byTimestamp_total (a b : Mobile.INRReading) :
  (0 < Mobile.byTimestamp a b)%Z -> (Mobile.byTimestamp b a <= 0)%Z.
Proof. apply localeCompare_total. Qed.

Lemma mergedReadings_idem (R C : list Mobile.INRReading) :
  Mobile.mergedReadings (Mobile.mergedReadings R C) C
  = Mobile.mergedReadings R C.
Proof.
  assert (E : Mobile.uniqueNew (Mobile.mergedReadings R C) C = []).
  { apply filter_none. intros r Hr.
    assert (K : In (Mobile.timestamp r)
                   (map Mobile.timestamp (Mobile.mergedReadings R C))).
    { unfold Mobile.mergedReadings.
      apply (Permutation_in _
               (Permutation_map _ (Permutation_sym (sort_perm _ _)))).
      rewrite map_app, in_app_iff.
      destruct (Set_has (map Mobile.timestamp R) (Mobile.timestamp r)) eqn:E.
      - left. now apply Set_has_In.
      - right. apply in_map. unfold Mobile.uniqueNew. apply filter_In.
        split; [exact Hr|]. now rewrite E. }
    apply Set_has_In in K. now rewrite K. }
  unfold Mobile.mergedReadings at 1. rewrite E, app_nil_r.
  apply sort_of_sorted. unfold Mobile.mergedReadings.
  apply sort_sorted, mobile_byTimestamp_total.
Qed.

(** What JSON keeps: a second round trip changes nothing, and the readings
    read from the data file are as JSON leaves them. *)
Lemma JSON_number_idem (x : number) :
  JSON_number (JSON_number x) = JSON_number x.
Proof. now destruct x. Qed.

Lemma JSON_reading_idem (r : Electron.Reading) :
  Electron.JSON_reading (Electron.JSON_reading r) = Electron.JSON_reading r.
Proof.
  unfold Electron.JSON_reading. cbn [Electron.timestamp Electron.sequence
    Electron.status Electron.inr Electron.pt_seconds].
  now rewrite !JSON_number_idem.
Qed.

Lemma JSON_set_sequence (n : Z) (r : Electron.Reading) :
  Electron.JSON_reading (Electron.set_sequence n r)
  = Electron.set_sequence n (Electron.JSON_reading r).
Proof. reflexivity. Qed.

Lemma JSON_data_idem (data : Electron.Data) :
  Electron.JSON_data (Electron.JSON_data data) = Electron.JSON_data data.
Proof.
  unfold Electron.JSON_data. cbn [Electron.device Electron.lastSync
    Electron.totalReadings Electron.readings].
  f_equal. destruct (Electron.readings data) as [l|]; [|reflexivity].
  cbn [option_map]. f_equal. rewrite map_map. apply map_ext.
  apply JSON_reading_idem.
Qed.

Lemma stored_readings_JSON (file : Electron.DataFile) (r : Electron.Reading) :
  In r (Electron.stored_readings file) -> Electron.JSON_reading r = r.
Proof.
  unfold Electron.stored_readings.
  destruct file as [| |data]; cbn [Electron.loadData fst Electron.readings
    Electron.noData Electron.JSON_data]; try contradiction.
  destruct (Electron.readings data) as [l|]; cbn [option_map];
    [|contradiction].
  intros I. apply in_map_iff in I as (x & <- & _). apply JSON_reading_idem.
Qed.

Lemma stored_readings_written (data : Electron.Data) :
  Electron.stored_readings (fst (Electron.saveData Electron.Written data))
  = match Electron.readings data with
    | Some l => map Electron.JSON_reading l
    | None => []
    end.
Proof.
  unfold Electron.stored_readings. cbn [Electron.saveData Electron.loadData fst].
  rewrite JSON_data_idem. cbn [Electron.JSON_data Electron.readings].
  now destruct (Electron.readings data).
Qed.

(** The readings in the data file after a finalization whose write
    succeeds. *)
Lemma finalizeTransfer_stored (parseFloat : string -> number) (now : string)
  (info : option Electron.DeviceInfo) (raw : list string)
  (file : Electron.DataFile) :
  Electron.stored_readings
    (fst (Electron.finalizeTransfer parseFloat now Electron.Written info raw
            file))
  = map Electron.JSON_reading
      (Electron.allReadings (Electron.stored_readings file)
         (Electron.parsedReadings parseFloat raw)).
Proof.
  unfold Electron.finalizeTransfer.
  destruct (Electron.loadData file) as (existingData, loaded) eqn:L.
  assert (S : Electron.readings_or_empty existingData
              = Electron.stored_readings file).
  { unfold Electron.stored_readings. now rewrite L. }
  rewrite S.
  match goal with
  | |- context [Electron.saveData Electron.Written ?d] =>
      pose proof (stored_readings_written d) as W;
      destruct (Electron.saveData Electron.Written d) as (file', saved)
  end.
  cbn [fst] in *. exact W.
Qed.

End ReconciliationFacts.

(** C3.  Merging the same candidates a second time changes nothing: after a
    merge every candidate's timestamp is in the store, so the second merge
    finds no new reading ([uniqueNew] is empty) and the sorted, renumbered
    array is the one of the first merge.  It holds for the Electron merge on
    the candidates that a session produces (the readings parsed from its raw
    observation messages), on every candidate list whose timestamps are
    truthy, and for the mobile merge on every candidate list. *)
Theorem C3_merge_idempotent {collator : Collator} :
  (forall (parseFloat : string -> number) (R : list Electron.Reading)
          (rawObservations : list string),
      let C := Electron.parsedReadings parseFloat rawObservations in
      Electron.uniqueNew (Electron.allReadings R C) C = []
      /\ Electron.allReadings (Electron.allReadings R C) C
         = Electron.allReadings R C)
  /\ (forall (R C : list Electron.Reading),
         Forall (fun r => Boolean (Electron.timestamp r) = true) C ->
         Electron.allReadings (Electron.allReadings R C) C
         = Electron.allReadings R C)
  /\ (forall (R C : list Mobile.INRReading),
         Mobile.mergedReadings (Mobile.mergedReadings R C) C
         = Mobile.mergedReadings R C).
Proof.
  split; [|split].
  - intros parseFloat R raw C.
    pose proof (parsedReadings_truthy parseFloat raw) as T. fold C in T.
    split; [|now apply allReadings_idem].
    apply filter_none. intros r Hr. rewrite Forall_forall in T.
    now rewrite (merged_knows_candidate R C r Hr (T r Hr)).
  - intros R C. apply allReadings_idem.
  - intros R C. apply mergedReadings_idem.
Qed.

Lemma C3_merge_idempotent_witness :
  let R := [Fixtures.reading Fixtures.jan2 2.5] in
  let C := [Fixtures.reading Fixtures.jan1 3; Fixtures.reading Fixtures.jan2 2.5] in
  Forall (fun r => Boolean (Electron.timestamp r) = true) C
  /\ Electron.allReadings (Electron.allReadings R C) C
     = Electron.allReadings R C.
Proof.
  intros R C.
  assert (H : Forall (fun r => Boolean (Electron.timestamp r) = true) C)
    by (repeat constructor).
  split; [exact H|].
  exact (proj1 (proj2 (C3_merge_idempotent (collator := codeUnitCollator)))
               R C H).
Defined.

(** C4.  The merge keeps every stored reading.  The Electron merge renumbers
    the array, so a stored reading [r] is found in the result with its
    [sequence] property set again and every other property as it was; this
    holds for the merged array and for the data file that a successful
    [finalizeTransfer] writes.  The mobile merge keeps [r] itself. *)
Theorem C4_merge_preserves_existing {collator : Collator} :
  (forall (R C : list Electron.Reading) (r : Electron.Reading),
      In r R ->
      exists n, In (Electron.set_sequence n r) (Electron.allReadings R C))
  /\ (forall (parseFloat : string -> number) (now : string)
             (info : option Electron.DeviceInfo)
             (rawObservations : list string) (file : Electron.DataFile)
             (r : Electron.Reading),
         In r (Electron.stored_readings file) ->
         exists n,
           In (Electron.set_sequence n r)
              (Electron.stored_readings
                 (fst (Electron.finalizeTransfer parseFloat now
                         Electron.Written info rawObservations file))))
  /\ (forall (R C : list Mobile.INRReading) (r : Mobile.INRReading),
         In r R -> In r (Mobile.mergedReadings R C)).
Proof.
  assert (E : forall (R C : list Electron.Reading) (r : Electron.Reading),
             In r R ->
             exists n,
               In (Electron.set_sequence n r) (Electron.allReadings R C)).
  { intros R C r Hr. unfold Electron.allReadings, Electron.renumber.
    apply renumber_from_In.
    apply (Permutation_in _ (Permutation_sym (sort_perm _ _))).
    apply in_or_app. now left. }
  split; [exact E|split].
  - intros parseFloat now info raw file r Hr.
    rewrite finalizeTransfer_stored.
    destruct (E (Electron.stored_readings file)
                (Electron.parsedReadings parseFloat raw) r Hr) as (n & I).
    exists n. apply (in_map Electron.JSON_reading) in I.
    now rewrite JSON_set_sequence, (stored_readings_JSON file r Hr) in I.
  - intros R C r Hr. unfold Mobile.mergedReadings.
    apply (Permutation_in _ (Permutation_sym (sort_perm _ _))).
    apply in_or_app. now left.
Qed.

Lemma C4_merge_preserves_existing_witness :
  let r := Fixtures.reading Fixtures.jan2 2.5 in
  let R := [r] in
  let C := [Fixtures.reading Fixtures.jan1 3] in
  In r R
  /\ exists n, In (Electron.set_sequence n r) (Electron.allReadings R C).
Proof.
  intros r R C.
  assert (H : In r R) by (left; reflexivity).
  split; [exact H|].
  exact (proj1 (C4_merge_preserves_existing (collator := codeUnitCollator))
               R C r H).
Defined.

(** C5.  After a merge the [sequence] properties of the readings are
    1, 2, ..., N in the order of the array, N being its length (the stored
    readings plus the new ones), and the array is in ascending timestamp
    order: the reading at rank k carries sequence number k. *)
Theorem C5_sequence_numbers {collator : Collator}
  (R C : list Electron.Reading) :
  let M := Electron.allReadings R C in
  map Electron.sequence M
  = map (fun k => Some (Z.of_nat k)) (seq 1 (List.length M))
  /\ (forall k r, nth_error M k = Some r ->
                  Electron.sequence r = Some (Z.of_nat (S k)))
  /\ StronglySorted (ascending Electron.byTimestamp) M
  /\ List.length M = List.length R + List.length (Electron.uniqueNew R C).
Proof.
  intros M.
  assert (S1 : map Electron.sequence M
               = map (fun k => Some (Z.of_nat k)) (seq 1 (List.length M))).
  { unfold M, Electron.allReadings, Electron.renumber.
    rewrite renumber_from_sequence, renumber_from_length. reflexivity. }
  split; [exact S1|split; [|split]].
  - intros k r Hk.
    pose proof (map_nth_error Electron.sequence _ _ Hk) as Hs.
    rewrite S1 in Hs.
    assert (Hlt : k < List.length M) by (apply nth_error_Some; congruence).
    rewrite (map_nth_error (fun k => Some (Z.of_nat k)) k (seq 1 (List.length M))
               (d := S k)) in Hs.
    + congruence.
    + rewrite nth_error_nth' with (d := 0) by (now rewrite length_seq).
      now rewrite seq_nth.
  - apply Sorted_StronglySorted; [apply byTimestamp_trans|].
    apply allReadings_sorted.
  - unfold M, Electron.allReadings, Electron.renumber.
    rewrite renumber_from_length.
    rewrite (Permutation_length (sort_perm _ _)). apply length_app.
Qed.

Lemma C5_sequence_numbers_witness :
  let R := [Fixtures.reading Fixtures.jan2 2.5] in
  let C := [Fixtures.reading Fixtures.jan1 3] in
  let first := Electron.set_sequence 1 (Fixtures.reading Fixtures.jan1 3) in
  nth_error (Electron.allReadings R C) 0 = Some first
  /\ Electron.sequence first = Some 1%Z.
Proof.
  intros R C first.
  assert (H : nth_error (Electron.allReadings R C) 0 = Some first)
    by reflexivity.
  split; [exact H|].
  exact (proj1 (proj2 (C5_sequence_numbers (collator := codeUnitCollator)
                         R C))
               0 first H).
Defined.

(* ================================================================== *)
(** * Observation extractor *)
(* ================================================================== *)

Section ExtractorFacts.
Import Acceptance.
Variable parseFloat : string -> number.

Lemma first_match_Some {A : Type} (m : string -> option A) (s : string)
  (a : A) :
  first_match m s = Some a -> exists t, m t = Some a.
Proof.
  induction s as [|c s IH]; simpl.
  - destruct (m "") eqn:E; [|discriminate]. intros H; inversion H; subst.
    now exists "".
  - destruct (m (String c s)) eqn:E.
    + intros H; inversion H; subst. now exists (String c s).
    + exact IH.
Qed.

(** The capture of a one-or-more group is not empty. *)
Lemma capture_truthy (p : ascii -> bool) (s v : string) :
  capture p s = Some v -> Boolean v = true.
Proof.
  unfold capture. destruct (span p s) as [w r].
  destruct w as [|c w]; [discriminate|].
  destruct r as [|d r]; [discriminate|].
  destruct (Ascii.eqb d dquote); [|discriminate].
  intros H; inversion H; reflexivity.
Qed.

Lemma attr_value_truthy (name s v : string) :
  attr_value name s = Some v -> Boolean v = true.
Proof.
  unfold attr_value. intros H. apply first_match_Some in H as (t & Ht).
  destruct (strip_prefix _ t); [|discriminate].
  now apply capture_truthy in Ht.
Qed.

Lemma gt_zero_positive (x : number) : gt x zero = true <-> positive x.
Proof.
  unfold gt, zero. destruct x as [|[|]|q|]; simpl; try (split; congruence).
  - split; [discriminate | tauto].
  - rewrite Qlt_alt, <- (Qcompare_antisym q 0).
    destruct (q ?= 0)%Q; simpl; split; congruence.
  - split; [discriminate | tauto].
Qed.

Lemma positive_truthy (x : number) :
  positive x -> isNaN x = false /\ truthy x = true.
Proof.
  destruct x as [|neg|q|]; simpl; try tauto.
  intros H. split; [reflexivity|].
  apply negb_true_iff. destruct (Qeq_bool q 0) eqn:E; [|reflexivity].
  apply Qeq_bool_iff in E. rewrite E in H. now apply Qlt_irrefl in H.
Qed.

(** What the validity test asks of a value that was kept. *)
Lemma kept_value_positive (found : option string) :
  (exists i,
      match found with
      | Some v => let val := parseFloat v in
                  if isNaN val then None else Some val
      | None => None
      end = Some i
      /\ truthy i && gt i zero = true)
  <-> exists v, found = Some v /\ positive (parseFloat v).
Proof.
  split.
  - intros (i & E & T). destruct found as [v|]; [|discriminate].
    exists v. split; [reflexivity|]. simpl in E.
    destruct (isNaN (parseFloat v)); [discriminate|]. inversion E; subst.
    apply andb_prop in T. now apply gt_zero_positive.
  - intros (v & -> & P). exists (parseFloat v).
    destruct (positive_truthy _ P) as (N & T). simpl. rewrite N.
    split; [reflexivity|]. rewrite T. now apply gt_zero_positive.
Qed.

(** The validity test, field by field. *)
Lemma valid_test (ots : option string) (oi opt : option number) :
  match ots, oi, opt with
  | Some ts, Some i, Some pt =>
      Boolean ts && truthy i && gt i zero && truthy pt && gt pt zero
  | _, _, _ => false
  end = true
  <-> (exists ts, ots = Some ts /\ Boolean ts = true)
      /\ (exists i, oi = Some i /\ truthy i && gt i zero = true)
      /\ (exists pt, opt = Some pt /\ truthy pt && gt pt zero = true).
Proof.
  split.
  - destruct ots as [ts|], oi as [i|], opt as [pt|]; try discriminate.
    intros V. repeat (apply andb_prop in V; destruct V as [V ?]).
    split; [now exists ts|].
    split; [exists i | exists pt]; split; trivial;
      apply andb_true_intro; now split.
  - intros ((ts & -> & T) & (i & -> & Ti) & (pt & -> & Tpt)).
    rewrite T. apply andb_prop in Ti, Tpt.
    destruct Ti as [-> ->], Tpt as [-> ->]. reflexivity.
Qed.

(** The loop of the Electron extractor pushes, in order, the reading of
    every group that passes the validity test. *)
Lemma electron_loop (groups : list string) (acc : list Electron.Reading) :
  exists out,
    fold_left (Electron.push_if_valid parseFloat) groups acc
    = (acc ++ out)%list
    /\ Forall2
         (fun svc r =>
            Electron.reading_of (Electron.observation parseFloat svc) = Some r)
         (filter (fun svc =>
                    Electron.valid (Electron.observation parseFloat svc))
                 groups)
         out.
Proof.
  revert acc. induction groups as [|svc groups IH]; intros acc; simpl.
  - exists []. split; [now rewrite app_nil_r | constructor].
  - unfold Electron.push_if_valid at 2.
    destruct (Electron.valid (Electron.observation parseFloat svc)) eqn:V.
    + destruct (Electron.reading_of (Electron.observation parseFloat svc))
        as [r|] eqn:E.
      * destruct (IH (acc ++ [r])%list) as (out & Hout & F).
        exists (r :: out). split; [now rewrite Hout, <- app_assoc|].
        now constructor.
      * exfalso. unfold Electron.valid, Electron.reading_of in *.
        destruct (Electron.obs_timestamp _); [|discriminate].
        destruct (Electron.obs_inr _); [|discriminate].
        destruct (Electron.obs_pt_seconds _); discriminate.
    + apply IH.
Qed.

(** The same for the mobile extractor, whose [k]-th group is given the
    [k]-th generated identifier. *)
Lemma mobile_loop (freshId : nat -> string) (groups : list string)
  (k : nat) (acc : list Mobile.INRReading) :
  exists out,
    fold_left (Mobile.push_if_valid parseFloat freshId) groups (k, acc)
    = (k + List.length groups, (acc ++ out)%list)
    /\ Forall2
         (fun (g : nat * string) r =>
            Mobile.reading_of
              (Mobile.partial_reading parseFloat freshId (fst g) (snd g))
            = Some r)
         (filter (fun g : nat * string =>
                    Mobile.valid
                      (Mobile.partial_reading parseFloat freshId
                         (fst g) (snd g)))
                 (combine (seq k (List.length groups)) groups))
         out.
Proof.
  revert k acc. induction groups as [|svc groups IH]; intros k acc; simpl.
  - exists []. split; [now rewrite app_nil_r, Nat.add_0_r | constructor].
  - destruct (Mobile.valid (Mobile.partial_reading parseFloat freshId k svc))
      eqn:V.
    + destruct (Mobile.reading_of
                  (Mobile.partial_reading parseFloat freshId k svc))
        as [r|] eqn:E.
      * destruct (IH (S k) (acc ++ [r])%list) as (out & Hout & F).
        exists (r :: out). split.
        -- rewrite Hout, <- app_assoc. f_equal. lia.
        -- now constructor.
      * exfalso. unfold Mobile.valid, Mobile.reading_of in *.
        destruct (Mobile.p_timestamp _); [|discriminate].
        destruct (Mobile.p_inr _); [|discriminate].
        destruct (Mobile.p_pt_seconds _); discriminate.
    + destruct (IH (S k) acc) as (out & Hout & F).
      exists out. split; [|exact F]. rewrite Hout. f_equal. lia.
Qed.

End ExtractorFacts.

(** The batch of the end-to-end scenario: two valid groups and one without
    the primary value give two readings, in the order of the batch. *)
Example extractor_mixed_batch :
  map Electron.timestamp
      (Electron.parseObservationsXml decimalParseFloat Fixtures.batchMixed)
  = [Fixtures.jan2; Fixtures.jan1]
  /\ map Mobile.timestamp
         (Mobile.parseObservationsXml decimalParseFloat (fun _ => "id")
            Fixtures.batchMixed)
     = [Fixtures.jan2; Fixtures.jan1].
Proof. split; vm_compute; reflexivity. Qed.

(* ================================================================== *)
(** * Message framer *)
(* ================================================================== *)

Lemma take_drop (n : nat) (s : string) : take n s ++ drop n s = s.
Proof.
  revert s; induction n as [|n IH]; intros [|c s]; simpl; try reflexivity.
  now rewrite IH.
Qed.

Lemma drop_drop (n m : nat) (s : string) :
  drop n (drop m s) = drop (m + n) s.
Proof.
  revert s; induction m as [|m IH]; intros s; simpl; [reflexivity|].
  destruct s as [|c s]; [|apply IH].
  now destruct n.
Qed.

Lemma take_add (n m : nat) (s : string) :
  take (n + m) s = take n s ++ take m (drop n s).
Proof.
  revert s; induction n as [|n IH]; intros s; simpl; [reflexivity|].
  destruct s as [|c s]; simpl; [now destruct m|]. now rewrite IH.
Qed.

Lemma take_length (n : nat) (s : string) :
  n <= String.length s -> String.length (take n s) = n.
Proof.
  revert s; induction n as [|n IH]; intros [|c s]; simpl; intros H;
    try reflexivity; try lia.
  rewrite IH; lia.
Qed.

Lemma prefix_take (pat s : string) :
  prefix pat s = true -> take (String.length pat) s = pat.
Proof.
  revert s; induction pat as [|a pat IH]; intros s; [reflexivity|].
  destruct s as [|b s]; simpl; [discriminate|].
  destruct (ascii_dec a b) as [->|]; [|discriminate].
  intros H. now rewrite (IH _ H).
Qed.

Lemma prefix_length (pat s : string) :
  prefix pat s = true -> String.length pat <= String.length s.
Proof.
  revert s; induction pat as [|a pat IH]; intros s; [simpl; lia|].
  destruct s as [|b s]; simpl; [discriminate|].
  destruct (ascii_dec a b); [|discriminate].
  intros H. apply IH in H. lia.
Qed.

Lemma drop_length_le (k : nat) (s : string) :
  String.length (drop k s) <= String.length s.
Proof.
  revert s; induction k as [|k IH]; intros [|c s]; simpl; try lia.
  specialize (IH s). lia.
Qed.

(** What [indexOf] returns: the first position at which the pattern
    starts. *)
Lemma indexOf_spec (s pat : string) :
  match indexOf s pat with
  | Some i =>
      prefix pat (drop i s) = true
      /\ i <= String.length s
      /\ forall k, k < i -> prefix pat (drop k s) = false
  | None => absent pat s
  end.
Proof.
  induction s as [|c s IH]; cbn [indexOf].
  - destruct (prefix pat "") eqn:E.
    + split; [exact E|]. split; [simpl; lia|]. intros k Hk; lia.
    + intros k. destruct k; exact E.
  - destruct (prefix pat (String c s)) eqn:E.
    + split; [exact E|]. split; [simpl; lia|]. intros k Hk; lia.
    + destruct (indexOf s pat) as [i|]; simpl.
      * destruct IH as (P & L & F). split; [exact P|]. split; [lia|].
        intros k Hk. destruct k; [exact E|]. apply F. lia.
      * intros k. destruct k; [exact E|]. apply IH.
Qed.

(** The message and the rest that a step of [processMessages] takes for an
    end tag of ten characters. *)
Lemma extract_first (tag s : string) :
  String.length tag = 10 ->
  match indexOf s tag with
  | Some i =>
      first_message tag s (substring s 0 (i + 10)) (substringFrom s (i + 10))
  | None => absent tag s
  end.
Proof.
  intros L. pose proof (indexOf_spec s tag) as H.
  destruct (indexOf s tag) as [i|]; [|exact H].
  destruct H as (P & Li & F).
  unfold first_message, substring, substringFrom.
  rewrite Nat.sub_0_r. simpl drop at 1.
  split; [now rewrite take_drop|].
  exists (take i s). split.
  - rewrite take_add. f_equal. rewrite <- L. now apply prefix_take.
  - intros k Hk. apply F. rewrite take_length in Hk; assumption.
Qed.

(** Reduces the record bookkeeping of the connection handler and nothing
    else. *)
Ltac connection_fields :=
  cbv zeta;
  cbn [Electron.buffer Electron.controlId Electron.totalAvailable
       Electron.sentRequest Electron.rawObservations
       Electron.observationsReceived Electron.deviceInfo Electron.trace
       Electron.set_buffer Electron.emit Electron.sendToRenderer
       Electron.nextControlId Electron.sendAck
       Electron.sendRequestObservations negb].

Section FramerFacts.
Import Electron.

Lemma observations_step (accept : bool) (c : Connection) :
  (absent "</OBS.R01>" (buffer c) /\ observations accept c = c)
  \/ exists message rest,
       first_message "</OBS.R01>" (buffer c) message rest
       /\ buffer (observations accept c) = rest
       /\ rawObservations (observations accept c)
          = (rawObservations c ++ [message])%list.
Proof.
  pose proof (extract_first "</OBS.R01>" (buffer c) eq_refl) as H.
  unfold observations.
  destruct (indexOf (buffer c) "</OBS.R01>") as [i|]; [right|left; tauto].
  eexists _, _. split; [exact H|]. split; reflexivity.
Qed.

Lemma hello_step (c : Connection) :
  (absent "</HEL.R01>" (buffer c) /\ hello c = c)
  \/ exists message rest,
       first_message "</HEL.R01>" (buffer c) message rest
       /\ buffer (hello c) = rest.
Proof.
  pose proof (extract_first "</HEL.R01>" (buffer c) eq_refl) as H.
  unfold hello.
  destruct (indexOf (buffer c) "</HEL.R01>") as [i|]; [right|left; tauto].
  eexists _, _. split; [exact H|]. reflexivity.
Qed.

Lemma deviceStatus_step (c : Connection) :
  (absent "</DST.R01>" (buffer c) /\ deviceStatus c = c)
  \/ exists message rest,
       first_message "</DST.R01>" (buffer c) message rest
       /\ buffer (deviceStatus c) = rest.
Proof.
  pose proof (extract_first "</DST.R01>" (buffer c) eq_refl) as H.
  unfold deviceStatus.
  destruct (indexOf (buffer c) "</DST.R01>") as [i|]; [right|left; tauto].
  eexists _, _. split; [exact H|].
  connection_fields. now destruct (sentRequest c).
Qed.

Lemma endOfTopic_step (c : Connection) :
  (absent "</EOT.R01>" (buffer c) /\ endOfTopic c = c)
  \/ exists message rest,
       first_message "</EOT.R01>" (buffer c) message rest
       /\ buffer (endOfTopic c) = rest.
Proof.
  pose proof (extract_first "</EOT.R01>" (buffer c) eq_refl) as H.
  unfold endOfTopic.
  destruct (indexOf (buffer c) "</EOT.R01>") as [i|]; [right|left; tauto].
  eexists _, _. split; [exact H|]. reflexivity.
Qed.

Lemma hello_raw (c : Connection) :
  rawObservations (hello c) = rawObservations c.
Proof. unfold hello. now destruct (indexOf _ _). Qed.

Lemma deviceStatus_raw (c : Connection) :
  rawObservations (deviceStatus c) = rawObservations c.
Proof.
  unfold deviceStatus. destruct (indexOf _ _); [|reflexivity].
  connection_fields. now destruct (sentRequest c).
Qed.

Lemma endOfTopic_raw (c : Connection) :
  rawObservations (endOfTopic c) = rawObservations c.
Proof. unfold endOfTopic. now destruct (indexOf _ _). Qed.

Lemma escapeOrError_raw (c : Connection) :
  rawObservations (escapeOrError c) = rawObservations c.
Proof. unfold escapeOrError. now destruct (_ || _). Qed.

Lemma observations_raw_length (accept : bool) (c : Connection) :
  List.length (rawObservations (observations accept c))
  <= S (List.length (rawObservations c)).
Proof.
  unfold observations. destruct (indexOf _ _); simpl.
  - rewrite length_app. simpl. lia.
  - lia.
Qed.

Lemma mobile_observations_step (parseFloat : string -> number)
  (freshId : nat -> string) (s : Mobile.Sync) :
  (absent "</OBS.R01>" (Mobile.dataBuffer s)
   /\ Mobile.observations parseFloat freshId s = s)
  \/ exists message rest,
       first_message "</OBS.R01>" (Mobile.dataBuffer s) message rest
       /\ Mobile.dataBuffer (Mobile.observations parseFloat freshId s) = rest
       /\ Mobile.collected (Mobile.observations parseFloat freshId s)
          = (Mobile.collected s
               ++ Mobile.parseObservationsXml parseFloat freshId message)%list.
Proof.
  pose proof (extract_first "</OBS.R01>" (Mobile.dataBuffer s) eq_refl) as H.
  unfold Mobile.observations.
  destruct (indexOf (Mobile.dataBuffer s) "</OBS.R01>") as [i|];
    [right|left; tauto].
  eexists _, _. split; [exact H|]. split; reflexivity.
Qed.

End FramerFacts.

(** C1, as the code has it.  A processing pass runs one extraction step for
    each message kind, in the order Hello, StatusReport, ObservationBatch,
    EndOfExchange.  A step whose end tag occurs in the buffer takes the text
    up to and including the first occurrence of the tag as its message and
    leaves the text after it in the buffer (the ObservationBatch step appends
    the message to the raw observations; in the mobile engine it appends the
    readings parsed from the message); a step whose end tag does not occur
    changes nothing.  So one pass extracts at most one message of each kind:
    of two complete batches that arrive in one append it extracts only the
    first. *)
Theorem C1_one_message_per_kind_per_pass (accept : bool)
  (c : Electron.Connection) (parseFloat : string -> number)
  (freshId : nat -> string) (s : Mobile.Sync) :
  Electron.processMessages accept c
  = Electron.escapeOrError
      (Electron.endOfTopic
         (Electron.observations accept
            (Electron.deviceStatus (Electron.hello c))))
  /\ ((absent "</HEL.R01>" (Electron.buffer c) /\ Electron.hello c = c)
      \/ exists message rest,
           first_message "</HEL.R01>" (Electron.buffer c) message rest
           /\ Electron.buffer (Electron.hello c) = rest)
  /\ ((absent "</DST.R01>" (Electron.buffer c)
       /\ Electron.deviceStatus c = c)
      \/ exists message rest,
           first_message "</DST.R01>" (Electron.buffer c) message rest
           /\ Electron.buffer (Electron.deviceStatus c) = rest)
  /\ ((absent "</OBS.R01>" (Electron.buffer c)
       /\ Electron.observations accept c = c)
      \/ exists message rest,
           first_message "</OBS.R01>" (Electron.buffer c) message rest
           /\ Electron.buffer (Electron.observations accept c) = rest
           /\ Electron.rawObservations (Electron.observations accept c)
              = (Electron.rawObservations c ++ [message])%list)
  /\ ((absent "</EOT.R01>" (Electron.buffer c) /\ Electron.endOfTopic c = c)
      \/ exists message rest,
           first_message "</EOT.R01>" (Electron.buffer c) message rest
           /\ Electron.buffer (Electron.endOfTopic c) = rest)
  /\ List.length (Electron.rawObservations (Electron.processMessages accept c))
     <= S (List.length (Electron.rawObservations c))
  /\ Mobile.processMessages parseFloat freshId s
     = Mobile.endOfTopic
         (Mobile.observations parseFloat freshId
            (Mobile.deviceStatus (Mobile.hello s)))
  /\ ((absent "</OBS.R01>" (Mobile.dataBuffer s)
       /\ Mobile.observations parseFloat freshId s = s)
      \/ exists message rest,
           first_message "</OBS.R01>" (Mobile.dataBuffer s) message rest
           /\ Mobile.dataBuffer (Mobile.observations parseFloat freshId s)
              = rest
           /\ Mobile.collected (Mobile.observations parseFloat freshId s)
              = (Mobile.collected s
                   ++ Mobile.parseObservationsXml parseFloat freshId message)
                %list).
Proof.
  split; [reflexivity|].
  split; [apply hello_step|].
  split; [apply deviceStatus_step|].
  split; [apply observations_step|].
  split; [apply endOfTopic_step|].
  split.
  { unfold Electron.processMessages.
    rewrite escapeOrError_raw, endOfTopic_raw.
    etransitivity; [apply observations_raw_length|].
    now rewrite deviceStatus_raw, hello_raw. }
  split; [reflexivity|apply mobile_observations_step].
Qed.

(** C1 as stated fails: two complete observation batches appended at once to
    an empty buffer.  The pass extracts the first batch only; the second is
    still in the buffer, complete and unprocessed, in the Electron engine and
    in the mobile engine alike. *)
Lemma C1_two_batches_one_extracted :
  let c := Electron.onData false (Fixtures.batchA ++ Fixtures.batchB)
             (Electron.handleConnection None) in
  let s := Mobile.handleData decimalParseFloat (fun _ => "id")
             (Fixtures.batchA ++ Fixtures.batchB) (Mobile.syncStart 20000) in
  Electron.rawObservations c = [Fixtures.batchA]
  /\ Electron.buffer c = Fixtures.batchB
  /\ ~ In Fixtures.batchB (Electron.rawObservations c)
  /\ map Mobile.timestamp (Mobile.collected s) = [Fixtures.jan1]
  /\ Mobile.dataBuffer s = Fixtures.batchB.
Proof.
  vm_compute. repeat split; try reflexivity.
  intros [H|[]]. discriminate H.
Qed.

(* ================================================================== *)
(** * Session state machine: the request for observations *)
(* ================================================================== *)

Section SessionFacts.
Import Electron.

Lemma written_app (a b : list Effect) :
  written (a ++ b) = (written a ++ written b)%list.
Proof. apply flat_map_app. Qed.

Lemma only_acks_refl (c : Connection) : only_acks c c.
Proof. split; [reflexivity|]. exists []. now rewrite app_nil_r. Qed.

Lemma only_acks_invariant (c c' : Connection) :
  request_invariant c -> only_acks c c' -> request_invariant c'.
Proof.
  unfold request_invariant. intros I (S & acks & W & A). rewrite S, W.
  destruct (sentRequest c).
  - destruct I as (before & after & n & E & B & F).
    exists before, (after ++ acks)%list, n. rewrite E, filter_app, F, A.
    split; [|now split]. rewrite <- app_assoc. reflexivity.
  - unfold never_requested in *. now rewrite filter_app, I, A.
Qed.

Lemma hello_only_acks (c : Connection) : only_acks c (hello c).
Proof.
  unfold hello. destruct (indexOf _ _); [|apply only_acks_refl].
  split; [reflexivity|]. connection_fields.
  exists [ACK_R01 (controlId c + 1) AA]. rewrite !written_app.
  simpl. rewrite !app_nil_r. split; reflexivity.
Qed.

Lemma observations_only_acks (accept : bool) (c : Connection) :
  only_acks c (observations accept c).
Proof.
  unfold observations. destruct (indexOf _ _); [|apply only_acks_refl].
  split; [reflexivity|]. connection_fields.
  exists [ACK_R01 (controlId c + 1) (if accept then AA else AR)].
  rewrite !written_app. simpl. rewrite !app_nil_r. split; reflexivity.
Qed.

Lemma endOfTopic_only_acks (c : Connection) : only_acks c (endOfTopic c).
Proof.
  unfold endOfTopic. destruct (indexOf _ _); [|apply only_acks_refl].
  split; [reflexivity|]. connection_fields.
  exists [ACK_R01 (controlId c + 1) AA]. rewrite !written_app.
  simpl. rewrite !app_nil_r. split; reflexivity.
Qed.

Lemma escapeOrError_only_acks (c : Connection) :
  only_acks c (escapeOrError c).
Proof.
  unfold escapeOrError. destruct (_ || _); [|apply only_acks_refl].
  split; [reflexivity|]. connection_fields.
  exists []. rewrite !written_app. simpl. rewrite !app_nil_r.
  split; reflexivity.
Qed.

(** What the StatusReport step writes and what it does to the flag. *)
Lemma deviceStatus_written (c : Connection) :
  written (trace (deviceStatus c))
  = (written (trace c)
       ++ match indexOf (buffer c) "</DST.R01>" with
          | None => []
          | Some _ =>
              if sentRequest c
              then [ACK_R01 (controlId c + 1) AA]
              else [ACK_R01 (controlId c + 1) AA;
                    REQ_R01 (controlId c + 1 + 1)]
          end)%list
  /\ sentRequest (deviceStatus c)
     = match indexOf (buffer c) "</DST.R01>" with
       | None => sentRequest c
       | Some _ => true
       end.
Proof.
  unfold deviceStatus. destruct (indexOf _ _).
  - connection_fields. destruct (sentRequest c); connection_fields;
      rewrite !written_app; simpl; rewrite ?app_nil_r, <- ?app_assoc;
      split; reflexivity.
  - now rewrite app_nil_r.
Qed.

Lemma deviceStatus_invariant (c : Connection) :
  request_invariant c -> request_invariant (deviceStatus c).
Proof.
  destruct (deviceStatus_written c) as (W & S).
  unfold request_invariant. rewrite W, S.
  destruct (indexOf _ _) as [i|]; [|now rewrite app_nil_r].
  destruct (sentRequest c).
  - intros (before & after & n & E & B & F).
    exists before, (after ++ [ACK_R01 (controlId c + 1) AA])%list, n.
    rewrite E, filter_app, F. split; [|now split].
    rewrite <- app_assoc. reflexivity.
  - intros N. exists (written (trace c)), [], (controlId c + 1)%Z.
    split; [reflexivity|]. split; [exact N|reflexivity].
Qed.

Lemma processMessages_invariant (accept : bool) (c : Connection) :
  request_invariant c -> request_invariant (processMessages accept c).
Proof.
  intros I. unfold processMessages.
  eapply only_acks_invariant; [|apply escapeOrError_only_acks].
  eapply only_acks_invariant; [|apply endOfTopic_only_acks].
  eapply only_acks_invariant; [|apply observations_only_acks].
  apply deviceStatus_invariant.
  eapply only_acks_invariant; [exact I|apply hello_only_acks].
Qed.

Lemma session_invariant (accept : bool) (chunks : list string)
  (c : Connection) :
  request_invariant c -> request_invariant (session accept chunks c).
Proof.
  revert c. induction chunks as [|data chunks IH]; intros c I; simpl.
  - exact I.
  - apply IH. unfold onData. apply processMessages_invariant. exact I.
Qed.

End SessionFacts.

Section MobileSessionFacts.
Import Mobile.
Variable parseFloat : string -> number.
Variable freshId : nat -> string.

Lemma sent_app (a b : list Effect) :
  sent (a ++ b) = (sent a ++ sent b)%list.
Proof. apply flat_map_app. Qed.

(** An effect other than a request leaves the requests as they are. *)
Lemma requests_snoc (t : list Effect) (e : Effect) :
  match e with sendData (REQ_R01 _) => False | _ => True end ->
  filter is_request (sent (t ++ [e])) = filter is_request (sent t).
Proof.
  intros H. rewrite sent_app, filter_app.
  destruct e as [[ | |]| | |]; simpl; try (now rewrite app_nil_r).
  destruct H.
Qed.

Lemma mobile_processMessages_requests (s : Sync) :
  requests (processMessages parseFloat freshId s) = requests s.
Proof.
  unfold processMessages, requests.
  assert (H : filter is_request (sent (trace (hello s)))
              = filter is_request (sent (trace s))).
  { unfold hello, sendAck, consume. destruct (indexOf _ _); [|reflexivity].
    cbn [trace]. now rewrite !requests_snoc by exact I. }
  assert (D : forall s, filter is_request (sent (trace (deviceStatus s)))
                        = filter is_request (sent (trace s))).
  { intros s0. unfold deviceStatus, sendAck, consume.
    destruct (indexOf _ _); [|reflexivity].
    cbn [trace]. now rewrite !requests_snoc by exact I. }
  assert (O : forall s,
             filter is_request
               (sent (trace (observations parseFloat freshId s)))
             = filter is_request (sent (trace s))).
  { intros s0. unfold observations, sendAck, consume.
    destruct (indexOf _ _); [|reflexivity].
    cbn [trace]. now rewrite !requests_snoc by exact I. }
  assert (E : forall s, filter is_request (sent (trace (endOfTopic s)))
                        = filter is_request (sent (trace s))).
  { intros s0. unfold endOfTopic, sendAck, consume.
    destruct (indexOf _ _); [|reflexivity].
    cbn [trace]. now rewrite !requests_snoc by exact I. }
  now rewrite E, O, D, H.
Qed.

Lemma mobile_feed_requests (chunks : list string) (s : Sync) :
  requests (feed parseFloat freshId chunks s) = requests s.
Proof.
  revert s. induction chunks as [|data chunks IH]; intros s.
  - reflexivity.
  - change (feed parseFloat freshId (data :: chunks) s)
      with (feed parseFloat freshId chunks
              (handleData parseFloat freshId data s)).
    rewrite IH. unfold handleData.
    now rewrite mobile_processMessages_requests.
Qed.

End MobileSessionFacts.

(** C9, as the code has it.  The Electron engine writes the request for
    observations at most once in a session: the step that processes a
    StatusReport writes the accepting acknowledgment and then, only while the
    request flag is not yet set, sets the flag and writes the request with
    the next control identifier; the other steps write acknowledgments only
    and leave the flag alone.  So the one request of a session stands
    directly after the acknowledgment of the first StatusReport processed,
    and a session that processes no StatusReport writes none.  The message
    processing of the mobile engine never writes the request; its sync writes
    it once from a timer, when no reading arrived during the first wait, and
    not at all otherwise. *)
Theorem C9_request_once_after_ack :
  (forall c : Electron.Connection,
      Electron.written (Electron.trace (Electron.deviceStatus c))
      = (Electron.written (Electron.trace c)
           ++ match indexOf (Electron.buffer c) "</DST.R01>" with
              | None => []
              | Some _ =>
                  if Electron.sentRequest c
                  then [Electron.ACK_R01 (Electron.controlId c + 1)
                                         Electron.AA]
                  else [Electron.ACK_R01 (Electron.controlId c + 1)
                                         Electron.AA;
                        Electron.REQ_R01 (Electron.controlId c + 1 + 1)]
              end)%list
      /\ Electron.sentRequest (Electron.deviceStatus c)
         = match indexOf (Electron.buffer c) "</DST.R01>" with
           | None => Electron.sentRequest c
           | Some _ => true
           end)
  /\ (forall (accept : bool) (c : Electron.Connection),
         Electron.only_acks c (Electron.hello c)
         /\ Electron.only_acks c (Electron.observations accept c)
         /\ Electron.only_acks c (Electron.endOfTopic c)
         /\ Electron.only_acks c (Electron.escapeOrError c))
  /\ (forall (accept : bool) (chunks : list string)
             (info : option Electron.DeviceInfo),
         let c := Electron.session accept chunks
                    (Electron.handleConnection info) in
         if Electron.sentRequest c
         then Electron.requested_once (Electron.written (Electron.trace c))
         else Electron.never_requested (Electron.written (Electron.trace c)))
  /\ (forall (parseFloat : string -> number) (freshId : nat -> string)
             (s : Mobile.Sync),
         filter Mobile.is_request
           (Mobile.sent
              (Mobile.trace (Mobile.processMessages parseFloat freshId s)))
         = filter Mobile.is_request (Mobile.sent (Mobile.trace s)))
  /\ (forall (parseFloat : string -> number) (freshId : nat -> string)
             (n : Z) (early after1 after2 late : list string),
         List.length
           (filter Mobile.is_request
              (Mobile.sent
                 (Mobile.trace
                    (Mobile.syncData parseFloat freshId n
                       early after1 after2 late))))
         = if (List.length
                 (Mobile.collected
                    (Mobile.feed parseFloat freshId early
                       (Mobile.syncStart n))) =? 0)%nat
           then 1 else 0).
Proof.
  split; [apply deviceStatus_written|].
  split.
  { intros accept c.
    split; [apply hello_only_acks|].
    split; [apply observations_only_acks|].
    split; [apply endOfTopic_only_acks|apply escapeOrError_only_acks]. }
  split.
  { intros accept chunks info c.
    apply (session_invariant accept chunks (Electron.handleConnection info)).
    reflexivity. }
  split; [apply mobile_processMessages_requests|].
  intros parseFloat freshId n early after1 after2 late.
  unfold Mobile.syncData.
  pose proof (mobile_feed_requests parseFloat freshId) as F.
  unfold Mobile.requests in F.
  assert (Z0 : filter Mobile.is_request
                 (Mobile.sent
                    (Mobile.trace
                       (Mobile.feed parseFloat freshId early
                          (Mobile.syncStart n)))) = [])
    by (rewrite F; reflexivity).
  destruct (_ =? 0)%nat.
  - rewrite F. unfold Mobile.sendRequestObservations. cbn [Mobile.trace].
    rewrite sent_app, filter_app, F. unfold Mobile.sendRawBytes.
    cbn [Mobile.trace]. rewrite sent_app, filter_app, F.
    cbn [Mobile.trace]. rewrite sent_app, filter_app, Z0. reflexivity.
  - now rewrite F, Z0.
Qed.

(** C9 as stated fails.  In a session whose only message is a StatusReport
    the engine writes the accepting acknowledgment first and the request
    second, so the request is not emitted before the acknowledgment; and a
    session without a StatusReport emits no request at all. *)
Lemma C9_request_follows_ack :
  let c := Electron.session true [Fixtures.DST "2"]
             (Electron.handleConnection None) in
  Electron.written (Electron.trace c)
  = [Electron.ACK_R01 20001 Electron.AA; Electron.REQ_R01 20002]
  /\ ~ Electron.request_before_ack (Electron.written (Electron.trace c))
  /\ Electron.written
       (Electron.trace
          (Electron.session true [Fixtures.HEL "S1" "PT2"]
             (Electron.handleConnection None)))
     = [Electron.ACK_R01 20001 Electron.AA].
Proof.
  assert (E : Electron.written
                (Electron.trace
                   (Electron.session true [Fixtures.DST "2"]
                      (Electron.handleConnection None)))
              = [Electron.ACK_R01 20001 Electron.AA; Electron.REQ_R01 20002])
    by (vm_compute; reflexivity).
  cbv zeta. rewrite E. split; [reflexivity|]. split.
  - intros (l1 & l2 & l3 & n & m & H).
    destruct l1 as [|a [|b l1]]; simpl in H.
    + discriminate H.
    + inversion H as [[Ha Hn Hl]]. destruct l2; discriminate Hl.
    + inversion H as [[Ha Hb Hl]]. destruct l1; discriminate Hl.
  - vm_compute. reflexivity.
Qed.

(* ================================================================== *)
(** * Persistence *)
(* ================================================================== *)

(** C8, as the code has it.  When the write of [finalizeTransfer] throws,
    [saveData] catches the exception and logs it to the console; nothing is
    sent to the renderer about it.  The finalization goes on: the renderer
    receives only the transfer-complete event, which carries the counts and
    the readings of the merge held in memory, and the data file is whatever
    the failed write left.  The mobile [addReadings] likewise returns the
    merged data to its caller when the storage rejects the write, with the
    error logged. *)
Theorem C8_write_failure_is_only_logged {collator : Collator}
  (parseFloat : string -> number) (now : string) :
  (forall (left_on_disk : Electron.DataFile)
          (info : option Electron.DeviceInfo)
          (rawObservations : list string) (file : Electron.DataFile),
      let result :=
        Electron.finalizeTransfer parseFloat now
          (Electron.WriteThrows left_on_disk) info rawObservations file in
      let existing := Electron.stored_readings file in
      let new := Electron.parsedReadings parseFloat rawObservations in
      fst result = left_on_disk
      /\ In (Electron.console_error "Error saving data:") (snd result)
      /\ Electron.shown (snd result)
         = [Electron.transfer_complete
              (List.length (Electron.uniqueNew existing new))
              (List.length (Electron.allReadings existing new))
              (Electron.allReadings existing new)])
  /\ (forall (left_in_storage : option Mobile.AppData)
             (newReadings : list Mobile.INRReading)
             (storage : option Mobile.AppData),
         let data := Mobile.loadData storage in
         Mobile.addReadings now (Mobile.Rejected left_in_storage)
           newReadings storage
         = ({| Mobile.readings :=
                 Mobile.mergedReadings (Mobile.readings data) newReadings;
               Mobile.device := Mobile.device data;
               Mobile.lastSync := Some now;
               Mobile.settings := Mobile.settings data |},
            left_in_storage, true)).
Proof.
  split.
  - intros left_on_disk info raw file.
    unfold Electron.finalizeTransfer, Electron.stored_readings,
      Electron.readings_or_empty.
    destruct file as [| |data]; cbn [Electron.loadData fst snd];
      cbn [Electron.saveData fst snd]; (split; [reflexivity|]);
      (split; [simpl; tauto|]); reflexivity.
  - intros left_in_storage newReadings storage. reflexivity.
Qed.

(** C8 as stated fails: a session that collected one batch is finalized
    while the write throws and leaves no data file.  The only event shown to
    the user is the completed transfer with one new reading out of one; no
    error event is sent, and the reading reported as saved is not on disk. *)
Lemma C8_failed_write_reported_complete :
  let result :=
    Electron.finalizeTransfer (collator := codeUnitCollator)
      decimalParseFloat "2026-01-05T12:00:00.000Z"
      (Electron.WriteThrows Electron.Missing) None [Fixtures.batchA]
      Electron.Missing in
  Electron.shown (snd result)
  = [Electron.transfer_complete 1 1
       [ {| Electron.timestamp := Fixtures.jan1;
            Electron.sequence := Some 1%Z;
            Electron.status := Some "NRM";
            Electron.inr := Num (25 # 10);
            Electron.pt_seconds := Num 30 |} ]]
  /\ (forall message,
         ~ In (Electron.to_renderer (Electron.error_signal message))
              (snd result))
  /\ Electron.stored_readings (fst result) = [].
Proof.
  vm_compute. split; [reflexivity|]. split; [|reflexivity].
  intros message H.
  repeat (destruct H as [H|H]; [discriminate H|]). exact H.
Qed.

(** C10, as the code has it.  An import whose file parses to a value with
    an array of readings answers success with the number of imported
    readings, whatever the write does.  When the write succeeds, the data
    file holds the imported value as JSON keeps it, nothing is logged, and a
    reading stored before whose timestamp is not among the imported ones is
    not in the store afterwards.  When the write throws, [saveData] only logs
    the error: the answer is still success and the data file is whatever the
    failed write left. *)
Theorem C10_import_replaces_store_if_written (file : Electron.DataFile)
  (data : Electron.Data) (imported : list Electron.Reading)
  (w : Electron.WriteResult) :
  Electron.readings data = Some imported ->
  let result :=
    Electron.import_data (Electron.Chosen (Electron.Parsed data)) w file in
  fst (fst result) = Electron.import_success (List.length imported)
  /\ match w with
     | Electron.Written =>
         snd (fst result) = Electron.Stored (Electron.JSON_data data)
         /\ snd result = []
         /\ Electron.stored_readings (snd (fst result))
            = map Electron.JSON_reading imported
         /\ forall r,
              In r (Electron.stored_readings file) ->
              ~ In (Electron.timestamp r) (map Electron.timestamp imported) ->
              ~ In r (Electron.stored_readings (snd (fst result)))
     | Electron.WriteThrows left_on_disk =>
         snd (fst result) = left_on_disk
         /\ snd result = [Electron.console_error "Error saving data:"]
     end.
Proof.
  intros E result. unfold result, Electron.import_data. rewrite E.
  destruct w as [|left_on_disk]; cbn [Electron.saveData fst snd].
  - split; [reflexivity|]. split; [reflexivity|]. split; [reflexivity|].
    assert (S : Electron.stored_readings
                  (Electron.Stored (Electron.JSON_data data))
                = map Electron.JSON_reading imported).
    { pose proof (stored_readings_written data) as W.
      cbn [Electron.saveData fst] in W. now rewrite W, E. }
    split; [exact S|]. rewrite S. intros r _ N H. apply N.
    apply in_map_iff in H as (x & <- & I).
    change (Electron.timestamp (Electron.JSON_reading x))
      with (Electron.timestamp x).
    now apply in_map.
  - repeat split.
Qed.

Lemma C10_import_replaces_store_if_written_witness :
  let old := Fixtures.reading Fixtures.jan1 2.5 in
  let new := Fixtures.reading Fixtures.jan2 3 in
  let file :=
    Electron.Stored
      {| Electron.device := None; Electron.lastSync := None;
         Electron.totalReadings := Some 1;
         Electron.readings := Some [old] |} in
  let data :=
    {| Electron.device := None; Electron.lastSync := None;
       Electron.totalReadings := Some 1;
       Electron.readings := Some [new] |} in
  Electron.readings data = Some [new]
  /\ Electron.stored_readings
       (snd (fst (Electron.import_data
                    (Electron.Chosen (Electron.Parsed data))
                    Electron.Written file)))
     = [new].
Proof.
  intros old new file data.
  assert (H : Electron.readings data = Some [new]) by reflexivity.
  split; [exact H|].
  exact (proj1 (proj2 (proj2 (proj2
           (C10_import_replaces_store_if_written file data [new]
              Electron.Written H))))).
Defined.

(** C10 as stated fails: the chosen file parses to a value with one
    reading, and the write throws and leaves the data file as it was.  The
    handler answers success with one reading, yet the store is not the
    imported content: it still holds the old reading, whose timestamp is not
    among the imported ones, and it does not hold the imported reading. *)
Lemma C10_failed_write_keeps_old_store :
  let old := Fixtures.reading Fixtures.jan1 2.5 in
  let new := Fixtures.reading Fixtures.jan2 3 in
  let file :=
    Electron.Stored
      {| Electron.device := None; Electron.lastSync := None;
         Electron.totalReadings := Some 1;
         Electron.readings := Some [old] |} in
  let data :=
    {| Electron.device := None; Electron.lastSync := None;
       Electron.totalReadings := Some 1;
       Electron.readings := Some [new] |} in
  let result :=
    Electron.import_data (Electron.Chosen (Electron.Parsed data))
      (Electron.WriteThrows file) file in
  Electron.readings data = Some [new]
  /\ fst (fst result) = Electron.import_success 1
  /\ Electron.stored_readings (snd (fst result)) = [old]
  /\ Electron.stored_readings (snd (fst result)) <> [new]
  /\ ~ In (Electron.timestamp old) (map Electron.timestamp [new]).
Proof.
  vm_compute. repeat split; try discriminate.
  intros [H|[]]. discriminate H.
Qed.

(* ================================================================== *)
(** * Range estimator *)
(* ================================================================== *)

(** C2: the code at the failing input.  Two readings one hour apart, 2.0
    then 6.0, with the target range 2.0 to 3.0.  Linear interpolation is in
    range for the first quarter of the hour, so the Rosendaal value is 25;
    the report and the dashboard count one reading of two in range and show
    50.  (On the example of the specification, 2.0 then 4.0, the two
    computations happen to agree on 50.) *)
Theorem C2_percentage_counts_readings :
  let readings := [Fixtures.mobileReading "2026-01-01T08:00:00" 2;
                   Fixtures.mobileReading "2026-01-01T09:00:00" 6] in
  let example := [Fixtures.mobileReading "2026-01-01T08:00:00" 2;
                  Fixtures.mobileReading "2026-01-01T09:00:00" 4] in
  Mobile.ttr readings Mobile.DEFAULT_SETTINGS = 50%Z
  /\ Mobile.inRangePercent readings Mobile.DEFAULT_SETTINGS = 50%Z
  /\ option_map Qred (Rosendaal.ttr 2 3 [(0, 2); (1, 6)]%Q) = Some 25%Q
  /\ Mobile.ttr example Mobile.DEFAULT_SETTINGS = 50%Z
  /\ option_map Qred (Rosendaal.ttr 2 3 [(0, 2); (1, 4)]%Q) = Some 50%Q.
Proof. vm_compute. repeat split; reflexivity. Qed.

(** C7: the code on fewer than two readings.  With no reading the report
    and the dashboard show the number 0, and with a single reading they show
    0 or 100, whatever the settings; the average of the same report is
    unavailable when there is no value, and the estimator of the
    specification is unavailable on fewer than two readings. *)
Theorem C7_percentage_of_short_lists (settings : Mobile.Settings)
  (r : Mobile.INRReading) (lo hi : Q) (x : Q * Q) :
  Mobile.ttr [] settings = 0%Z
  /\ (Mobile.ttr [r] settings = 0%Z \/ Mobile.ttr [r] settings = 100%Z)
  /\ Mobile.inRangePercent [] settings = 0%Z
  /\ (Mobile.inRangePercent [r] settings = 0%Z
      \/ Mobile.inRangePercent [r] settings = 100%Z)
  /\ Mobile.avgINR [] = None
  /\ Rosendaal.ttr lo hi [] = None
  /\ Rosendaal.ttr lo hi [x] = None.
Proof.
  unfold Mobile.ttr, Mobile.inRangePercent. cbn [filter List.length].
  destruct (Mobile.inRange settings r); cbn [List.length Nat.ltb Nat.leb];
    repeat split; try reflexivity; (left; reflexivity) || (right; reflexivity).
Qed.

(* ================================================================== *)
(** * The scenarios of the specification *)
(* ================================================================== *)

(** End to end: Hello, StatusReport, a batch of two valid groups and one
    malformed group, EndOfExchange, then the socket closes.  The engine
    acknowledges the Hello, acknowledges the StatusReport and requests the
    observations, acknowledges the batch by the configured policy (reject
    here) and acknowledges the end; the store ends with the two readings,
    in timestamp order and numbered 1 and 2. *)
Example end_to_end_session :
  let c := Electron.session false
             [Fixtures.HEL "S1" "PT2"; Fixtures.DST "2";
              Fixtures.batchMixed; Fixtures.EOT]
             (Electron.handleConnection None) in
  let closed := Electron.onClose (collator := codeUnitCollator)
                  decimalParseFloat "2026-01-05T12:00:00.000Z"
                  Electron.Written c Electron.Missing in
  Electron.written (Electron.trace c)
  = [Electron.ACK_R01 20001 Electron.AA;
     Electron.ACK_R01 20002 Electron.AA;
     Electron.REQ_R01 20003;
     Electron.ACK_R01 20004 Electron.AR;
     Electron.ACK_R01 20005 Electron.AA]
  /\ Electron.buffer c = ""
  /\ map (fun r => (Electron.timestamp r, Electron.sequence r))
         (Electron.stored_readings (fst closed))
     = [(Fixtures.jan1, Some 1%Z); (Fixtures.jan2, Some 2%Z)].
Proof. vm_compute. repeat split; reflexivity. Qed.

(** Resync: the same session against the store it produced adds no
    reading. *)
Example resync_adds_nothing :
  let c := Electron.session false
             [Fixtures.HEL "S1" "PT2"; Fixtures.DST "2";
              Fixtures.batchMixed; Fixtures.EOT]
             (Electron.handleConnection None) in
  let first := Electron.onClose (collator := codeUnitCollator)
                 decimalParseFloat "2026-01-05T12:00:00.000Z"
                 Electron.Written c Electron.Missing in
  let second := Electron.onClose (collator := codeUnitCollator)
                  decimalParseFloat "2026-01-06T12:00:00.000Z"
                  Electron.Written c (fst first) in
  Electron.stored_readings (fst second) = Electron.stored_readings (fst first)
  /\ exists all,
       Electron.shown (snd second)
       = [Electron.device_connected; 
          Electron.device_info
            {| Electron.serial := "S1"; Electron.model := "PT2" |};
          Electron.status_report 2; Electron.requesting;
          Electron.progress 3 2;
          Electron.transfer_complete 0 2 all].
Proof. vm_compute. split; [reflexivity|]. eexists. reflexivity. Qed.

(** Framing across appends: a batch delivered in two pieces is extracted
    once, by the pass that sees its end tag, as when it is delivered
    whole. *)
Example batch_in_two_pieces :
  let whole := Electron.session false [Fixtures.batchA]
                 (Electron.handleConnection None) in
  let pieces := Electron.session false
                  [JS.take 40 Fixtures.batchA; JS.drop 40 Fixtures.batchA]
                  (Electron.handleConnection None) in
  Electron.rawObservations pieces = [Fixtures.batchA]
  /\ Electron.rawObservations pieces = Electron.rawObservations whole
  /\ Electron.buffer pieces = ""
  /\ Electron.written (Electron.trace pieces)
     = [Electron.ACK_R01 20001 Electron.AR].
Proof. vm_compute. repeat split; reflexivity. Qed.

(* ================================================================== *)
(** * Further properties of the connection handler *)
(* ================================================================== *)

Section HandlerFacts.
Import Electron.

Lemma map_seq_shift {X : Type} (g : nat -> X) (n a m : nat) :
  map g (seq (n + a) m) = map (fun k => g (n + k)) (seq a m).
Proof.
  revert a. induction m as [|m IH]; intros a; simpl; [reflexivity|].
  f_equal. rewrite <- Nat.add_succ_r. apply IH.
Qed.

Lemma numbered_app (start : Z) (a b : list Outbound) :
  numbered start a ->
  numbered (start + Z.of_nat (List.length a)) b ->
  numbered start (a ++ b).
Proof.
  unfold numbered. intros A B.
  rewrite map_app, length_app, seq_app, map_app, A, B. f_equal.
  replace (1 + List.length a) with (List.length a + 1) by lia.
  rewrite (map_seq_shift (fun k => (start + Z.of_nat k)%Z)).
  apply map_ext. intros k. lia.
Qed.

Lemma continues_refl (accept : bool) (c : Connection) : continues accept c c.
Proof.
  exists []. rewrite app_nil_r, Nat.sub_diag. simpl.
  repeat split; try reflexivity; try lia. now destruct accept.
Qed.

Lemma continues_trans (accept : bool) (a b c : Connection) :
  continues accept a b -> continues accept b c -> continues accept a c.
Proof.
  intros (o1 & W1 & C1 & N1 & L1 & R1) (o2 & W2 & C2 & N2 & L2 & R2).
  exists (o1 ++ o2)%list.
  split; [now rewrite W2, W1, app_assoc|].
  split; [rewrite C2, C1, length_app; lia|].
  split; [apply numbered_app; [exact N1|now rewrite <- C1]|].
  split; [lia|].
  rewrite filter_app, length_app, R1, R2. destruct accept; lia.
Qed.

Lemma hello_continues (accept : bool) (c : Connection) :
  continues accept c (hello c).
Proof.
  unfold hello. destruct (indexOf _ _); [|apply continues_refl].
  exists [ACK_R01 (controlId c + 1) AA]. connection_fields.
  rewrite !written_app. simpl. rewrite !app_nil_r, Nat.sub_diag.
  repeat split; try reflexivity; try lia. now destruct accept.
Qed.

Lemma endOfTopic_continues (accept : bool) (c : Connection) :
  continues accept c (endOfTopic c).
Proof.
  unfold endOfTopic. destruct (indexOf _ _); [|apply continues_refl].
  exists [ACK_R01 (controlId c + 1) AA]. connection_fields.
  rewrite !written_app. simpl. rewrite !app_nil_r, Nat.sub_diag.
  repeat split; try reflexivity; try lia. now destruct accept.
Qed.

Lemma escapeOrError_continues (accept : bool) (c : Connection) :
  continues accept c (escapeOrError c).
Proof.
  unfold escapeOrError. destruct (_ || _); [|apply continues_refl].
  exists []. connection_fields.
  rewrite !written_app. simpl. rewrite !app_nil_r, Nat.sub_diag.
  repeat split; try reflexivity; try lia. now destruct accept.
Qed.

Lemma observations_continues (accept : bool) (c : Connection) :
  continues accept c (observations accept c).
Proof.
  unfold observations. destruct (indexOf _ _); [|apply continues_refl].
  exists [ACK_R01 (controlId c + 1) (if accept then AA else AR)].
  connection_fields. rewrite !written_app, length_app. simpl.
  rewrite !app_nil_r.
  repeat split; try reflexivity; try lia. destruct accept; simpl; lia.
Qed.

Lemma deviceStatus_continues (accept : bool) (c : Connection) :
  continues accept c (deviceStatus c).
Proof.
  destruct (deviceStatus_written c) as (W & _).
  assert (R : rawObservations (deviceStatus c) = rawObservations c)
    by apply deviceStatus_raw.
  assert (K : controlId (deviceStatus c)
              = match indexOf (buffer c) "</DST.R01>" with
                | None => controlId c
                | Some _ => if sentRequest c then (controlId c + 1)%Z
                            else (controlId c + 1 + 1)%Z
                end).
  { unfold deviceStatus. destruct (indexOf _ _); [|reflexivity].
    connection_fields. now destruct (sentRequest c). }
  eexists. split; [exact W|]. rewrite K, R, Nat.sub_diag.
  assert (Q : (if accept then 0 else 0) = 0) by now destruct accept.
  rewrite Q. unfold numbered.
  destruct (indexOf _ _); [destruct (sentRequest c)|];
    cbn [List.length map seq filter is_reject control_id_of];
    repeat split; try lia; repeat (f_equal; try lia).
Qed.

Lemma processMessages_continues (accept : bool) (c : Connection) :
  continues accept c (processMessages accept c).
Proof.
  unfold processMessages.
  eapply continues_trans; [|apply escapeOrError_continues].
  eapply continues_trans; [|apply endOfTopic_continues].
  eapply continues_trans; [|apply observations_continues].
  eapply continues_trans; [apply hello_continues|].
  apply deviceStatus_continues.
Qed.

Lemma session_continues (accept : bool) (chunks : list string)
  (c : Connection) :
  continues accept c (session accept chunks c).
Proof.
  revert c. induction chunks as [|data chunks IH]; intros c; simpl.
  - apply continues_refl.
  - eapply continues_trans; [|apply IH].
    unfold onData.
    exact (processMessages_continues accept (set_buffer (buffer c ++ data) c)).
Qed.

End HandlerFacts.

(** X1.  In every Electron session the messages written to the socket carry
    the control identifiers 20001, 20002, ... in the order they are written,
    acknowledgments and the request alike, and the counter of the connection
    is 20000 plus the number of messages written. *)
Theorem X1_control_ids_count_up (accept : bool) (chunks : list string)
  (info : option Electron.DeviceInfo) :
  let c := Electron.session accept chunks (Electron.handleConnection info) in
  let w := Electron.written (Electron.trace c) in
  map Electron.control_id_of w
  = map (fun k => (20000 + Z.of_nat k)%Z) (seq 1 (List.length w))
  /\ Electron.controlId c = (20000 + Z.of_nat (List.length w))%Z.
Proof.
  intros c w.
  destruct (session_continues accept chunks (Electron.handleConnection info))
    as (out & W & C & N & _).
  simpl in W. fold c in W, C. unfold w. rewrite W. split; [exact N|exact C].
Qed.

(** X2.  The acknowledgment policy of a session.  With the accept setting
    off, the engine writes exactly one rejecting acknowledgment for each
    observation batch it collected and accepts everything else; with the
    setting on, it never writes a rejecting acknowledgment. *)
Theorem X2_rejects_match_batches (accept : bool) (chunks : list string)
  (info : option Electron.DeviceInfo) :
  let c := Electron.session accept chunks (Electron.handleConnection info) in
  List.length (filter Electron.is_reject (Electron.written (Electron.trace c)))
  = if accept then 0 else List.length (Electron.rawObservations c).
Proof.
  intros c.
  destruct (session_continues accept chunks (Electron.handleConnection info))
    as (out & W & _ & _ & _ & R).
  simpl in W. fold c in W, R. rewrite W, R. simpl.
  destruct accept; [reflexivity|apply Nat.sub_0_r].
Qed.

(* ================================================================== *)
(** * Further properties of the framing *)
(* ================================================================== *)

Section TextFacts.

Lemma append_assoc (a b c : string) : (a ++ b) ++ c = a ++ (b ++ c).
Proof. induction a as [|x a IH]; simpl; [reflexivity|now rewrite IH]. Qed.

Lemma append_nil_r (a : string) : a ++ "" = a.
Proof. induction a as [|x a IH]; simpl; [reflexivity|now rewrite IH]. Qed.

Lemma drop_nil (k : nat) : drop k "" = "".
Proof. now destruct k. Qed.

(** Appending to what is left of a text leaves what is left of the longer
    text. *)
Lemma drop_append (k : nat) (x d : string) :
  exists k', drop k x ++ d = drop k' (x ++ d).
Proof.
  revert k. induction x as [|a x IH]; intros k.
  - exists 0. now rewrite drop_nil.
  - destruct k as [|k]; [now exists 0|].
    destruct (IH k) as (k' & E). exists (S k'). exact E.
Qed.

Lemma includes_false (s p : string) :
  includes s p = false -> indexOf s p = None.
Proof. unfold includes. now destruct (indexOf s p). Qed.

Lemma strip_prefix_spec (lit s r : string) :
  strip_prefix lit s = Some r -> s = lit ++ r.
Proof.
  revert s. induction lit as [|a lit IH]; intros s; simpl.
  - intros E. now inversion E.
  - destruct s as [|b s]; [discriminate|].
    destruct (Ascii.eqb_spec a b) as [->|]; [|discriminate].
    intros E. now rewrite (IH _ E).
Qed.

Lemma find_split_spec (pat s b a : string) :
  find_split pat s = Some (b, a) -> s = b ++ pat ++ a.
Proof.
  revert b. induction s as [|c s IH]; intros b; simpl.
  - destruct (strip_prefix pat "") eqn:E; [|discriminate].
    intros H. inversion H; subst. now apply strip_prefix_spec in E.
  - destruct (strip_prefix pat (String c s)) eqn:E.
    + intros H. inversion H; subst. now apply strip_prefix_spec in E.
    + destruct (find_split pat s) as [[b' a']|]; [|discriminate].
      intros H. inversion H; subst. simpl. now rewrite <- (IH b' eq_refl).
Qed.

Lemma svc_count_unfold (s : string) :
  svc_count s = match find_split "<SVC>" s with
                | None => 0
                | Some (_, r) => S (svc_count r)
                end.
Proof.
  rewrite svc_count_equation_1.
  generalize (inspect (find_split "<SVC>" s)).
  intros [o e].
  replace (match find_split "<SVC>" s with
           | None => 0 | Some (_, r) => S (svc_count r) end)
    with (match o with None => 0 | Some (_, r) => S (svc_count r) end)
    by (now rewrite e).
  destruct o as [[b r]|]; reflexivity.
Qed.

Lemma svc_groups_unfold (s : string) :
  svc_groups s = match find_split "<SVC>" s with
                 | None => []
                 | Some (_, r) =>
                     match find_split "</SVC>" r with
                     | None => []
                     | Some (svc, r') => svc :: svc_groups r'
                     end
                 end.
Proof.
  rewrite svc_groups_equation_1.
  generalize (inspect (find_split "<SVC>" s)).
  intros [o e].
  replace (match find_split "<SVC>" s with
           | None => []
           | Some (_, r) =>
               match find_split "</SVC>" r with
               | None => []
               | Some (svc, r') => svc :: svc_groups r'
               end
           end)
    with (match o with
          | None => []
          | Some (_, r) =>
              match find_split "</SVC>" r with
              | None => []
              | Some (svc, r') => svc :: svc_groups r'
              end
          end) by (now rewrite e).
  destruct o as [[b r]|]; [|reflexivity].
  simp svc_groups.
  generalize (inspect (find_split "</SVC>" r)).
  intros [o2 e2].
  replace (match find_split "</SVC>" r with
           | None => []
           | Some (svc, r') => svc :: svc_groups r'
           end)
    with (match o2 with
          | None => []
          | Some (svc, r') => svc :: svc_groups r'
          end) by (now rewrite e2).
  destruct o2 as [[svc r']|]; reflexivity.
Qed.

(** A character other than the one that opens a tag starts no group. *)
Lemma svc_count_skip (c : ascii) (s : string) :
  Ascii.eqb "<" c = false -> svc_count (String c s) = svc_count s.
Proof.
  intros N. rewrite (svc_count_unfold (String c s)), (svc_count_unfold s).
  cbn [find_split strip_prefix]. rewrite N.
  now destruct (find_split "<SVC>" s) as [[b a]|].
Qed.

Lemma svc_count_cons (c : ascii) (s : string) :
  svc_count s <= svc_count (String c s).
Proof.
  rewrite (svc_count_unfold (String c s)). cbn [find_split].
  destruct (strip_prefix "<SVC>" (String c s)) as [r|] eqn:E.
  - apply strip_prefix_spec in E. inversion E; subst.
    cbn [append]. rewrite !svc_count_skip by reflexivity. lia.
  - rewrite (svc_count_unfold s).
    destruct (find_split "<SVC>" s) as [[b a]|]; lia.
Qed.

Lemma svc_count_suffix (x s : string) : svc_count s <= svc_count (x ++ s).
Proof.
  induction x as [|c x IH]; simpl; [lia|].
  etransitivity; [exact IH|apply svc_count_cons].
Qed.

(** The extractor's loop finds at most as many groups as the progress
    counter counts opening tags. *)
Lemma svc_groups_le_count (m : string) :
  List.length (svc_groups m) <= svc_count m.
Proof.
  remember (String.length m) as n eqn:L. revert m L.
  induction n as [n IH] using lt_wf_ind. intros m L.
  rewrite svc_groups_unfold, svc_count_unfold.
  destruct (find_split "<SVC>" m) as [[b r]|] eqn:E1; [|simpl; lia].
  destruct (find_split "</SVC>" r) as [[svc r']|] eqn:E2; [|simpl; lia].
  pose proof (find_split_length _ _ _ _ E1) as L1.
  pose proof (find_split_length _ _ _ _ E2) as L2.
  pose proof (find_split_spec _ _ _ _ E2) as S2.
  assert (M : svc_count r' <= svc_count r).
  { rewrite S2, <- append_assoc. apply svc_count_suffix. }
  assert (I : List.length (svc_groups r') <= svc_count r').
  { apply (IH (String.length r')); [|reflexivity].
    simpl in L1, L2. lia. }
  simpl. lia.
Qed.

End TextFacts.

Section PassFacts.
Import Electron.

Lemma set_buffer_twice (a b : string) (c : Connection) :
  set_buffer a (set_buffer b c) = set_buffer a c.
Proof. reflexivity. Qed.

(** A pass over a buffer that holds no complete message and no marker does
    nothing. *)
Lemma quiet_pass (accept : bool) (c : Connection) :
  incomplete (buffer c) = true -> processMessages accept c = c.
Proof.
  intros H. apply andb_prop in H as (H & H5).
  apply negb_true_iff in H5.
  unfold end_tags in H. cbn [forallb] in H.
  apply andb_prop in H as (H1 & H). apply andb_prop in H as (H2 & H).
  apply andb_prop in H as (H3 & H). apply andb_prop in H as (H4 & _).
  apply negb_true_iff, includes_false in H1, H2, H3, H4.
  assert (A1 : hello c = c) by (unfold hello; now rewrite H1).
  assert (A2 : deviceStatus c = c) by (unfold deviceStatus; now rewrite H2).
  assert (A3 : observations accept c = c)
    by (unfold observations; now rewrite H3).
  assert (A4 : endOfTopic c = c) by (unfold endOfTopic; now rewrite H4).
  assert (A5 : escapeOrError c = c) by (unfold escapeOrError; now rewrite H5).
  unfold processMessages. cbv zeta. now rewrite A1, A2, A3, A4, A5.
Qed.

Lemma buffer_set_buffer (b : string) (c : Connection) :
  buffer (set_buffer b c) = b.
Proof. reflexivity. Qed.

Lemma onData_quiet (accept : bool) (data : string) (c : Connection) :
  incomplete (buffer c ++ data) = true ->
  onData accept data c = set_buffer (buffer c ++ data) c.
Proof.
  intros Q. unfold onData. apply quiet_pass.
  rewrite buffer_set_buffer. exact Q.
Qed.

Lemma fold_left_step {X Y : Type} (f : X -> Y -> X) (y : Y) (l : list Y)
  (x : X) :
  fold_left f (y :: l) x = fold_left f l (f x y).
Proof. reflexivity. Qed.

Lemma session_cons (accept : bool) (data : string) (chunks : list string)
  (c : Connection) :
  session accept (data :: chunks) c
  = session accept chunks (onData accept data c).
Proof.
  exact (fold_left_step (fun c data => onData accept data c) data chunks c).
Qed.

Lemma onData_after_quiet (accept : bool) (d1 d2 : string) (c : Connection) :
  onData accept d2 (set_buffer (buffer c ++ d1) c)
  = onData accept (d1 ++ d2) c.
Proof.
  unfold onData. f_equal.
  rewrite set_buffer_twice, buffer_set_buffer.
  f_equal. apply append_assoc.
Qed.

Lemma hello_buffer (c : Connection) :
  exists k, buffer (hello c) = drop k (buffer c).
Proof.
  unfold hello. destruct (indexOf _ _) as [i|]; [|now exists 0].
  now exists (i + 10).
Qed.

Lemma deviceStatus_buffer (c : Connection) :
  exists k, buffer (deviceStatus c) = drop k (buffer c).
Proof.
  unfold deviceStatus. destruct (indexOf _ _) as [i|]; [|now exists 0].
  exists (i + 10). connection_fields. now destruct (sentRequest c).
Qed.

Lemma observations_buffer (accept : bool) (c : Connection) :
  exists k, buffer (observations accept c) = drop k (buffer c).
Proof.
  unfold observations. destruct (indexOf _ _) as [i|]; [|now exists 0].
  now exists (i + 10).
Qed.

Lemma endOfTopic_buffer (c : Connection) :
  exists k, buffer (endOfTopic c) = drop k (buffer c).
Proof.
  unfold endOfTopic. destruct (indexOf _ _) as [i|]; [|now exists 0].
  now exists (i + 10).
Qed.

Lemma escapeOrError_buffer (c : Connection) :
  buffer (escapeOrError c) = buffer c.
Proof. unfold escapeOrError. now destruct (_ || _). Qed.

Lemma processMessages_buffer (accept : bool) (c : Connection) :
  exists k, buffer (processMessages accept c) = drop k (buffer c).
Proof.
  unfold processMessages. cbv zeta. rewrite escapeOrError_buffer.
  destruct (endOfTopic_buffer (observations accept (deviceStatus (hello c))))
    as (k4 & ->).
  destruct (observations_buffer accept (deviceStatus (hello c))) as (k3 & ->).
  destruct (deviceStatus_buffer (hello c)) as (k2 & ->).
  destruct (hello_buffer c) as (k1 & ->).
  rewrite !drop_drop. now eexists.
Qed.

(** What the steps do to the progress counter and to the collected
    messages. *)
Lemma counted_app (a b : list string) :
  counted (a ++ b) = counted a + counted b.
Proof. unfold counted. now rewrite map_app, list_sum_app. Qed.

Lemma hello_received (c : Connection) :
  observationsReceived (hello c) = observationsReceived c.
Proof. unfold hello. now destruct (indexOf _ _). Qed.

Lemma deviceStatus_received (c : Connection) :
  observationsReceived (deviceStatus c) = observationsReceived c.
Proof.
  unfold deviceStatus. destruct (indexOf _ _); [|reflexivity].
  connection_fields. now destruct (sentRequest c).
Qed.

Lemma endOfTopic_received (c : Connection) :
  observationsReceived (endOfTopic c) = observationsReceived c.
Proof. unfold endOfTopic. now destruct (indexOf _ _). Qed.

Lemma escapeOrError_received (c : Connection) :
  observationsReceived (escapeOrError c) = observationsReceived c.
Proof. unfold escapeOrError. now destruct (_ || _). Qed.

Lemma observations_tally (accept : bool) (c : Connection) :
  observationsReceived c = counted (rawObservations c) ->
  observationsReceived (observations accept c)
  = counted (rawObservations (observations accept c)).
Proof.
  intros T. unfold observations. destruct (indexOf _ _); [|exact T].
  connection_fields. rewrite counted_app, T. unfold counted. simpl. lia.
Qed.

Lemma processMessages_tally (accept : bool) (c : Connection) :
  observationsReceived c = counted (rawObservations c) ->
  observationsReceived (processMessages accept c)
  = counted (rawObservations (processMessages accept c)).
Proof.
  intros T. unfold processMessages. cbv zeta.
  rewrite escapeOrError_received, escapeOrError_raw,
          endOfTopic_received, endOfTopic_raw.
  apply observations_tally.
  now rewrite deviceStatus_received, deviceStatus_raw,
              hello_received, hello_raw.
Qed.

Lemma session_tally (accept : bool) (chunks : list string) (c : Connection) :
  observationsReceived c = counted (rawObservations c) ->
  observationsReceived (session accept chunks c)
  = counted (rawObservations (session accept chunks c)).
Proof.
  revert c. induction chunks as [|data chunks IH]; intros c T; [exact T|].
  rewrite session_cons. apply IH. unfold onData.
  apply processMessages_tally. exact T.
Qed.

Lemma parseObservationsXml_length (parseFloat : string -> number)
  (xml : string) :
  List.length (parseObservationsXml parseFloat xml) <= svc_count xml.
Proof.
  unfold parseObservationsXml.
  destruct (electron_loop parseFloat (svc_groups xml) []) as (out & -> & F).
  apply Forall2_length in F. simpl. rewrite <- F.
  etransitivity; [apply filter_length_le|apply svc_groups_le_count].
Qed.

Lemma parsedReadings_length (parseFloat : string -> number)
  (raw : list string) :
  List.length (parsedReadings parseFloat raw) <= counted raw.
Proof.
  unfold parsedReadings, counted.
  induction raw as [|m raw IH]; [simpl; lia|].
  cbn [flat_map map].
  change (list_sum (svc_count m :: map svc_count raw))
    with (svc_count m + list_sum (map svc_count raw)).
  rewrite length_app.
  pose proof (parseObservationsXml_length parseFloat m). lia.
Qed.

End PassFacts.

(** X3.  A chunk after which the buffer holds no complete message and no
    escape or error marker is only appended: nothing is written, shown or
    logged.  Hence a text delivered in two chunks, the first of which
    completes nothing, leaves the session as the same text delivered in one
    chunk does. *)
Theorem X3_split_delivery (accept : bool) (d1 d2 : string)
  (rest : list string) (c : Electron.Connection) :
  Electron.incomplete (Electron.buffer c ++ d1) = true ->
  Electron.onData accept d1 c
  = Electron.set_buffer (Electron.buffer c ++ d1) c
  /\ Electron.session accept (d1 :: d2 :: rest) c
     = Electron.session accept ((d1 ++ d2) :: rest) c.
Proof.
  intros Q. pose proof (onData_quiet accept d1 c Q) as A.
  split; [exact A|].
  rewrite !session_cons, A. f_equal. apply onData_after_quiet.
Qed.

Lemma X3_split_delivery_witness :
  Electron.onData false "<OBS.R01><SVC>" (Electron.handleConnection None)
  = Electron.set_buffer
      (Electron.buffer (Electron.handleConnection None) ++ "<OBS.R01><SVC>")
      (Electron.handleConnection None)
  /\ Electron.session false
       ["<OBS.R01><SVC>"; "</SVC></OBS.R01>"] (Electron.handleConnection None)
     = Electron.session false
         ["<OBS.R01><SVC>" ++ "</SVC></OBS.R01>"]
         (Electron.handleConnection None).
Proof.
  apply (X3_split_delivery false "<OBS.R01><SVC>" "</SVC></OBS.R01>" []
           (Electron.handleConnection None)).
  reflexivity.
Defined.

(** X4.  The buffer of a connection is always an end piece of the text
    received: the handler removes text from the front of the buffer only,
    and never changes or reorders what it has not yet consumed. *)
Theorem X4_buffer_is_suffix (accept : bool) (chunks : list string)
  (c : Electron.Connection) :
  exists k,
    Electron.buffer (Electron.session accept chunks c)
    = drop k (Electron.buffer c ++ fold_right append "" chunks).
Proof.
  revert c. induction chunks as [|data chunks IH]; intros c.
  - exists 0. simpl. now rewrite append_nil_r.
  - destruct (IH (Electron.onData accept data c)) as (k & E).
    rewrite session_cons, E. unfold Electron.onData.
    destruct (processMessages_buffer accept
                (Electron.set_buffer (Electron.buffer c ++ data) c))
      as (k1 & ->).
    cbn [Electron.buffer Electron.set_buffer fold_right].
    destruct (drop_append k1 (Electron.buffer c ++ data)
                (fold_right append "" chunks)) as (k2 & ->).
    rewrite drop_drop,
      (append_assoc (Electron.buffer c) data (fold_right append "" chunks)).
    now eexists.
Qed.

(** X5.  The progress counter of a session equals the number of opening
    group tags in the observation messages collected, and the readings that
    finalization extracts from those messages are never more than the
    counter shows. *)
Theorem X5_progress_bounds_readings (parseFloat : string -> number)
  (accept : bool) (chunks : list string)
  (info : option Electron.DeviceInfo) :
  let c := Electron.session accept chunks (Electron.handleConnection info) in
  Electron.observationsReceived c
  = Electron.counted (Electron.rawObservations c)
  /\ List.length (Electron.parsedReadings parseFloat
                    (Electron.rawObservations c))
     <= Electron.observationsReceived c.
Proof.
  intros c.
  assert (T : Electron.observationsReceived c
              = Electron.counted (Electron.rawObservations c))
    by (apply session_tally; reflexivity).
  split; [exact T|]. rewrite T. apply parsedReadings_length.
Qed.

(* ================================================================== *)
(** * Further properties of finalization *)
(* ================================================================== *)

Section FinalizeFacts.
Context {collator : Collator}.
Import Electron.

Lemma filter_all {X : Type} (f : X -> bool) (l : list X) :
  (forall x, In x l -> f x = true) -> filter f l = l.
Proof.
  induction l as [|a l IH]; intros H; simpl; [reflexivity|].
  rewrite (H a (or_introl eq_refl)). f_equal.
  apply IH. intros x I. apply H. now right.
Qed.

Lemma uniqueNew_nil (C : list Reading) : uniqueNew [] C = C.
Proof. unfold uniqueNew. apply filter_all. reflexivity. Qed.

Lemma allReadings_length (R C : list Reading) :
  List.length (allReadings R C)
  = List.length R + List.length (uniqueNew R C).
Proof.
  unfold allReadings, renumber.
  rewrite renumber_from_length, (Permutation_length (sort_perm _ _)).
  apply length_app.
Qed.

(** The event that ends [finalizeTransfer]. *)
Lemma finalizeTransfer_event (parseFloat : string -> number) (now : string)
  (w : WriteResult) (info : option DeviceInfo) (raw : list string)
  (file : DataFile) (e : RendererEvent) :
  In (to_renderer e) (snd (finalizeTransfer parseFloat now w info raw file)) ->
  e = transfer_complete
        (List.length (uniqueNew (stored_readings file)
                        (parsedReadings parseFloat raw)))
        (List.length (allReadings (stored_readings file)
                        (parsedReadings parseFloat raw)))
        (allReadings (stored_readings file) (parsedReadings parseFloat raw)).
Proof.
  unfold finalizeTransfer, stored_readings.
  destruct file, w; cbn [loadData saveData fst snd app In];
    intros H; repeat (destruct H as [H|H]; try discriminate);
    try contradiction; now inversion H.
Qed.

End FinalizeFacts.

(** X6.  When the data file is missing or cannot be read, finalization
    starts from no readings: what a successful write leaves in the file is
    exactly the readings parsed from the session, all of them, sorted and
    renumbered, each as JSON keeps it (a value that is an infinity is stored
    as [null]).  An unreadable file is logged and then overwritten. *)
Theorem X6_unreadable_file_is_replaced {collator : Collator}
  (parseFloat : string -> number) (now : string)
  (info : option Electron.DeviceInfo) (raw : list string) :
  let fresh :=
    Electron.renumber
      (sort Electron.byTimestamp (Electron.parsedReadings parseFloat raw)) in
  let unreadable :=
    Electron.finalizeTransfer parseFloat now Electron.Written info raw
      Electron.Unreadable in
  let missing :=
    Electron.finalizeTransfer parseFloat now Electron.Written info raw
      Electron.Missing in
  Electron.stored_readings (fst unreadable)
  = map Electron.JSON_reading fresh
  /\ In (Electron.console_error "Error loading data:") (snd unreadable)
  /\ Electron.stored_readings (fst missing)
     = map Electron.JSON_reading fresh.
Proof.
  cbv zeta. rewrite !finalizeTransfer_stored.
  change (Electron.stored_readings Electron.Unreadable) with (@nil Electron.Reading).
  change (Electron.stored_readings Electron.Missing) with (@nil Electron.Reading).
  unfold Electron.allReadings. rewrite uniqueNew_nil. cbn [app].
  split; [reflexivity|]. split; [|reflexivity].
  unfold Electron.finalizeTransfer.
  cbn [Electron.loadData Electron.saveData snd app In]. tauto.
Qed.

(** X7.  The counts of the transfer-complete event add up: the total is the
    number of readings the data file held before plus the number reported as
    new, it is the length of the list sent along, and the number reported as
    new is at most the number of readings parsed from the session. *)
Theorem X7_transfer_complete_totals {collator : Collator}
  (parseFloat : string -> number) (now : string) (w : Electron.WriteResult)
  (info : option Electron.DeviceInfo) (raw : list string)
  (file : Electron.DataFile) (n t : nat) (l : list Electron.Reading) :
  In (Electron.to_renderer (Electron.transfer_complete n t l))
     (snd (Electron.finalizeTransfer parseFloat now w info raw file)) ->
  t = List.length (Electron.stored_readings file) + n
  /\ List.length l = t
  /\ n <= List.length (Electron.parsedReadings parseFloat raw).
Proof.
  intros H. apply finalizeTransfer_event in H. inversion H; subst.
  split; [apply allReadings_length|]. split; [reflexivity|].
  apply filter_length_le.
Qed.

Lemma X7_transfer_complete_totals_witness :
  let file :=
    Electron.Stored
      {| Electron.device := None; Electron.lastSync := None;
         Electron.totalReadings := Some 1;
         Electron.readings := Some [Fixtures.reading Fixtures.jan1 2.5] |} in
  let parsed := Electron.parsedReadings decimalParseFloat [Fixtures.batchB] in
  let all :=
    Electron.allReadings (collator := codeUnitCollator)
      (Electron.stored_readings file) parsed in
  2 = List.length (Electron.stored_readings file) + 1
  /\ List.length all = 2
  /\ 1 <= List.length parsed.
Proof.
  intros file parsed all.
  apply (X7_transfer_complete_totals (collator := codeUnitCollator)
           decimalParseFloat "2026-01-03T00:00:00.000Z" Electron.Written
           None [Fixtures.batchB] file 1 2 all).
  vm_compute. right. right. left. reflexivity.
Defined.

(* ================================================================== *)
(** * Further properties of the mobile sync *)
(* ================================================================== *)

Section SyncFacts.
Import Mobile.
Variable parseFloat : string -> number.
Variable freshId : nat -> string.

Lemma control_ids_app (a b : list Effect) :
  control_ids (a ++ b) = (control_ids a ++ control_ids b)%list.
Proof. unfold control_ids. now rewrite sent_app, flat_map_app. Qed.

Lemma progressed_app (a b : list Effect) :
  progressed (a ++ b) = (progressed a ++ progressed b)%list.
Proof. apply flat_map_app. Qed.

Lemma sync_continues_refl (s : Sync) : continues s s.
Proof. exists []. rewrite app_nil_r. simpl. repeat split. lia. Qed.

Lemma sync_continues_trans (a b c : Sync) :
  continues a b -> continues b c -> continues a c.
Proof.
  intros (i1 & T1 & C1 & N1) (i2 & T2 & C2 & N2).
  exists (i1 ++ i2)%list.
  split; [now rewrite T2, T1, app_assoc|].
  split; [rewrite C2, C1, length_app; lia|].
  rewrite length_app, seq_app, map_app, <- N1. f_equal.
  rewrite N2 at 1. rewrite C1.
  replace (1 + List.length i1) with (List.length i1 + 1) by lia.
  rewrite (map_seq_shift (fun k => (controlId a + Z.of_nat k)%Z)).
  apply map_ext. intros k. lia.
Qed.

(** A step that sends one numbered message with the next identifier. *)
Lemma sync_continues_one (s s' : Sync) :
  control_ids (trace s') = (control_ids (trace s) ++ [controlId s + 1])%list%Z ->
  controlId s' = (controlId s + 1)%Z ->
  continues s s'.
Proof.
  intros T C. exists [(controlId s + 1)%Z]. repeat split; assumption.
Qed.

(** A step that sends no numbered message. *)
Lemma sync_continues_none (s s' : Sync) :
  control_ids (trace s') = control_ids (trace s) ->
  controlId s' = controlId s ->
  continues s s'.
Proof.
  intros T C. exists []. rewrite app_nil_r. simpl. repeat split; [assumption|lia].
Qed.

Lemma hello_sync_continues (s : Sync) : continues s (hello s).
Proof.
  unfold hello. destruct (indexOf _ _); [|apply sync_continues_refl].
  apply sync_continues_one; [|reflexivity].
  cbn [sendAck consume trace controlId]. rewrite !control_ids_app.
  cbn [control_ids sent flat_map control_id_of app]. now rewrite app_nil_r.
Qed.

Lemma endOfTopic_sync_continues (s : Sync) : continues s (endOfTopic s).
Proof.
  unfold endOfTopic. destruct (indexOf _ _); [|apply sync_continues_refl].
  apply sync_continues_one; [|reflexivity].
  cbn [sendAck consume trace controlId]. rewrite !control_ids_app.
  cbn [control_ids sent flat_map control_id_of app]. now rewrite app_nil_r.
Qed.

Lemma deviceStatus_sync_continues (s : Sync) : continues s (deviceStatus s).
Proof.
  unfold deviceStatus. destruct (indexOf _ _); [|apply sync_continues_refl].
  apply sync_continues_one; [|reflexivity].
  cbv zeta. cbn [sendAck consume trace controlId]. rewrite !control_ids_app.
  cbn [control_ids sent flat_map control_id_of app]. now rewrite !app_nil_r.
Qed.

Lemma observations_sync_continues (s : Sync) :
  continues s (observations parseFloat freshId s).
Proof.
  unfold observations. destruct (indexOf _ _); [|apply sync_continues_refl].
  apply sync_continues_one; [|reflexivity].
  cbv zeta. cbn [sendAck consume trace controlId]. rewrite !control_ids_app.
  cbn [control_ids sent flat_map control_id_of app]. now rewrite !app_nil_r.
Qed.

Lemma processMessages_sync_continues (s : Sync) :
  continues s (processMessages parseFloat freshId s).
Proof.
  unfold processMessages.
  eapply sync_continues_trans; [|apply endOfTopic_sync_continues].
  eapply sync_continues_trans; [|apply observations_sync_continues].
  eapply sync_continues_trans; [apply hello_sync_continues|].
  apply deviceStatus_sync_continues.
Qed.

Lemma feed_cons (data : string) (chunks : list string) (s : Sync) :
  feed parseFloat freshId (data :: chunks) s
  = feed parseFloat freshId chunks (handleData parseFloat freshId data s).
Proof.
  exact (fold_left_step (fun s data => handleData parseFloat freshId data s)
           data chunks s).
Qed.

Lemma handleData_sync_continues (data : string) (s : Sync) :
  continues s (handleData parseFloat freshId data s).
Proof.
  unfold handleData.
  eapply sync_continues_trans; [|apply processMessages_sync_continues].
  apply sync_continues_none; reflexivity.
Qed.

Lemma feed_sync_continues (chunks : list string) (s : Sync) :
  continues s (feed parseFloat freshId chunks s).
Proof.
  revert s. induction chunks as [|data chunks IH]; intros s.
  - apply sync_continues_refl.
  - rewrite feed_cons.
    eapply sync_continues_trans; [apply handleData_sync_continues|apply IH].
Qed.

Lemma sendRawBytes_sync_continues (bytes : list Z) (s : Sync) :
  continues s (sendRawBytes bytes s).
Proof.
  apply sync_continues_none; [|reflexivity].
  cbn [sendRawBytes trace]. rewrite control_ids_app.
  cbn [control_ids sent flat_map control_id_of app]. now rewrite app_nil_r.
Qed.

Lemma sendRequestObservations_sync_continues (s : Sync) :
  continues s (sendRequestObservations s).
Proof.
  apply sync_continues_one; [|reflexivity].
  cbn [sendRequestObservations trace controlId]. rewrite control_ids_app.
  cbn [control_ids sent flat_map control_id_of app]. reflexivity.
Qed.

Lemma syncData_sync_continues (n : Z) (early after1 after2 late : list string) :
  continues (syncStart n)
    (syncData parseFloat freshId n early after1 after2 late).
Proof.
  unfold syncData. cbv zeta.
  destruct (_ =? _)%nat.
  - eapply sync_continues_trans; [apply feed_sync_continues|].
    eapply sync_continues_trans; [apply sendRawBytes_sync_continues|].
    eapply sync_continues_trans; [apply feed_sync_continues|].
    eapply sync_continues_trans; [apply sendRawBytes_sync_continues|].
    eapply sync_continues_trans; [apply feed_sync_continues|].
    eapply sync_continues_trans;
      [apply sendRequestObservations_sync_continues|].
    apply feed_sync_continues.
  - eapply sync_continues_trans; apply feed_sync_continues.
Qed.

(** The rejecting acknowledgments and the progress reports keep pace. *)
Lemma rejects_snoc (t : list Effect) (e : Effect) :
  List.length (filter is_reject (sent (t ++ [e])))
  = List.length (filter is_reject (sent t))
    + match e with sendData (ACK_R01 _ AR) => 1 | _ => 0 end.
Proof.
  rewrite sent_app, filter_app, length_app. f_equal.
  destruct e as [[k [|]|k|b]| | |]; reflexivity.
Qed.

Lemma progressed_snoc (t : list Effect) (e : Effect) :
  List.length (progressed (t ++ [e]))
  = List.length (progressed t)
    + match e with onProgress _ => 1 | _ => 0 end.
Proof.
  rewrite progressed_app, length_app. f_equal. now destruct e.
Qed.

Ltac keeps_pace :=
  unfold rejects_every_batch;
  cbv zeta;
  cbn [sendAck consume sendRawBytes sendRequestObservations trace];
  rewrite ?rejects_snoc, ?progressed_snoc; lia.

Lemma hello_rejects (s : Sync) :
  rejects_every_batch s -> rejects_every_batch (hello s).
Proof.
  intros H. unfold hello. destruct (indexOf _ _); [|exact H].
  revert H. keeps_pace.
Qed.

Lemma deviceStatus_rejects (s : Sync) :
  rejects_every_batch s -> rejects_every_batch (deviceStatus s).
Proof.
  intros H. unfold deviceStatus. destruct (indexOf _ _); [|exact H].
  revert H. keeps_pace.
Qed.

Lemma observations_rejects (s : Sync) :
  rejects_every_batch s ->
  rejects_every_batch (observations parseFloat freshId s).
Proof.
  intros H. unfold observations. destruct (indexOf _ _); [|exact H].
  revert H. keeps_pace.
Qed.

Lemma endOfTopic_rejects (s : Sync) :
  rejects_every_batch s -> rejects_every_batch (endOfTopic s).
Proof.
  intros H. unfold endOfTopic. destruct (indexOf _ _); [|exact H].
  revert H. keeps_pace.
Qed.

Lemma handleData_rejects (data : string) (s : Sync) :
  rejects_every_batch s ->
  rejects_every_batch (handleData parseFloat freshId data s).
Proof.
  intros H. unfold handleData, processMessages.
  apply endOfTopic_rejects, observations_rejects, deviceStatus_rejects,
        hello_rejects.
  exact H.
Qed.

Lemma feed_rejects (chunks : list string) (s : Sync) :
  rejects_every_batch s ->
  rejects_every_batch (feed parseFloat freshId chunks s).
Proof.
  revert s. induction chunks as [|data chunks IH]; intros s H; [exact H|].
  rewrite feed_cons. apply IH, handleData_rejects, H.
Qed.

Lemma sendRawBytes_rejects (bytes : list Z) (s : Sync) :
  rejects_every_batch s -> rejects_every_batch (sendRawBytes bytes s).
Proof. keeps_pace. Qed.

Lemma sendRequestObservations_rejects (s : Sync) :
  rejects_every_batch s -> rejects_every_batch (sendRequestObservations s).
Proof. keeps_pace. Qed.

End SyncFacts.

(** X8.  The numbered messages of a mobile sync (acknowledgments and the
    request; the raw commands carry no number) carry consecutive control
    identifiers that continue from the service's counter, and the counter
    ends at the last identifier sent, so that the next sync continues the
    numbering. *)
Theorem X8_sync_control_ids (parseFloat : string -> number)
  (freshId : nat -> string) (n : Z) (early after1 after2 late : list string) :
  let s := Mobile.syncData parseFloat freshId n early after1 after2 late in
  let ids := Mobile.control_ids (Mobile.trace s) in
  ids = map (fun k => (n + Z.of_nat k)%Z) (seq 1 (List.length ids))
  /\ Mobile.controlId s = (n + Z.of_nat (List.length ids))%Z.
Proof.
  intros s ids.
  destruct (syncData_sync_continues parseFloat freshId n early after1 after2
              late) as (out & T & C & N).
  fold s in T, C. cbn [Mobile.syncStart Mobile.trace Mobile.controlId] in *.
  unfold ids. rewrite T. cbn [Mobile.control_ids Mobile.sent flat_map app].
  split; [exact N|exact C].
Qed.

(** X9.  The mobile sync rejects every observation batch: whatever the
    settings, it sends one rejecting acknowledgment for each batch it
    processes and no other rejecting acknowledgment. *)
Theorem X9_sync_rejects_every_batch (parseFloat : string -> number)
  (freshId : nat -> string) (n : Z) (early after1 after2 late : list string) :
  let s := Mobile.syncData parseFloat freshId n early after1 after2 late in
  List.length (filter Mobile.is_reject (Mobile.sent (Mobile.trace s)))
  = List.length (Mobile.progressed (Mobile.trace s)).
Proof.
  intros s. unfold s, Mobile.syncData. cbv zeta.
  assert (S0 : Mobile.rejects_every_batch (Mobile.syncStart n))
    by reflexivity.
  destruct (_ =? _)%nat.
  - apply feed_rejects, sendRequestObservations_rejects, feed_rejects,
          sendRawBytes_rejects, feed_rejects, sendRawBytes_rejects,
          feed_rejects, S0.
  - apply feed_rejects, feed_rejects, S0.
Qed.

(* ================================================================== *)
(** * Further properties of the mobile store *)
(* ================================================================== *)

Section StoreFacts.
Context {collator : Collator}.
Import Mobile.

Lemma mergedReadings_perm (R C : list INRReading) :
  Permutation (mergedReadings R C) (R ++ uniqueNew R C).
Proof. apply sort_perm. Qed.

Lemma mergedReadings_sorted (R C : list INRReading) :
  Sorted (ascending byTimestamp) (mergedReadings R C).
Proof. apply sort_sorted, mobile_byTimestamp_total. Qed.

Lemma mergedReadings_keeps (R C : list INRReading) (r : INRReading) :
  In r R -> In r (mergedReadings R C).
Proof.
  intros I. apply (Permutation_in _ (Permutation_sym (mergedReadings_perm R C))).
  apply in_or_app. now left.
Qed.

Lemma mergedReadings_from (R C : list INRReading) (r : INRReading) :
  In r (mergedReadings R C) -> In r R \/ In r C.
Proof.
  intros I. apply (Permutation_in _ (mergedReadings_perm R C)) in I.
  apply in_app_or in I as [I|I]; [now left|right].
  unfold uniqueNew in I. now apply filter_In in I.
Qed.

Lemma mergedReadings_covers (R C : list INRReading) (r : INRReading) :
  In r C ->
  exists r', In r' (mergedReadings R C) /\ timestamp r' = timestamp r.
Proof.
  intros I.
  destruct (Set_has (map timestamp R) (timestamp r)) eqn:E.
  - apply Set_has_In, in_map_iff in E as (r' & T & I').
    exists r'. split; [now apply mergedReadings_keeps|exact T].
  - exists r. split; [|reflexivity].
    apply (Permutation_in _ (Permutation_sym (mergedReadings_perm R C))).
    apply in_or_app. right. unfold uniqueNew. apply filter_In.
    split; [exact I|now rewrite E].
Qed.

Lemma mergedReadings_known (R C : list INRReading) :
  (forall r, In r C -> In (timestamp r) (map timestamp R)) ->
  Sorted (ascending byTimestamp) R ->
  mergedReadings R C = R.
Proof.
  intros K S. unfold mergedReadings, uniqueNew.
  rewrite filter_none, app_nil_r; [now apply sort_of_sorted|].
  intros r I. apply negb_false_iff, Set_has_In, K, I.
Qed.

End StoreFacts.

(** X10.  The mobile import merges: when the imported value has a readings
    array, every stored reading is kept, every imported reading is present
    or has a stored reading of its timestamp, nothing else appears, the
    result is sorted by timestamp, and the device and the time of the last
    sync are left as they were. *)
Theorem X10_mobile_import_merges {collator : Collator}
  (imported : Mobile.Imported) (l : list Mobile.INRReading)
  (w : Mobile.SetItem) (storage : option Mobile.AppData) :
  Mobile.imported_readings imported = Some l ->
  let stored := Mobile.loadData storage in
  exists data,
    Mobile.importData (Mobile.Value imported) w storage
    = (Mobile.Returns data, fst (Mobile.saveData w data))
    /\ (forall r, In r (Mobile.readings stored) -> In r (Mobile.readings data))
    /\ (forall r, In r l ->
          exists r', In r' (Mobile.readings data)
                     /\ Mobile.timestamp r' = Mobile.timestamp r)
    /\ (forall r, In r (Mobile.readings data) ->
          In r (Mobile.readings stored) \/ In r l)
    /\ Sorted (ascending Mobile.byTimestamp) (Mobile.readings data)
    /\ Mobile.device data = Mobile.device stored
    /\ Mobile.lastSync data = Mobile.lastSync stored.
Proof.
  intros E stored. unfold Mobile.importData. rewrite E. cbv zeta.
  eexists. split; [reflexivity|]. cbn [Mobile.readings Mobile.device
                                        Mobile.lastSync].
  split; [intros r; apply mergedReadings_keeps|].
  split; [intros r; apply mergedReadings_covers|].
  split; [intros r; apply mergedReadings_from|].
  split; [apply mergedReadings_sorted|]. split; reflexivity.
Qed.

Lemma X10_mobile_import_merges_witness :
  let old := Fixtures.mobileReading Fixtures.jan1 2.5 in
  let new := Fixtures.mobileReading Fixtures.jan2 3 in
  let storage :=
    Some {| Mobile.readings := [old]; Mobile.device := None;
            Mobile.lastSync := Some "2026-01-01T09:00:00.000Z";
            Mobile.settings := Mobile.DEFAULT_SETTINGS |} in
  let imported :=
    {| Mobile.imported_readings := Some [new];
       Mobile.imported_settings :=
         {| Mobile.has_targetRangeMin := None;
            Mobile.has_targetRangeMax := None;
            Mobile.has_syncToHealthKit := None;
            Mobile.has_autoConnect := None;
            Mobile.has_lastDeviceId := None |} |} in
  exists data,
    Mobile.importData (collator := codeUnitCollator)
      (Mobile.Value imported) Mobile.Resolved storage
    = (Mobile.Returns data, Some data)
    /\ Mobile.readings data = [old; new].
Proof.
  intros old new storage imported.
  destruct (X10_mobile_import_merges (collator := codeUnitCollator)
              imported [new] Mobile.Resolved storage eq_refl)
    as (data & E & _).
  exists data. pose proof (f_equal fst E) as F. vm_compute in F.
  injection F as <-. split; reflexivity.
Defined.

(** X11.  Importing readings whose timestamps are all stored already, such
    as the store's own export, changes no reading, provided the stored
    readings are in timestamp order (the order in which every merge leaves
    them). *)
Theorem X11_mobile_import_of_known_readings {collator : Collator}
  (imported : Mobile.Imported) (l : list Mobile.INRReading)
  (w : Mobile.SetItem) (storage : option Mobile.AppData) :
  Mobile.imported_readings imported = Some l ->
  (forall r, In r l ->
     In (Mobile.timestamp r)
        (map Mobile.timestamp (Mobile.readings (Mobile.loadData storage)))) ->
  Sorted (ascending Mobile.byTimestamp)
         (Mobile.readings (Mobile.loadData storage)) ->
  exists data,
    fst (Mobile.importData (Mobile.Value imported) w storage)
    = Mobile.Returns data
    /\ Mobile.readings data = Mobile.readings (Mobile.loadData storage).
Proof.
  intros E K S. unfold Mobile.importData. rewrite E. cbv zeta.
  eexists. split; [reflexivity|]. cbn [Mobile.readings].
  now apply mergedReadings_known.
Qed.

Lemma X11_mobile_import_of_known_readings_witness :
  let a := Fixtures.mobileReading Fixtures.jan1 2.5 in
  let b := Fixtures.mobileReading Fixtures.jan2 3 in
  let storage :=
    Some {| Mobile.readings := [a; b]; Mobile.device := None;
            Mobile.lastSync := None;
            Mobile.settings := Mobile.DEFAULT_SETTINGS |} in
  let imported :=
    {| Mobile.imported_readings := Some [b; a; b];
       Mobile.imported_settings :=
         {| Mobile.has_targetRangeMin := None;
            Mobile.has_targetRangeMax := None;
            Mobile.has_syncToHealthKit := None;
            Mobile.has_autoConnect := None;
            Mobile.has_lastDeviceId := None |} |} in
  exists data,
    fst (Mobile.importData (collator := codeUnitCollator)
           (Mobile.Value imported) Mobile.Resolved storage)
    = Mobile.Returns data
    /\ Mobile.readings data = [a; b].
Proof.
  intros a b storage imported.
  apply (X11_mobile_import_of_known_readings (collator := codeUnitCollator)
           imported [b; a; b] Mobile.Resolved storage eq_refl).
  - intros r [<-|[<-|[<-|[]]]]; vm_compute; tauto.
  - repeat constructor; vm_compute; discriminate.
Defined.

(* ================================================================== *)
(** * Further properties of the device scan *)
(* ================================================================== *)

Section ScanFacts.
Import Mobile.

Lemma scanFrom_reported (events : list ScanEvent) (found : list string) :
  let reported := fst (scanFrom found events) in
  NoDup (map fst reported)
  /\ forall i n, In (i, n) reported ->
       ~ In i found
       /\ In (scan_device i (Some n)) events
       /\ Boolean n = true /\ nameMatches n = true.
Proof.
  revert found. induction events as [|e events IH]; intros found.
  - split; [constructor|intros i n []].
  - destruct e as [message|i [n|]]; cbn [scanFrom].
    + split; [constructor|intros i n []].
    + destruct (Boolean n && negb (Set_has found i) && nameMatches n) eqn:T.
      * apply andb_prop in T as (T & M). apply andb_prop in T as (B & F).
        apply negb_true_iff in F.
        destruct (IH (i :: found)) as (D & P).
        destruct (scanFrom (i :: found) events) as (reported & err).
        cbn [fst map] in *. split.
        -- constructor; [|exact D].
           intros I. apply in_map_iff in I as ((i', n') & <- & I).
           destruct (P _ _ I) as (N & _). apply N. now left.
        -- intros j m [E|I].
           ++ inversion E; subst. repeat split; try assumption; [|now left].
              intros I. apply Set_has_In in I. congruence.
           ++ destruct (P _ _ I) as (N & E & Q). repeat split.
              ** intros I'. apply N. now right.
              ** now right.
              ** apply Q.
              ** apply Q.
      * destruct (IH found) as (D & P). split; [exact D|].
        intros j m I. destruct (P _ _ I) as (N & E & Q).
        repeat split; try assumption; try apply Q. now right.
    + destruct (IH found) as (D & P). split; [exact D|].
      intros j m I. destruct (P _ _ I) as (N & E & Q).
      repeat split; try assumption; try apply Q. now right.
Qed.

Lemma prefix_append (p q t : string) :
  prefix (p ++ q) t = true -> prefix p t = true.
Proof.
  revert t. induction p as [|a p IH]; intros t.
  - now destruct t.
  - destruct t as [|b t]; simpl; [discriminate|].
    destruct (ascii_dec a b); [apply IH|discriminate].
Qed.

(** A text that includes a pattern includes every beginning of it. *)
Lemma includes_beginning (s p q : string) :
  includes s (p ++ q) = true -> includes s p = true.
Proof.
  unfold includes. intros H.
  pose proof (indexOf_spec s (p ++ q)) as L.
  pose proof (indexOf_spec s p) as R.
  destruct (indexOf s (p ++ q)) as [i|]; [|discriminate].
  destruct (indexOf s p); [reflexivity|].
  destruct L as (L & _). apply prefix_append in L.
  unfold absent in R. now rewrite R in L.
Qed.

End ScanFacts.

(** X12.  A scan reports each device at most once, and only devices that
    were seen with a non-empty name that matches one of the name
    patterns. *)
Theorem X12_scan_reports_each_device_once (events : list Mobile.ScanEvent) :
  let reported := fst (Mobile.scanForDevices events) in
  NoDup (map fst reported)
  /\ forall i n, In (i, n) reported ->
       In (Mobile.scan_device i (Some n)) events
       /\ n <> ""
       /\ Mobile.nameMatches n = true.
Proof.
  intros reported.
  destruct (scanFrom_reported events []) as (D & P).
  split; [exact D|]. intros i n I. destruct (P i n I) as (_ & E & B & M).
  repeat split; try assumption. intros ->. discriminate.
Qed.

(** X13.  Of the six name patterns only four decide: a name matches exactly
    when its lower-case form includes coag, pt2, pt-2 or inr.  The patterns
    CoagSense and Coag-Sense match no name that Coag does not match. *)
Theorem X13_name_patterns (name : string) :
  Mobile.nameMatches name
  = let s := toLowerCase name in
    includes s "coag" || includes s "pt2" || includes s "pt-2"
    || includes s "inr".
Proof.
  unfold Mobile.nameMatches, Mobile.DEVICE_NAME_PATTERNS. cbn [existsb].
  change (toLowerCase "Coag") with "coag".
  change (toLowerCase "PT2") with "pt2".
  change (toLowerCase "PT-2") with "pt-2".
  change (toLowerCase "CoagSense") with "coagsense".
  change (toLowerCase "Coag-Sense") with "coag-sense".
  change (toLowerCase "INR") with "inr".
  cbv zeta. generalize (toLowerCase name). intros s.
  pose proof (includes_beginning s "coag" "sense") as A.
  pose proof (includes_beginning s "coag" "-sense") as B.
  change ("coag" ++ "sense") with "coagsense" in A.
  change ("coag" ++ "-sense") with "coag-sense" in B.
  destruct (includes s "coag").
  - reflexivity.
  - destruct (includes s "coagsense"); [now discriminate A|].
    destruct (includes s "coag-sense"); [now discriminate B|].
    destruct (includes s "pt2"), (includes s "pt-2"), (includes s "inr");
      reflexivity.
Qed.

(* ================================================================== *)
(** * Further properties of the statistics *)
(* ================================================================== *)

Section StatisticsFacts.
Import Mobile.

(** Comparisons of numbers that are not [NaN] are total. *)
Lemma below_ge (x y : number) :
  isNaN x = false -> isNaN y = false -> below x y = negb (ge x y).
Proof.
  unfold below, ge, compare.
  destruct x as [|[|]|a|], y as [|[|]|b|]; try discriminate; try reflexivity;
    intros _ _.
  - now destruct (a ?= b)%Q.
  - now destruct (a ?= 0)%Q.
  - now destruct (0 ?= b)%Q.
Qed.

Lemma gt_le (x y : number) :
  isNaN x = false -> isNaN y = false -> gt x y = negb (le x y).
Proof.
  unfold gt, le, compare.
  destruct x as [|[|]|a|], y as [|[|]|b|]; try discriminate; try reflexivity;
    intros _ _.
  - now destruct (a ?= b)%Q.
  - now destruct (a ?= 0)%Q.
  - now destruct (0 ?= b)%Q.
Qed.

Lemma sub_margin (x : number) (q : Q) :
  isNaN x = false -> isNaN (sub x (Num q)) = false.
Proof. now destruct x. Qed.

Lemma add_margin (x : number) (q : Q) :
  isNaN x = false -> isNaN (add x (Num q)) = false.
Proof. now destruct x. Qed.

(** [Math.round] of a share of a hundred. *)
Lemma percent_bounds (count total : nat) :
  0 < total -> count <= total -> (0 <= percent count total <= 100)%Z.
Proof.
  intros P L. unfold percent, Math_round.
  set (q := ((inject_Z (Z.of_nat count) / inject_Z (Z.of_nat total)) * 100)%Q).
  assert (T : (0 < inject_Z (Z.of_nat total))%Q).
  { change 0%Q with (inject_Z 0). rewrite <- Zlt_Qlt. lia. }
  assert (Q0 : (0 <= q)%Q).
  { unfold q. apply Qmult_le_0_compat; [|discriminate].
    apply Qle_shift_div_l; [exact T|]. rewrite Qmult_0_l.
    change 0%Q with (inject_Z 0). rewrite <- Zle_Qle. lia. }
  assert (Q1 : (q <= 100)%Q).
  { unfold q.
    setoid_replace 100%Q with (1 * 100)%Q at 2 by reflexivity.
    apply Qmult_le_compat_r; [|discriminate].
    apply Qle_shift_div_r; [exact T|]. rewrite Qmult_1_l.
    rewrite <- Zle_Qle. lia. }
  split.
  - change 0%Z with (Qfloor (0 + (1 # 2))). apply Qfloor_resp_le.
    now apply Qplus_le_l.
  - change 100%Z with (Qfloor (100 + (1 # 2))). apply Qfloor_resp_le.
    now apply Qplus_le_l.
Qed.

Section Order.
Context {collator : Collator}.

Lemma localeCompare_refl (a : string) : (localeCompare a a <= 0)%Z.
Proof. pose proof (localeCompare_antisym a a). lia. Qed.

Lemma newestFirst_total (a b : INRReading) :
  (0 < newestFirst a b)%Z -> (newestFirst b a <= 0)%Z.
Proof. apply localeCompare_total. Qed.

Lemma byTimestamp_transitive :
  Relations_1.Transitive (ascending byTimestamp).
Proof.
  intros a b c. unfold ascending, byTimestamp. apply localeCompare_trans.
Qed.

(** The last element of a sorted array stands after every element. *)
Lemma latest_of_sorted (l : list INRReading) :
  StronglySorted (ascending byTimestamp) l ->
  match latestReading l with
  | None => l = []
  | Some r => In r l /\ Forall (fun r' => ascending byTimestamp r' r) l
  end.
Proof.
  unfold latestReading.
  induction 1 as [|a l SS IH F]; [reflexivity|].
  destruct l as [|b l'].
  - simpl. split; [now left|]. constructor; [|constructor].
    apply localeCompare_refl.
  - replace (List.length (a :: b :: l') - 1)
      with (S (List.length (b :: l') - 1)) by (simpl; lia).
    cbn [nth_error].
    destruct (nth_error (b :: l') (List.length (b :: l') - 1)) as [r|];
      [|discriminate].
    destruct IH as (I & A). split; [now right|].
    constructor; [|exact A].
    rewrite Forall_forall in F. now apply F.
Qed.

End Order.

Lemma avgINR_positive_only (l : list INRReading) :
  avgINR l = avgINR (filter (fun r => gt (inr r) zero) l).
Proof.
  unfold avgINR.
  assert (E : filter (fun v => gt v zero) (map inr l)
              = filter (fun v => gt v zero)
                  (map inr (filter (fun r => gt (inr r) zero) l))).
  { induction l as [|r l IH]; [reflexivity|]. simpl.
    destruct (gt (inr r) zero) eqn:G; simpl; rewrite ?G, IH; reflexivity. }
  now rewrite <- E.
Qed.

End StatisticsFacts.

(** X14.  The colour of a reading in the report and on the dashboard.  With
    a target range that is a pair of numbers, the two screens give a reading
    the same colour, except a reading whose value is not a number: the
    report shows it yellow and the dashboard red. *)
Theorem X14_colours_agree (settings : Mobile.Settings) (inr : number) :
  isNaN (Mobile.targetRangeMin settings) = false ->
  isNaN (Mobile.targetRangeMax settings) = false ->
  Mobile.reportColour (Mobile.getColor settings inr)
  = (if isNaN inr then Some Mobile.yellow
     else Mobile.dashboardColour (Mobile.getINRColor settings inr))
  /\ Mobile.dashboardColour (Mobile.getINRColor settings NaN)
     = Some Mobile.red.
Proof.
  intros Lo Hi. split; [|reflexivity].
  unfold Mobile.getColor, Mobile.getINRColor.
  destruct (isNaN inr) eqn:N.
  - destruct inr; try discriminate. reflexivity.
  - rewrite (below_ge inr _ N (sub_margin _ _ Lo)),
            (gt_le inr _ N (add_margin _ _ Hi)).
    destruct (ge inr (Mobile.targetRangeMin settings)
              && le inr (Mobile.targetRangeMax settings)); [reflexivity|].
    destruct (ge inr _), (le inr _); reflexivity.
Qed.

Lemma X14_colours_agree_witness :
  Mobile.reportColour (Mobile.getColor Mobile.DEFAULT_SETTINGS (Num 3.2))
  = Mobile.dashboardColour
      (Mobile.getINRColor Mobile.DEFAULT_SETTINGS (Num 3.2))
  /\ Mobile.dashboardColour (Mobile.getINRColor Mobile.DEFAULT_SETTINGS NaN)
     = Some Mobile.red.
Proof.
  apply (X14_colours_agree Mobile.DEFAULT_SETTINGS (Num 3.2));
    reflexivity.
Defined.

(** X15.  The in-range percentage of the report and of the dashboard is the
    same number, and it always lies between 0 and 100. *)
Theorem X15_percentage_bounds (readings : list Mobile.INRReading)
  (settings : Mobile.Settings) :
  Mobile.ttr readings settings = Mobile.inRangePercent readings settings
  /\ (0 <= Mobile.ttr readings settings <= 100)%Z.
Proof.
  split; [reflexivity|]. unfold Mobile.ttr.
  destruct (0 <? List.length readings)%nat eqn:P; [|lia].
  apply Nat.ltb_lt in P.
  apply percent_bounds; [exact P|apply filter_length_le].
Qed.

(** X16.  The rows of the report are the readings given, each exactly as
    often as it was given, ordered from the newest timestamp to the
    oldest. *)
Theorem X16_report_rows_newest_first {collator : Collator}
  (readings : list Mobile.INRReading) :
  Permutation (Mobile.sortedReadings readings) readings
  /\ Sorted
       (fun a b =>
          (localeCompare (Mobile.timestamp b) (Mobile.timestamp a) <= 0)%Z)
       (Mobile.sortedReadings readings).
Proof.
  split; [apply sort_perm|].
  apply (sort_sorted Mobile.newestFirst newestFirst_total).
Qed.

(** X17.  After readings were added to the store, the reading the dashboard
    shows as the latest is a stored reading whose timestamp no stored
    reading exceeds; it shows none only when nothing is stored. *)
Theorem X17_latest_reading_is_newest {collator : Collator}
  (now : string) (w : Mobile.SetItem)
  (newReadings : list Mobile.INRReading) (storage : option Mobile.AppData) :
  let data := fst (fst (Mobile.addReadings now w newReadings storage)) in
  match Mobile.latestReading (Mobile.readings data) with
  | None => Mobile.readings data = []
  | Some latest =>
      In latest (Mobile.readings data)
      /\ forall r, In r (Mobile.readings data) ->
           (localeCompare (Mobile.timestamp r) (Mobile.timestamp latest)
            <= 0)%Z
  end.
Proof.
  intros data.
  assert (S : StronglySorted (ascending Mobile.byTimestamp)
                (Mobile.readings data)).
  { apply Sorted_StronglySorted; [apply byTimestamp_transitive|].
    unfold data, Mobile.addReadings. cbv zeta.
    destruct (Mobile.saveData w _). cbn [fst Mobile.readings].
    apply sort_sorted, mobile_byTimestamp_total. }
  apply latest_of_sorted in S.
  destruct (Mobile.latestReading (Mobile.readings data)); [|exact S].
  destruct S as (I & F). split; [exact I|].
  rewrite Forall_forall in F. exact F.
Qed.

(** X18.  The average shown in the report takes the readings with a value
    above zero only: it is unavailable exactly when there is none, and a
    reading whose value is not above zero never changes it. *)
Theorem X18_average_of_positive_values (before after : list Mobile.INRReading)
  (r : Mobile.INRReading) :
  gt (Mobile.inr r) zero = false ->
  Mobile.avgINR (before ++ r :: after) = Mobile.avgINR (before ++ after)
  /\ (Mobile.avgINR (before ++ after) = None
      <-> forall x, In x (before ++ after) -> gt (Mobile.inr x) zero = false).
Proof.
  intros G. split.
  - rewrite (avgINR_positive_only (before ++ r :: after)),
            (avgINR_positive_only (before ++ after)).
    rewrite !filter_app. simpl. now rewrite G.
  - unfold Mobile.avgINR.
    set (vs := filter (fun v => gt v zero) (map Mobile.inr (before ++ after))).
    assert (V : vs = [] <->
                forall x, In x (before ++ after) ->
                          gt (Mobile.inr x) zero = false).
    { unfold vs. generalize (before ++ after)%list. intros l.
      induction l as [|a l IH]; simpl.
      - split; [intros _ x []|reflexivity].
      - destruct (gt (Mobile.inr a) zero) eqn:A.
        + split; [discriminate|]. intros H.
          rewrite (H a (or_introl eq_refl)) in A. discriminate.
        + rewrite IH. split.
          * intros H x [<-|I]; [exact A|now apply H].
          * intros H x I. apply H. now right. }
    rewrite <- V. destruct vs; simpl; split; try discriminate; reflexivity.
Qed.

Lemma X18_average_of_positive_values_witness :
  Mobile.avgINR
    ([Fixtures.mobileReading Fixtures.jan1 2.5]
       ++ Fixtures.mobileReading Fixtures.jan2 0 :: [])
  = Mobile.avgINR ([Fixtures.mobileReading Fixtures.jan1 2.5] ++ []).
Proof.
  apply (X18_average_of_positive_values
           [Fixtures.mobileReading Fixtures.jan1 2.5] []
           (Fixtures.mobileReading Fixtures.jan2 0)).
  reflexivity.
Defined.

(* ================================================================== *)
(** * Further properties of the extractor and of the error signal *)
(* ================================================================== *)

Section OutputFacts.
Variable parseFloat : string -> number.

Lemma Forall2_Forall_right {X Y : Type} (R : X -> Y -> Prop)
  (A : X -> Prop) (B : Y -> Prop) (l : list X) (out : list Y) :
  (forall x y, A x -> R x y -> B y) ->
  Forall A l -> Forall2 R l out -> Forall B out.
Proof.
  intros H FA F2. induction F2 as [|x y l out Rxy F2 IH]; [constructor|].
  inversion FA; subst. constructor; [now apply (H x)|now apply IH].
Qed.

Lemma Forall_filter {X : Type} (f : X -> bool) (l : list X) :
  Forall (fun x => f x = true) (filter f l).
Proof. apply Forall_forall. intros x I. now apply filter_In in I. Qed.

(** The fields of a reading made from an observation that passed the
    validity test. *)
Lemma electron_reading_fields (o : Electron.Obs) (r : Electron.Reading) :
  Electron.valid o = true -> Electron.reading_of o = Some r ->
  Boolean (Electron.timestamp r) = true
  /\ gt (Electron.inr r) zero = true
  /\ gt (Electron.pt_seconds r) zero = true.
Proof.
  unfold Electron.valid, Electron.reading_of.
  destruct (Electron.obs_timestamp o) as [ts|]; [|discriminate].
  destruct (Electron.obs_inr o) as [i|]; [|discriminate].
  destruct (Electron.obs_pt_seconds o) as [pt|]; [|discriminate].
  intros V E. inversion E; subst. cbn [Electron.timestamp Electron.inr
                                        Electron.pt_seconds].
  apply andb_prop in V as (V & G2). apply andb_prop in V as (V & _).
  apply andb_prop in V as (V & G1). apply andb_prop in V as (B & _).
  repeat split; assumption.
Qed.

Lemma mobile_reading_fields (p : Mobile.PartialReading)
  (r : Mobile.INRReading) :
  Mobile.valid p = true -> Mobile.reading_of p = Some r ->
  Boolean (Mobile.timestamp r) = true
  /\ gt (Mobile.inr r) zero = true
  /\ gt (Mobile.pt_seconds r) zero = true.
Proof.
  unfold Mobile.valid, Mobile.reading_of.
  destruct (Mobile.p_timestamp p) as [ts|]; [|discriminate].
  destruct (Mobile.p_inr p) as [i|]; [|discriminate].
  destruct (Mobile.p_pt_seconds p) as [pt|]; [|discriminate].
  intros V E. inversion E; subst. cbn [Mobile.timestamp Mobile.inr
                                        Mobile.pt_seconds].
  apply andb_prop in V as (V & G2). apply andb_prop in V as (V & _).
  apply andb_prop in V as (V & G1). apply andb_prop in V as (B & _).
  repeat split; assumption.
Qed.

Lemma electron_output_fields (xml : string) :
  Forall (fun r => Boolean (Electron.timestamp r) = true
                   /\ gt (Electron.inr r) zero = true
                   /\ gt (Electron.pt_seconds r) zero = true)
         (Electron.parseObservationsXml parseFloat xml).
Proof.
  unfold Electron.parseObservationsXml.
  destruct (electron_loop parseFloat (svc_groups xml) []) as (out & -> & F).
  cbn [app].
  refine (Forall2_Forall_right _ _ _ _ _ _ (Forall_filter _ _) F).
  intros svc r. apply electron_reading_fields.
Qed.

Lemma mobile_output_fields (freshId : nat -> string) (xml : string) :
  Forall Mobile.extracted (Mobile.parseObservationsXml parseFloat freshId xml).
Proof.
  unfold Mobile.parseObservationsXml.
  destruct (mobile_loop parseFloat freshId (svc_groups xml) 0 [])
    as (out & -> & F).
  cbn [snd app].
  refine (Forall2_Forall_right _ _ _ _ _ _ (Forall_filter _ _) F).
  intros g r. apply mobile_reading_fields.
Qed.

Section Collected.
Variable freshId : nat -> string.

Lemma processMessages_collected (s : Mobile.Sync) :
  Forall Mobile.extracted (Mobile.collected s) ->
  Forall Mobile.extracted (Mobile.collected (Mobile.processMessages parseFloat freshId s)).
Proof.
  intros H. unfold Mobile.processMessages.
  assert (H1 : Forall Mobile.extracted (Mobile.collected (Mobile.hello s))).
  { unfold Mobile.hello. now destruct (indexOf _ _). }
  assert (H2 : Forall Mobile.extracted
                 (Mobile.collected (Mobile.deviceStatus (Mobile.hello s)))).
  { unfold Mobile.deviceStatus. now destruct (indexOf _ _). }
  set (s2 := Mobile.deviceStatus (Mobile.hello s)) in *.
  assert (H3 : Forall Mobile.extracted
                 (Mobile.collected
                    (Mobile.observations parseFloat freshId s2))).
  { unfold Mobile.observations. destruct (indexOf _ _); [|exact H2].
    cbv zeta. cbn [Mobile.collected Mobile.sendAck Mobile.consume].
    apply Forall_app. split; [exact H2|apply mobile_output_fields]. }
  unfold Mobile.endOfTopic. now destruct (indexOf _ _).
Qed.

Lemma feed_collected (chunks : list string) (s : Mobile.Sync) :
  Forall Mobile.extracted (Mobile.collected s) ->
  Forall Mobile.extracted (Mobile.collected (Mobile.feed parseFloat freshId chunks s)).
Proof.
  revert s. induction chunks as [|data chunks IH]; intros s H; [exact H|].
  rewrite feed_cons. apply IH. unfold Mobile.handleData.
  apply processMessages_collected. exact H.
Qed.

Lemma syncData_collected (n : Z) (early after1 after2 late : list string) :
  Forall Mobile.extracted
    (Mobile.collected
       (Mobile.syncData parseFloat freshId n early after1 after2 late)).
Proof.
  unfold Mobile.syncData. cbv zeta.
  assert (S0 : Forall Mobile.extracted (Mobile.collected (Mobile.syncStart n)))
    by constructor.
  destruct (_ =? _)%nat.
  - apply feed_collected.
    change (Mobile.collected (Mobile.sendRequestObservations ?s))
      with (Mobile.collected s).
    apply feed_collected.
    change (Mobile.collected (Mobile.sendRawBytes ?b ?s))
      with (Mobile.collected s).
    apply feed_collected.
    change (Mobile.collected (Mobile.sendRawBytes ?b ?s))
      with (Mobile.collected s).
    apply feed_collected, S0.
  - apply feed_collected, feed_collected, S0.
Qed.

End Collected.

End OutputFacts.

Section MarkerFacts.
Import Electron.

Lemma prefix_extend (p x d : string) :
  prefix p x = true -> prefix p (x ++ d) = true.
Proof.
  revert x. induction p as [|a p IH]; intros x.
  - intros _. now destruct (x ++ d).
  - destruct x as [|b x]; simpl; [discriminate|].
    destruct (ascii_dec a b); [apply IH|discriminate].
Qed.

Lemma drop_append_within (i : nat) (b d : string) :
  i <= String.length b -> drop i (b ++ d) = drop i b ++ d.
Proof.
  revert b. induction i as [|i IH]; intros b L; [reflexivity|].
  destruct b as [|a b]; simpl in *; [lia|]. apply IH. lia.
Qed.

(** What a text includes, every longer text includes. *)
Lemma includes_append (b d p : string) :
  includes b p = true -> includes (b ++ d) p = true.
Proof.
  unfold includes. intros H.
  pose proof (indexOf_spec b p) as L.
  pose proof (indexOf_spec (b ++ d) p) as R.
  destruct (indexOf b p) as [i|]; [|discriminate].
  destruct (indexOf (b ++ d) p); [reflexivity|].
  destruct L as (L & B & _). unfold absent in R.
  specialize (R i). rewrite (drop_append_within i b d B) in R.
  now rewrite (prefix_extend _ _ d L) in R.
Qed.

Lemma no_end_tag_pass (accept : bool) (c : Connection) :
  forallb (fun tag => negb (includes (buffer c) tag)) end_tags = true ->
  processMessages accept c = escapeOrError c.
Proof.
  intros H. unfold end_tags in H. cbn [forallb] in H.
  apply andb_prop in H as (H1 & H). apply andb_prop in H as (H2 & H).
  apply andb_prop in H as (H3 & H). apply andb_prop in H as (H4 & _).
  apply negb_true_iff, includes_false in H1, H2, H3, H4.
  assert (A1 : hello c = c) by (unfold hello; now rewrite H1).
  assert (A2 : deviceStatus c = c) by (unfold deviceStatus; now rewrite H2).
  assert (A3 : observations accept c = c)
    by (unfold observations; now rewrite H3).
  assert (A4 : endOfTopic c = c) by (unfold endOfTopic; now rewrite H4).
  unfold processMessages. cbv zeta. now rewrite A1, A2, A3, A4.
Qed.

End MarkerFacts.

(** X19.  Every reading that leaves the extractor has a non-empty timestamp,
    a value above zero and a clotting time above zero (so neither is NaN).
    This holds for the readings finalization parses from the messages of an
    Electron session and for the readings a mobile sync resolves with. *)
Theorem X19_collected_readings_are_valid (parseFloat : string -> number)
  (freshId : nat -> string) (raw : list string) (n : Z)
  (early after1 after2 late : list string) :
  Forall (fun r => Electron.timestamp r <> ""
                   /\ gt (Electron.inr r) zero = true
                   /\ gt (Electron.pt_seconds r) zero = true)
         (Electron.parsedReadings parseFloat raw)
  /\ Forall (fun r => Mobile.timestamp r <> ""
                      /\ gt (Mobile.inr r) zero = true
                      /\ gt (Mobile.pt_seconds r) zero = true)
            (Mobile.collected
               (Mobile.syncData parseFloat freshId n early after1 after2
                  late)).
Proof.
  split.
  - unfold Electron.parsedReadings. apply Forall_flat_map, Forall_forall.
    intros xml _.
    eapply Forall_impl; [|apply electron_output_fields].
    intros r (B & G). split; [|exact G]. intros E. now rewrite E in B.
  - eapply Forall_impl; [|apply syncData_collected].
    intros r (B & G). split; [|exact G]. intros E. now rewrite E in B.
Qed.

(** X20.  An escape or error marker is never consumed.  While the buffer
    holds one and no message is completed, every further chunk is appended
    and reported to the renderer as an error again; nothing is written to
    the socket. *)
Theorem X20_error_marker_is_reported_again (accept : bool) (data : string)
  (c : Electron.Connection) :
  includes (Electron.buffer c) "</ESC.R01>"
  || includes (Electron.buffer c) "<ERR" = true ->
  forallb (fun tag => negb (includes (Electron.buffer c ++ data) tag))
          Electron.end_tags = true ->
  let c' := Electron.onData accept data c in
  Electron.buffer c' = Electron.buffer c ++ data
  /\ Electron.shown (Electron.trace c')
     = (Electron.shown (Electron.trace c)
        ++ [Electron.error_signal "Device sent escape/error signal"])%list
  /\ Electron.written (Electron.trace c') = Electron.written (Electron.trace c).
Proof.
  intros M T c'. unfold c', Electron.onData.
  rewrite no_end_tag_pass by (rewrite buffer_set_buffer; exact T).
  unfold Electron.escapeOrError. rewrite buffer_set_buffer.
  assert (M' : includes (Electron.buffer c ++ data) "</ESC.R01>"
               || includes (Electron.buffer c ++ data) "<ERR" = true).
  { apply orb_true_iff. apply orb_true_iff in M as [M|M];
      [left|right]; now apply includes_append. }
  rewrite M'. connection_fields. split; [reflexivity|].
  unfold Electron.shown, Electron.written. rewrite !flat_map_app.
  cbn [flat_map app]. rewrite !app_nil_r. split; reflexivity.
Qed.

Lemma X20_error_marker_is_reported_again_witness :
  let c := Electron.onData false "<ERR>" (Electron.handleConnection None) in
  Electron.shown (Electron.trace (Electron.onData false "<HEL.R01>" c))
  = [Electron.device_connected;
     Electron.error_signal "Device sent escape/error signal";
     Electron.error_signal "Device sent escape/error signal"].
Proof.
  intros c.
  destruct (X20_error_marker_is_reported_again false "<HEL.R01>" c
              eq_refl eq_refl) as (_ & S & _).
  rewrite S. reflexivity.
Defined.

(** X21.  The address shown for the device to connect to is the address of
    the first network interface entry that is IPv4 and not internal, in the
    order of the interface names and of the entries under each name; it is
    the loopback address only when there is no such entry. *)
Theorem X21_local_address (interfaces : list (string * list Electron.Iface)) :
  Electron.getLocalIp interfaces
  = match filter (fun iface => String.eqb (Electron.family iface) "IPv4"
                               && negb (Electron.internal iface))
                 (flat_map snd interfaces) with
    | iface :: _ => Electron.address iface
    | [] => "127.0.0.1"
    end.
Proof.
  induction interfaces as [|(name, ifaces) rest IH]; [reflexivity|].
  cbn [Electron.getLocalIp flat_map snd]. rewrite filter_app.
  induction ifaces as [|iface ifaces IHi]; cbn [Electron.firstExternal filter app].
  - exact IH.
  - destruct (String.eqb (Electron.family iface) "IPv4"
              && negb (Electron.internal iface)); [reflexivity|exact IHi].
Qed.

(* ================================================================== *)
(** * Further properties of the import, clear and settings handlers *)
(* ================================================================== *)

Section StoredFacts.

Lemma mobile_JSON_reading_idem (r : Mobile.INRReading) :
  Mobile.JSON_reading (Mobile.JSON_reading r) = Mobile.JSON_reading r.
Proof.
  unfold Mobile.JSON_reading.
  cbn [Mobile.id Mobile.timestamp Mobile.inr Mobile.pt_seconds Mobile.status
       Mobile.notes Mobile.syncedToHealth].
  now rewrite !JSON_number_idem.
Qed.

Lemma mobile_JSON_settings_idem (s : Mobile.Settings) :
  Mobile.JSON_settings (Mobile.JSON_settings s) = Mobile.JSON_settings s.
Proof.
  unfold Mobile.JSON_settings.
  cbn [Mobile.targetRangeMin Mobile.targetRangeMax Mobile.syncToHealthKit
       Mobile.autoConnect Mobile.lastDeviceId].
  now rewrite !JSON_number_idem.
Qed.

Lemma mobile_JSON_data_idem (data : Mobile.AppData) :
  Mobile.JSON_data (Mobile.JSON_data data) = Mobile.JSON_data data.
Proof.
  unfold Mobile.JSON_data.
  cbn [Mobile.readings Mobile.device Mobile.lastSync Mobile.settings].
  rewrite mobile_JSON_settings_idem, map_map. f_equal.
  apply map_ext, mobile_JSON_reading_idem.
Qed.

(** What is loaded from the storage is as JSON leaves it. *)
Lemma mobile_loadData_JSON (storage : option Mobile.AppData) :
  Mobile.JSON_data (Mobile.loadData storage) = Mobile.loadData storage.
Proof.
  destruct storage as [data|]; [apply mobile_JSON_data_idem|reflexivity].
Qed.

(** A number above zero and below another number is a rational. *)
Lemma bounded_is_rational (x y : number) :
  gt x zero = true -> below x y = true -> JSON_number x = x.
Proof.
  destruct x as [|[|]|q|]; try reflexivity; try discriminate.
  intros _. now destruct y as [|[|]|b|].
Qed.

Lemma le_gt (x y : number) :
  isNaN x = false -> isNaN y = false -> le x y = negb (gt x y).
Proof. intros X Y. rewrite (gt_le x y X Y). now destruct (le x y). Qed.

Lemma ge_below (x y : number) :
  isNaN x = false -> isNaN y = false -> ge x y = negb (below x y).
Proof. intros X Y. rewrite (below_ge x y X Y). now destruct (ge x y). Qed.

Lemma gt_not_NaN (x y : number) : gt x y = true -> isNaN x = false.
Proof. now destruct x. Qed.

(** The test of [handleSaveRange] rejects exactly the texts that are not
    two numbers above zero with the first below the second. *)
Lemma range_test (lo hi : number) :
  isNaN lo || isNaN hi || le lo zero || le hi zero || ge lo hi = false
  <-> gt lo zero = true /\ gt hi zero = true /\ below lo hi = true.
Proof.
  assert (Z0 : isNaN zero = false) by reflexivity. split.
  - intros G.
    apply orb_false_iff in G as (G & G5). apply orb_false_iff in G as (G & G4).
    apply orb_false_iff in G as (G & G3). apply orb_false_iff in G as (G1 & G2).
    rewrite (gt_le lo zero G1 Z0), (gt_le hi zero G2 Z0),
            (below_ge lo hi G1 G2), G3, G4, G5. repeat split.
  - intros (A & B & C).
    pose proof (gt_not_NaN _ _ A) as G1. pose proof (gt_not_NaN _ _ B) as G2.
    rewrite G1, G2, (le_gt lo zero G1 Z0), (le_gt hi zero G2 Z0),
            (ge_below lo hi G1 G2), A, B, C. reflexivity.
Qed.

End StoredFacts.

(** X22.  The outcomes of the Electron import.  The handler answers success
    exactly when the chosen file parses to a value with a readings array,
    and the number it reports is the length of that array; the data file and
    the log are then what [saveData] leaves for that value, also when the
    write fails.  In every other case (dialog cancelled, file unreadable or
    not JSON, no readings array) it answers failure, leaves the data file
    untouched and logs nothing. *)
Theorem X22_import_outcomes (dlg : Electron.OpenDialog)
  (w : Electron.WriteResult) (file : Electron.DataFile) :
  let result := Electron.import_data dlg w file in
  (forall n,
      fst (fst result) = Electron.import_success n
      <-> exists data l,
            dlg = Electron.Chosen (Electron.Parsed data)
            /\ Electron.readings data = Some l
            /\ n = List.length l)
  /\ (forall data l,
         dlg = Electron.Chosen (Electron.Parsed data) ->
         Electron.readings data = Some l ->
         result = (Electron.import_success (List.length l),
                   fst (Electron.saveData w data),
                   snd (Electron.saveData w data)))
  /\ ((forall data,
          dlg = Electron.Chosen (Electron.Parsed data) ->
          Electron.readings data = None) ->
      exists error,
        result = (Electron.import_failure error, file, [])).
Proof.
  intros result. unfold result.
  destruct dlg as [|[message|data]]; cbn [Electron.import_data].
  - split; [|split].
    + intros n. split; [discriminate|]. intros (d & l & D & _). discriminate D.
    + intros d l D. discriminate D.
    + intros _. now exists None.
  - split; [|split].
    + intros n. split; [discriminate|]. intros (d & l & D & _). discriminate D.
    + intros d l D. discriminate D.
    + intros _. now exists (Some message).
  - destruct (Electron.readings data) as [l|] eqn:E.
    + destruct (Electron.saveData w data) as (file', saved) eqn:S.
      cbn [fst snd]. split; [|split].
      * intros n. split.
        -- intros H. inversion H. now exists data, l.
        -- intros (d & l' & D & R & ->). inversion D; subst d.
           rewrite E in R. now inversion R.
      * intros d l' D R. inversion D; subst d. rewrite E in R.
        inversion R; subst l'. now rewrite S.
      * intros H. specialize (H data eq_refl). congruence.
    + cbn [fst snd]. split; [|split].
      * intros n. split; [discriminate|].
        intros (d & l & D & R & _). inversion D; subst d. congruence.
      * intros d l D R. inversion D; subst d. congruence.
      * intros _. now exists (Some "Invalid data format").
Qed.

(** X23.  Clearing the Electron data.  The delete button (answer 1) writes a
    file with no reading, no device and no time of last sync; any other
    answer leaves the data file untouched and writes nothing.  After a
    successful clear the next finalization stores exactly the readings
    parsed from its session, sorted and renumbered, as JSON keeps them. *)
Theorem X23_clear_data {collator : Collator} (parseFloat : string -> number)
  (now : string) (info : option Electron.DeviceInfo) (raw : list string)
  (response : nat) (w : Electron.WriteResult) (file : Electron.DataFile) :
  Electron.clear_data 1 w file
  = (true, fst (Electron.saveData w Electron.noData),
     snd (Electron.saveData w Electron.noData))
  /\ Electron.clear_data 1 Electron.Written file
     = (true, Electron.Stored Electron.noData, [])
  /\ (response <> 1 ->
      Electron.clear_data response w file = (false, file, []))
  /\ Electron.stored_readings
       (fst (Electron.finalizeTransfer parseFloat now Electron.Written
               info raw (Electron.Stored Electron.noData)))
     = map Electron.JSON_reading
         (Electron.renumber
            (sort Electron.byTimestamp
               (Electron.parsedReadings parseFloat raw))).
Proof.
  split; [|split; [|split]].
  - unfold Electron.clear_data. cbn [Nat.eqb].
    now destruct (Electron.saveData w Electron.noData).
  - reflexivity.
  - intros N. unfold Electron.clear_data.
    destruct (response =? 1)%nat eqn:R; [|reflexivity].
    apply Nat.eqb_eq in R. contradiction.
  - rewrite finalizeTransfer_stored.
    change (Electron.stored_readings (Electron.Stored Electron.noData))
      with (@nil Electron.Reading).
    unfold Electron.allReadings. now rewrite uniqueNew_nil.
Qed.

(** X24.  Saving the target range from the settings screen.  The range is
    saved exactly when both texts parse to numbers above zero with the lower
    bound below the upper one; otherwise the alert is shown and the storage
    is not touched.  When it is saved, the screen holds the two parsed
    bounds, and the next load after a successful write finds the lower
    bound, the upper bound as JSON keeps it (an upper bound that is an
    infinity comes back as [null]) and everything else as it was stored:
    the readings, the device, the time of the last sync and the other
    settings. *)
Theorem X24_saved_range_is_valid (parseFloat : string -> number)
  (tempMin tempMax : string) (w : Mobile.SetItem) (prev : Mobile.Settings)
  (storage : option Mobile.AppData) :
  let lo := parseFloat tempMin in
  let hi := parseFloat tempMax in
  let stored := Mobile.loadData storage in
  let result :=
    Mobile.handleSaveRange parseFloat tempMin tempMax w prev storage in
  ((exists shown, fst result = Some shown)
   <-> gt lo zero = true /\ gt hi zero = true /\ below lo hi = true)
  /\ (fst result = None -> snd result = storage)
  /\ (forall shown,
         fst result = Some shown ->
         Mobile.targetRangeMin shown = lo
         /\ Mobile.targetRangeMax shown = hi
         /\ (w = Mobile.Resolved ->
             Mobile.loadData (snd result)
             = {| Mobile.readings := Mobile.readings stored;
                  Mobile.device := Mobile.device stored;
                  Mobile.lastSync := Mobile.lastSync stored;
                  Mobile.settings :=
                    {| Mobile.targetRangeMin := lo;
                       Mobile.targetRangeMax := JSON_number hi;
                       Mobile.syncToHealthKit :=
                         Mobile.syncToHealthKit (Mobile.settings stored);
                       Mobile.autoConnect :=
                         Mobile.autoConnect (Mobile.settings stored);
                       Mobile.lastDeviceId :=
                         Mobile.lastDeviceId (Mobile.settings stored) |}
               |})).
Proof.
  intros lo hi stored result.
  pose proof (range_test lo hi) as T.
  unfold result, Mobile.handleSaveRange. fold lo hi. cbv zeta.
  destruct (isNaN lo || isNaN hi || le lo zero || le hi zero || ge lo hi).
  - cbn [fst snd]. split; [|split].
    + split; [intros (shown & H); discriminate H|].
      intros V. apply T in V. discriminate V.
    + reflexivity.
    + intros shown H. discriminate H.
  - destruct (proj1 T eq_refl) as (A & B & C).
    unfold Mobile.updateSettings. cbv zeta. cbn [fst snd].
    split; [|split].
    + split; [intros _; repeat split; assumption|]. intros _. now eexists.
    + discriminate.
    + intros shown H. inversion H; subst shown.
      split; [reflexivity|]. split; [reflexivity|].
      intros ->. cbn [Mobile.saveData fst Mobile.loadData].
      rewrite mobile_JSON_data_idem. unfold stored.
      pose proof (f_equal Mobile.readings (mobile_loadData_JSON storage))
        as L1.
      cbn [Mobile.JSON_data Mobile.readings] in L1.
      unfold Mobile.JSON_data.
      cbn [Mobile.readings Mobile.device Mobile.lastSync Mobile.settings].
      rewrite L1.
      unfold Mobile.JSON_settings, Mobile.spread, Mobile.range_only.
      cbn [Mobile.targetRangeMin Mobile.targetRangeMax Mobile.syncToHealthKit
           Mobile.autoConnect Mobile.lastDeviceId Mobile.or_else
           Mobile.has_targetRangeMin Mobile.has_targetRangeMax
           Mobile.has_syncToHealthKit Mobile.has_autoConnect
           Mobile.has_lastDeviceId].
      rewrite (bounded_is_rational lo hi A C). reflexivity.
Qed.

(** X25.  Clearing the mobile readings keeps the settings and the device
    and removes the readings and the time of the last sync; readings added
    afterwards are then all stored, in timestamp order. *)
Theorem X25_clear_then_add {collator : Collator} (now : string)
  (newReadings : list Mobile.INRReading) (storage : option Mobile.AppData) :
  let cleared := Mobile.clearReadings Mobile.Resolved storage in
  let data :=
    fst (fst (Mobile.addReadings now Mobile.Resolved newReadings cleared)) in
  Mobile.readings (Mobile.loadData cleared) = []
  /\ Mobile.lastSync (Mobile.loadData cleared) = None
  /\ Mobile.settings (Mobile.loadData cleared)
     = Mobile.settings (Mobile.loadData storage)
  /\ Mobile.device (Mobile.loadData cleared)
     = Mobile.device (Mobile.loadData storage)
  /\ Mobile.readings data = sort Mobile.byTimestamp newReadings.
Proof.
  intros cleared data.
  assert (L : Mobile.loadData cleared
              = {| Mobile.readings := [];
                   Mobile.device := Mobile.device (Mobile.loadData storage);
                   Mobile.lastSync := None;
                   Mobile.settings :=
                     Mobile.settings (Mobile.loadData storage) |}).
  { unfold cleared, Mobile.clearReadings.
    cbn [Mobile.saveData fst Mobile.loadData].
    rewrite mobile_JSON_data_idem.
    pose proof (f_equal Mobile.settings (mobile_loadData_JSON storage)) as J.
    cbn [Mobile.JSON_data Mobile.settings] in J.
    unfold Mobile.JSON_data.
    cbn [Mobile.readings Mobile.device Mobile.lastSync Mobile.settings map].
    now rewrite J. }
  unfold data, Mobile.addReadings. cbv zeta. rewrite L.
  cbn [Mobile.saveData fst Mobile.readings Mobile.lastSync Mobile.settings
       Mobile.device].
  repeat split.
  unfold Mobile.mergedReadings, Mobile.uniqueNew. cbn [map app].
  f_equal. apply filter_all. reflexivity.
Qed.

(* ------------------------------------------------------------------------- *)
(** * The observation extractors on the text of a batch *)

(** The groups of the specification are written out as the text the meter
    sends ([Wire.batch]); the matchers of the code are then followed through
    that text: they pass over the literal parts and the values of other
    elements and stop at the element they look for. *)

Section WireFacts.
Import Wire.


Lemma strip_prefix_nil (a : ascii) (pat : string) :
  strip_prefix (String a pat) "" = None.
Proof. reflexivity. Qed.














End WireFacts.

Section GroupFacts.
Import Wire Acceptance.




















End GroupFacts.

Section BatchFacts.
Import Wire Acceptance.
Variable parseFloat : string -> number.












End BatchFacts.

Section MobileBatchFacts.
Import Wire Acceptance.
Variable parseFloat : string -> number.
Variable freshId : nat -> string.




End MobileBatchFacts.


